(** * The string-literal parser of the Mys front end (mys/parser/string_parser.c)

    A shallow embedding of the string and f-string parser, and the
    properties of its specification that were checked against it.

    Modelling conventions.
    - A C string ([const char *]) is the [list ascii] of its bytes up to,
      and excluding, the terminating NUL.  A pointer into it is an offset
      ([nat]); reading at the length of the list yields the NUL.
    - [int], [Py_ssize_t] values that are not offsets are [Z].  A [size_t]
      length is a [nat]; where the code lets one wrap around ([--len] at
      zero) it becomes [SIZE_MAX], and the byte that is then read is the
      one the wrapped pointer points to.  Where a [size_t] that can
      exceed [PY_SSIZE_T_MAX] is passed as a [Py_ssize_t] ([len * 6] and
      the length of the stripped body) it arrives as a negative number.
    - A Python [str] object is the list of its code points, a Python
      [bytes] object the list of its bytes.
    - A C function that returns [NULL] or [-1] on failure returns
      [Err e], where [e] tells which exception is pending.
    - Reference counts and the arena are not modelled.  Of the
      allocations, [PyBytes_FromStringAndSize] can fail, and so can those
      of [ExprList] where it is modelled in memory; the others succeed.
    - What the file gets from [Python.h] and the tokenizer/parser headers
      (decoders, warning machinery, the expression parser, platform and
      tokenizer constants) is the interface [Runtime]. *)

From Stdlib Require Import ZArith Ascii String Bool Lia Arith List.
Import ListNotations.

Set Implicit Arguments.
Set Warnings "-register-all".

(** ** Bytes and characters *)

Abbreviation NUL := "000"%char (only parsing).
Abbreviation DQUOTE := "034"%char (only parsing).
Abbreviation SQUOTE := "'"%char (only parsing).
Abbreviation BACKSLASH := "\"%char (only parsing).
Abbreviation LBRACE := "{"%char (only parsing).
Abbreviation RBRACE := "}"%char (only parsing).
Abbreviation NEWLINE := "010"%char (only parsing).
Abbreviation TAB := "009"%char (only parsing).
Abbreviation FORMFEED := "012"%char (only parsing).

Definition cstring := list ascii.

(** [s[i]] for a C string: the byte at offset [i], the NUL at its end. *)
Definition peek (buf : cstring) (i : nat) : ascii := nth i buf NUL.

(** [memcpy]-like slice: the [len] bytes from offset [s]. *)
Definition slice (buf : cstring) (s len : nat) : cstring :=
  firstn len (skipn s buf).

(** [*s & 0x80] *)
Definition high_bit (c : ascii) : bool :=
  match c with Ascii _ _ _ _ _ _ _ b7 => b7 end.

(** [Py_CHARMASK(c) >= 0x80] *)
Definition charmask_ge_0x80 (c : ascii) : bool := 128 <=? nat_of_ascii c.

(** Modelled from the spec: the macro [Py_ISALPHA] of [Python.h] is not
    among the sources; the recognizer "reads characters while they are
    ASCII letters" (4.B). *)
Definition Py_ISALPHA (c : ascii) : bool :=
  let n := nat_of_ascii c in
  ((65 <=? n) && (n <=? 90)) || ((97 <=? n) && (n <=? 122)).

(** Modelled from the spec: the macro [Py_ISSPACE] of [Python.h] is not
    among the sources; after [=] the scanner skips "ASCII whitespace
    (space, tab, newline, form-feed)" (4.D). *)
Definition Py_ISSPACE (c : ascii) : bool :=
  (c =? " ")%char || (c =? TAB)%char || (c =? NEWLINE)%char
  || (c =? FORMFEED)%char.

Definition str (s : string) : cstring := list_ascii_of_string s.

(** ** Python objects, errors and results *)

Definition unicode := list N.

Inductive PyObject : Type :=
| PyUnicode (u : unicode)
| PyBytes (b : cstring).

(** The exception that is pending when a function reports failure. *)
Inductive PyErr : Type :=
| NoException
    (* the failure value is returned and no exception was set *)
| SyntaxError (msg : string)
    (* RAISE_SYNTAX_ERROR *)
| BadInternalCall
    (* PyErr_BadInternalCall: a SystemError *)
| OverflowError (msg : string)
| Raised
    (* set inside a routine of the runtime: a decoder, the warning
       machinery, the expression parser *)
| OutOfBounds
    (* not an exception: the C code would index before the start of the
       token's bytes; [_Mys_PyPegen_parsestr] never does *)
| OutOfFuel.
    (* not an exception: the bound the model puts on a loop or on the
       recursion was reached *)

Inductive result (A : Type) : Type :=
| Ok (a : A)
| Err (e : PyErr).
Arguments Err {A} e.

Definition bind {A B} (r : result A) (k : A -> result B) : result B :=
  match r with
  | Ok a => k a
  | Err e => Err e
  end.

Notation "'do' x <- r ; k" := (bind r (fun x => k))
  (at level 10, x pattern, r at level 100, k at level 200,
   right associativity).

Definition or_raised {A} (o : option A) : result A :=
  match o with
  | Some a => Ok a
  | None => Err Raised
  end.

Definition is_syntax_error (e : PyErr) : bool :=
  match e with
  | SyntaxError _ => true
  | _ => false
  end.

(** [contains needle s]: [needle] occurs in [s]. *)
Fixpoint contains (needle s : string) : bool :=
  String.prefix needle s ||
  match s with
  | EmptyString => false
  | String _ s' => contains needle s'
  end.

Definition syntax_error_containing {A} (needle : string) (r : result A)
  : Prop :=
  exists msg, r = Err (SyntaxError msg) /\ contains needle msg = true.

(** ** Tokens, parser context, syntax tree *)

Record Token : Type := {
  bytes : cstring;
  lineno : Z;
  col_offset : Z;
  end_lineno : Z;
  end_col_offset : Z
}.

Record Parser : Type := {
  feature_version : Z;
  flags : Z;
  tok_first_lineno : Z;
  tok_lineno : Z
}.

Record span : Type := {
  sp_lineno : Z;
  sp_col_offset : Z;
  sp_end_lineno : Z;
  sp_end_col_offset : Z
}.

Definition span_of (first_token last_token : Token) : span :=
  {| sp_lineno := lineno first_token;
     sp_col_offset := col_offset first_token;
     sp_end_lineno := end_lineno last_token;
     sp_end_col_offset := end_col_offset last_token |}.

Inductive warn_result : Type :=
| WarnOk
| WarnIsDeprecationError
| WarnFailed.

(** ** The runtime the parser is linked against *)

Class Runtime : Type := {
  SIZE_MAX : Z;
  INT_MAX : Z;
  MAXLEVEL : nat;
  (** [PyUnicode_DecodeUTF8] and [PyUnicode_DecodeUTF8Stateful] with no
      [consumed] pointer, [PyUnicode_FromStringAndSize] *)
  PyUnicode_DecodeUTF8 : cstring -> option unicode;
  PyUnicode_DecodeUnicodeEscape : cstring -> option unicode;
  PyBytes_DecodeEscape : cstring -> option cstring;
  (** [PyBytes_FromStringAndSize(s, size)]: whether an object of [size]
      bytes is made, for a [Py_ssize_t] [size] *)
  PyBytes_FromStringAndSize : Z -> bool;
  (** [PyUnicode_DecodeUTF8Stateful] and [PyBytes_DecodeEscape] when they
      are given a negative size: the bytes object, the offset of the text
      in it, the size *)
  PyUnicode_DecodeUTF8_negative : cstring -> nat -> Z -> option unicode;
  PyBytes_DecodeEscape_negative : cstring -> nat -> Z -> option cstring;
  (** message, line *)
  PyErr_WarnExplicitObject : string -> Z -> warn_result;
  (** the nodes of the generic expression parser *)
  ext_expr : Type;
  (** [_Mys_PyPegen_run_parser] on a parser made for the text, with the
      flags, the feature version, the starting line and column *)
  run_parser : cstring -> Z -> Z -> Z -> Z -> option ext_expr
}.

Section StringParser.

Context {RT : Runtime}.

Inductive expr_ty : Type :=
| Parsed (e : ext_expr)
| Constant (value : PyObject) (kind : option string) (loc : span)
| FormattedValue (value : expr_ty) (conversion : Z)
    (format_spec : option expr_ty) (loc : span)
| JoinedStr (values : list expr_ty) (loc : span).

(** [PY_SSIZE_T_MAX] of [pyport.h], which is not among the sources:
    [Py_ssize_t] is the signed type of the width of [size_t], its
    greatest value is [((size_t)-1)>>1]. *)
Definition PY_SSIZE_T_MAX : Z := SIZE_MAX / 2.

(** A [size_t] where a [Py_ssize_t] is taken: above [PY_SSIZE_T_MAX] it
    is a negative number. *)
Definition as_ssize_t (n : Z) : Z :=
  if (PY_SSIZE_T_MAX <? n)%Z then (n - (SIZE_MAX + 1))%Z else n.

(** ** STRING HANDLING FUNCTIONS *)

Definition warn_invalid_escape_sequence
    (first_invalid_escape_char : ascii) (t : Token) : result unit :=
  let msg := ("invalid escape sequence \"
              ++ String first_invalid_escape_char EmptyString)%string in
  match PyErr_WarnExplicitObject msg (lineno t) with
  | WarnOk => Ok tt
  | WarnIsDeprecationError => Err (SyntaxError msg)
  | WarnFailed => Err Raised
  end.

(** The run of bytes with the high bit set at the front of [s], and what
    follows it: the [while] of [decode_utf8]. *)
Fixpoint span_high (s : cstring) : cstring * cstring :=
  match s with
  | c :: s' =>
      if high_bit c then
        let '(run, rest) := span_high s' in (c :: run, rest)
      else ([], s)
  | [] => ([], [])
  end.

Definition decode_utf8 (s : cstring) : option unicode * cstring :=
  let '(run, rest) := span_high s in
  (PyUnicode_DecodeUTF8 run, rest).

Definition hex_digit (n : N) : ascii :=
  nth (N.to_nat (n mod 16)) (str "0123456789abcdef") "0"%char.

(** [%08x] of a [Py_UCS4] *)
Definition hex8 (chr : N) : cstring :=
  map (fun k => hex_digit (N.shiftr chr (4 * k))) [7; 6; 5; 4; 3; 2; 1; 0]%N.

(** [sprintf(p, "\\U%08x", chr)] *)
Definition sprintf_U (chr : N) : cstring :=
  BACKSLASH :: "U"%char :: hex8 chr.

(** The [for] over the characters of [w]: each [sprintf] stores ten
    bytes and a NUL at the cursor, which moves by ten. *)
Fixpoint sprintf_loop (w : unicode) (p : cstring) (top : nat)
  : cstring * nat :=
  match w with
  | [] => (p, top)
  | chr :: w' =>
      sprintf_loop w' (p ++ sprintf_U chr) (Nat.max top (length p + 11))
  end.

(** The [while (s < end)] of [decode_unicode_with_escapes]: [s] is what is
    left of the input, [p] the bytes of the buffer before the cursor, and
    [top] the number of bytes of the buffer that have been written, the
    NUL that [strcpy] and [sprintf] store after their text included (the
    next write is on that NUL).  The result is the text before the
    cursor, or the failure, and the last [top]. *)
Fixpoint escapes_loop (fuel : nat) (s p : cstring) (top : nat)
  : result cstring * nat :=
  match fuel with
  | 0 => (match s with [] => Ok p | _ => Err OutOfFuel end, top)
  | S fuel' =>
      let second (s p : cstring) (top : nat) :=
        match s with
        | [] => (Ok p, top)
        | c :: s' =>
            if high_bit c then
              let '(w, rest) := decode_utf8 s in
              match w with
              | None => (Err Raised, top)
              | Some w =>
                  let '(p, top) := sprintf_loop w p top in
                  escapes_loop fuel' rest p top
              end
            else
              (* *p++ = *s++; *)
              escapes_loop fuel' s' (p ++ [c]) (Nat.max top (length p + 1))
        end in
      match s with
      | [] => (Ok p, top)
      | c :: s1 =>
          if (c =? BACKSLASH)%char then
            (* *p++ = *s++; *)
            let p1 := p ++ [c] in
            let top1 := Nat.max top (length p + 1) in
            (* strcpy(p, "u005c"); p += 5; *)
            let p2 := p1 ++ str "u005c" in
            let top2 := Nat.max top1 (length p1 + 6) in
            match s1 with
            | [] => (Ok p2, top2)
            | c1 :: _ =>
                second s1 (if high_bit c1 then p2 else p1)
                  (if high_bit c1 then top2 else top1)
            end
          else second s p top
      end
  end.

Definition decode_unicode_with_escapes (s : cstring) : result unicode :=
  let len := length s in
  (* check for integer overflow *)
  if (SIZE_MAX / 6 <? Z.of_nat len)%Z then Err NoException
  else if negb (PyBytes_FromStringAndSize (as_ssize_t (Z.of_nat len * 6)))
  then Err Raised
  else
    do buf <- fst (escapes_loop len s [] 0);
    or_raised (PyUnicode_DecodeUnicodeEscape buf).

Definition decode_bytes_with_escapes (s : cstring) : result cstring :=
  or_raised (PyBytes_DecodeEscape s).

(** *** _Mys_PyPegen_parsestr *)

Record StrFlags : Type := {
  bytesmode : bool;
  rawmode : bool;
  remode : bool;
  cmode : bool;
  fmode : bool
}.

Definition no_flags : StrFlags :=
  {| bytesmode := false; rawmode := false; remode := false;
     cmode := false; fmode := false |}.

Definition set_bytes (f : StrFlags) := {| bytesmode := true;
  rawmode := rawmode f; remode := remode f; cmode := cmode f;
  fmode := fmode f |}.
Definition set_raw (f : StrFlags) := {| bytesmode := bytesmode f;
  rawmode := true; remode := remode f; cmode := cmode f;
  fmode := fmode f |}.
Definition set_re (f : StrFlags) := {| bytesmode := bytesmode f;
  rawmode := rawmode f; remode := true; cmode := cmode f;
  fmode := fmode f |}.
Definition set_c (f : StrFlags) := {| bytesmode := bytesmode f;
  rawmode := rawmode f; remode := remode f; cmode := true;
  fmode := fmode f |}.
Definition set_f (f : StrFlags) := {| bytesmode := bytesmode f;
  rawmode := rawmode f; remode := remode f; cmode := cmode f;
  fmode := true |}.

Definition is_letter (lower upper : ascii) (c : ascii) : bool :=
  (c =? lower)%char || (c =? upper)%char.

(** The [while] over the prefix letters: [l] is the text from [s] on, its
    head is [quote]. *)
Fixpoint prefix_loop (l : cstring) (s : nat) (f : StrFlags)
  : nat * StrFlags :=
  if bytesmode f && rawmode f && remode f && cmode f then (s, f)
  else
    match l with
    | [] => (s, f)
    | quote :: l1 =>
        if is_letter "b" "B" quote then prefix_loop l1 (S s) (set_bytes f)
        else if is_letter "u" "U" quote then prefix_loop l1 (S s) f
        else if is_letter "r" "R" quote then
          match l1 with
          | quote' :: l2 =>
              if is_letter "e" "E" quote'
              then prefix_loop l2 (S (S s)) (set_re (set_raw f))
              else prefix_loop l1 (S s) (set_raw f)
          | [] => prefix_loop l1 (S s) (set_raw f)
          end
        else if is_letter "f" "F" quote then prefix_loop l1 (S s) (set_f f)
        else if is_letter "c" "C" quote
        then prefix_loop l1 (S s) (set_c (set_raw f))
        else (s, f)
    end.

Definition scan_prefix (buf : cstring) : nat * StrFlags :=
  if Py_ISALPHA (peek buf 0) then prefix_loop buf 0 no_flags
  else (0, no_flags).

(** [while (s[len - flagslen - 1] != quote) flagslen++;] started with [n]
    bytes before the end: the new [len].  When no quote is found in the
    string, [flagslen] comes to [len], the index wraps around and the byte
    that is read is the one before [s], the opening quote: the new [len]
    is 0.  [None]: that byte is no quote, and the loop goes on before
    it. *)
Fixpoint reflags_loop (buf : cstring) (s : nat) (quote : ascii) (n : nat)
  : option nat :=
  match n with
  | 0 => if (peek buf (s - 1) =? quote)%char then Some 0 else None
  | S m =>
      if (peek buf (s + m) =? quote)%char then Some n
      else reflags_loop buf s quote m
  end.

Record parsestr_out : Type := {
  o_flags : StrFlags;
  o_is_char : bool;
  o_result : option PyObject;
  (* the offset of [*fstr] in the token's bytes, and [*fstrlen], a
     [Py_ssize_t] *)
  o_fstr : option (nat * Z);
  o_reflags : option unicode
}.

Definition strchr_is_null (c : ascii) (s : cstring) : bool :=
  negb (existsb (Ascii.eqb c) s).

(** What [_Mys_PyPegen_parsestr] knows once the prefix and the quotes are
    taken off: the flags, the offset [s] of the body in the token's bytes
    and its length [len], a [size_t]. *)
Record Stripped : Type := {
  st_flags : StrFlags;
  st_is_char : bool;
  st_s : nat;
  st_len : nat;
  st_reflags : option unicode
}.

(** [_Mys_PyPegen_parsestr], down to the test of [fmode]. *)
Definition parsestr_strip (p : Parser) (t : Token) : result Stripped :=
  let buf := bytes t in
  let '(s, f) := scan_prefix buf in
  let quote := peek buf s in
  do is_char <-
    (if (quote =? SQUOTE)%char then
       if fmode f || bytesmode f || rawmode f || remode f || cmode f
       then Err (SyntaxError "characters cannot have a prefix")
       else Ok true
     else Ok false);
  (* fstrings are only allowed in Python 3.6 and greater *)
  if fmode f && (feature_version p <? 6)%Z then
    Err (SyntaxError
           "Format strings are only supported in Python 3.6 and greater")
  else if fmode f && bytesmode f then Err BadInternalCall
  else if negb (quote =? SQUOTE)%char && negb (quote =? DQUOTE)%char
  then Err BadInternalCall
  else
    (* Skip the leading quote char. *)
    let s := S s in
    let len := List.length buf - s in
    if (INT_MAX <? Z.of_nat len)%Z then
      Err (OverflowError "string to parse is too long")
    else
      do (len, reflags) <-
        (if remode f then
           match reflags_loop buf s quote len with
           | None =>
               (* the loop would go on before the opening quote; it does
                  not: the byte before [s] is the quote *)
               Err OutOfBounds
           | Some len' =>
               Ok (len', PyUnicode_DecodeUTF8
                           (slice buf (s + len') (len - len')))
           end
         else Ok (len, None));
      match len with
      | 0 =>
          (* [--len] wraps around to [SIZE_MAX], and [s[len]] is the byte
             before [s] *)
          if negb (peek buf (s - 1) =? quote)%char then
            (* Last quote char must match the first. *)
            Err BadInternalCall
          else if (4 <=? SIZE_MAX)%Z && (peek buf s =? quote)%char
                  && (peek buf (S s) =? quote)%char then
            if is_char then
              Err (SyntaxError "characters cannot be triple quoted")
            else
              (* [s += 2; len -= 2;]: the last two are the two bytes
                 before the opening quote, [s[SIZE_MAX - 3]] and
                 [s[SIZE_MAX - 4]] *)
              if s <? 2 then
                (* before the first byte of the token *)
                Err OutOfBounds
              else if negb (peek buf (s - 2) =? quote)%char then
                Err BadInternalCall
              else if s <? 3 then Err OutOfBounds
              else if negb (peek buf (s - 3) =? quote)%char then
                Err BadInternalCall
              else
                Ok {| st_flags := f; st_is_char := is_char; st_s := s + 2;
                      st_len := Z.to_nat (SIZE_MAX - 4);
                      st_reflags := reflags |}
          else
            Ok {| st_flags := f; st_is_char := is_char; st_s := s;
                  st_len := Z.to_nat SIZE_MAX; st_reflags := reflags |}
      | S len =>
          if negb (peek buf (s + len) =? quote)%char then
            (* Last quote char must match the first. *)
            Err BadInternalCall
          else
            do (s, len) <-
              (if (4 <=? len) && (peek buf s =? quote)%char
                  && (peek buf (S s) =? quote)%char then
                 if is_char then
                   Err (SyntaxError "characters cannot be triple quoted")
                 else
                   (* A triple quoted string. *)
                   let s := s + 2 in
                   let len := len - 2 in
                   (* And check that the last two match. *)
                   if negb (peek buf (s + (len - 1)) =? quote)%char
                      || negb (peek buf (s + (len - 2)) =? quote)%char
                   then Err BadInternalCall
                   else Ok (s, len - 2)
               else Ok (s, len));
            Ok {| st_flags := f; st_is_char := is_char; st_s := s;
                  st_len := len; st_reflags := reflags |}
      end.

(** [_Mys_PyPegen_parsestr], from the test of [fmode] on.  [*fstrlen]
    and the sizes that [PyBytes_FromStringAndSize],
    [decode_bytes_with_escapes] and [PyUnicode_DecodeUTF8Stateful] take
    are [Py_ssize_t]. *)
Definition parsestr_decode (buf : cstring) (x : Stripped)
  : result parsestr_out :=
  let f := st_flags x in
  let s := st_s x in
  let len := st_len x in
  let size := as_ssize_t (Z.of_nat len) in
  if fmode f then
    (* Just return the bytes. The caller will parse the resulting
       string. *)
    Ok {| o_flags := f; o_is_char := st_is_char x; o_result := None;
          o_fstr := Some (s, size); o_reflags := st_reflags x |}
  else
    (* Not an f-string. *)
    (* Avoid invoking escape decoding routines if possible. *)
    let raw := rawmode f || strchr_is_null BACKSLASH (skipn s buf) in
    let f := if raw then set_raw f else f in
    do v <-
      (if bytesmode f then
         (* Disallow non-ASCII characters. *)
         if existsb charmask_ge_0x80 (skipn s buf) then
           Err (SyntaxError
                  "bytes can only contain ASCII literal characters.")
         else if raw then
           if PyBytes_FromStringAndSize size
           then Ok (PyBytes (slice buf s len))
           else Err Raised
         else
           do b <-
             (if (size <? 0)%Z
              then or_raised (PyBytes_DecodeEscape_negative buf s size)
              else decode_bytes_with_escapes (slice buf s len));
           Ok (PyBytes b)
       else if raw then
         do u <-
           or_raised
             (if (size <? 0)%Z then PyUnicode_DecodeUTF8_negative buf s size
              else PyUnicode_DecodeUTF8 (slice buf s len));
         Ok (PyUnicode u)
       else
         (* the length that [decode_unicode_with_escapes] tests is [len],
            also where it has wrapped around and the text is shorter *)
         do u <-
           (if (SIZE_MAX / 6 <? Z.of_nat len)%Z then Err NoException
            else decode_unicode_with_escapes (slice buf s len));
         Ok (PyUnicode u));
    Ok {| o_flags := f; o_is_char := st_is_char x; o_result := Some v;
          o_fstr := None; o_reflags := st_reflags x |}.

Definition _Mys_PyPegen_parsestr (p : Parser) (t : Token)
  : result parsestr_out :=
  do x <- parsestr_strip p t;
  parsestr_decode (bytes t) x.

(** The stripped body of a token. *)
Definition body_of (t : Token) (x : Stripped) : cstring :=
  slice (bytes t) (st_s x) (st_len x).

(** [decode_unicode_with_escapes] gets its buffer for a text of [len]
    bytes: [len * 6] is computed without overflow and the bytes object of
    that size is made. *)
Definition scratch_buffer (len : nat) : Prop :=
  (Z.of_nat len <= SIZE_MAX / 6)%Z
  /\ PyBytes_FromStringAndSize (as_ssize_t (Z.of_nat len * 6)) = true.

(** What [_Mys_PyPegen_parsestr] makes of a body when the raw flag is not
    set: the decoding with escapes. *)
Definition escape_path (bytesmode : bool) (body : cstring)
  : result PyObject :=
  if bytesmode then
    do b <- decode_bytes_with_escapes body; Ok (PyBytes b)
  else
    do u <- decode_unicode_with_escapes body; Ok (PyUnicode u).

(** ** FSTRING STUFF *)

Fixpoint is_prefix (needle hay : cstring) : bool :=
  match needle, hay with
  | [], _ => true
  | a :: needle', b :: hay' => (a =? b)%char && is_prefix needle' hay'
  | _ :: _, [] => false
  end.

(** [strstr]: the offset of the first occurrence. *)
Fixpoint strstr (hay needle : cstring) : option nat :=
  if is_prefix needle hay then Some 0
  else
    match hay with
    | [] => None
    | _ :: hay' => option_map S (strstr hay' needle)
    end.

(** The first [while] of [fstring_find_expr_location], on the text after
    the opening brace. *)
Fixpoint newline_after_brace (l : cstring) : bool :=
  match l with
  | [] => false
  | c :: l' =>
      if (c =? RBRACE)%char || (c =? NEWLINE)%char then true
      else if negb (c =? " ")%char && negb (c =? TAB)%char
              && negb (c =? FORMFEED)%char then false
      else newline_after_brace l'
  end.

(** [substr - start] after
    [while (start > parent_str && *start != '\n') start--;] *)
Fixpoint back_to_newline (parent_str : cstring) (start : nat) : nat :=
  match start with
  | 0 => 0
  | S start' =>
      if (peek parent_str start =? NEWLINE)%char then 0
      else S (back_to_newline parent_str start')
  end.

Definition count_newlines (l : cstring) : nat :=
  List.length (filter (Ascii.eqb NEWLINE) l).

(** [*p_lines] and [*p_cols] *)
Definition fstring_find_expr_location (parent : Token) (expr_str : cstring)
  : Z * Z :=
  let parent_str := bytes parent in
  match strstr parent_str expr_str with
  | Some substr =>
      let cols :=
        if newline_after_brace (skipn (S substr) parent_str) then 0
        else back_to_newline parent_str substr in
      (Z.of_nat (count_newlines (firstn substr parent_str)), Z.of_nat cols)
  | None => (0, 0)%Z
  end.

Definition is_blank (c : ascii) : bool :=
  (c =? " ")%char || (c =? TAB)%char || (c =? NEWLINE)%char
  || (c =? FORMFEED)%char.

(** The [for] that looks for a byte that is not white space: what is left
    of the range when it stops. *)
Fixpoint blank_loop (l : cstring) : cstring :=
  match l with
  | [] => []
  | c :: l' => if negb (is_blank c) then l else blank_loop l'
  end.

Definition fstring_compile_expr (p : Parser) (buf : cstring)
    (expr_start expr_end : nat) (t : Token) : result expr_ty :=
  let len := expr_end - expr_start in
  let expr := slice buf expr_start len in
  match blank_loop expr with
  | [] => Err (SyntaxError "f-string: empty expression not allowed")
  | _ :: _ =>
      let '(lines, cols) :=
        fstring_find_expr_location t (LBRACE :: expr ++ [RBRACE]) in
      let text := "("%char :: expr ++ [")"%char] in
      let starting_lineno := (lineno t + lines - 1)%Z in
      let starting_col_offset :=
        if (tok_first_lineno p =? tok_lineno p)%Z
        then (col_offset t + cols)%Z else cols in
      match run_parser text (flags p) (feature_version p)
              starting_lineno starting_col_offset with
      | Some e => Ok (Parsed e)
      | None => Err Raised
      end
  end.

(** [while (s < end && *s++ != '}') {}] *)
Fixpoint skip_name (fuel : nat) (buf : cstring) (end_ s : nat) : nat :=
  match fuel with
  | 0 => s
  | S fuel' =>
      if s <? end_ then
        if (peek buf s =? RBRACE)%char then S s
        else skip_name fuel' buf end_ (S s)
      else s
  end.

Section Literal.

Variables (buf : cstring) (end_ : nat) (raw : bool) (recurse_lvl : Z)
          (t : Token).

(** The [while (s < end)] of [fstring_find_literal].  The result is the
    status, the end [s] of the literal and the new [*str]. *)
Fixpoint literal_loop (fuel : nat) (s : nat) : result (Z * nat * nat) :=
  match fuel with
  | 0 => Err OutOfFuel
  | S fuel' =>
      let braces (ch : ascii) (s : nat) :=
        if (ch =? LBRACE)%char || (ch =? RBRACE)%char then
          if (recurse_lvl =? 0)%Z then
            if (s <? end_) && (peek buf s =? ch)%char then
              Ok (1%Z, s, S s)
            else if (ch =? RBRACE)%char then
              Err (SyntaxError "f-string: single '}' is not allowed")
            else Ok (0%Z, s - 1, s - 1)
          else Ok (0%Z, s - 1, s - 1)
        else literal_loop fuel' s in
      if s <? end_ then
        let ch := peek buf s in
        let s := S s in
        if negb raw && (ch =? BACKSLASH)%char && (s <? end_) then
          let ch := peek buf s in
          let s := S s in
          if (ch =? "N")%char then
            if s <? end_ then
              if (peek buf s =? LBRACE)%char
              then literal_loop fuel' (skip_name end_ buf end_ (S s))
              else Ok (0%Z, S s, S s)
            else Ok (0%Z, s, s)
          else if (ch =? LBRACE)%char then
            do _ <- warn_invalid_escape_sequence ch t;
            braces ch s
          else braces ch s
        else braces ch s
      else Ok (0%Z, s, s)
  end.

(** The decoding of the literal's bytes at [done:]. *)
Definition decode_literal (bytes : cstring) : result unicode :=
  if raw then or_raised (PyUnicode_DecodeUTF8 bytes)
  else decode_unicode_with_escapes bytes.

(** [done:] in [fstring_find_literal], with the status, the end [s] of the
    literal and the new [*str]. *)
Definition fstring_find_literal_tail (literal_start : nat)
    (r : Z * nat * nat) : result (Z * nat * option unicode) :=
  let '(result, s, str) := r in
  if negb (literal_start =? s) then
    do literal <-
      decode_literal (slice buf literal_start (s - literal_start));
    Ok (result, str, Some literal)
  else Ok (result, str, None).

(** The status, the new [*str] and [*literal]. *)
Definition fstring_find_literal (str : nat)
  : result (Z * nat * option unicode) :=
  let literal_start := str in
  do r <- literal_loop (S (end_ - str)) str;
  fstring_find_literal_tail literal_start r.

End Literal.

(** *** fstring_find_expr *)

Definition unmatched_msg (ch : ascii) : string :=
  ("f-string: unmatched '" ++ String ch "'")%string.

Definition mismatch_msg (ch opening : ascii) : string :=
  ("f-string: closing parenthesis '" ++ String ch
     ("' does not match opening parenthesis '" ++ String opening "'"))%string.

(** The scanner's variables: [*str], [quote_char], [string_type] and the
    used part of [parenstack], innermost bracket first ([nested_depth] is
    its length). *)
Record ExprScan : Type := {
  cursor : nat;
  quote_char : ascii;
  string_type : Z;
  parenstack : list ascii
}.

Definition nested_depth (st : ExprScan) : nat := List.length (parenstack st).

Inductive Step : Type :=
| Next (st : ExprScan)      (* [continue], before the cursor is advanced *)
| Break                     (* [break] *)
| Fail (e : PyErr).         (* [goto error] *)

Definition brackets_match (opening ch : ascii) : bool :=
  ((opening =? "(")%char && (ch =? ")")%char)
  || ((opening =? "[")%char && (ch =? "]")%char)
  || ((opening =? LBRACE)%char && (ch =? RBRACE)%char).

(** One turn of the [for] of [fstring_find_expr], for [*str < end]. *)
Definition expr_step (buf : cstring) (end_ : nat) (st : ExprScan) : Step :=
  let str := cursor st in
  let ch := peek buf str in
  let at_ (n : nat) (q : ascii) (ty : Z) (ps : list ascii) :=
    Next {| cursor := n; quote_char := q; string_type := ty;
            parenstack := ps |} in
  (* Nowhere inside an expression is a backslash allowed. *)
  if (ch =? BACKSLASH)%char then
    Fail (SyntaxError "f-string expression part cannot include a backslash")
  else if negb (quote_char st =? NUL)%char then
    (* We're inside a string. See if we're at the end. *)
    if (ch =? quote_char st)%char then
      if (string_type st =? 3)%Z then
        if (str + 2 <? end_) && (peek buf (str + 1) =? ch)%char
           && (peek buf (str + 2) =? ch)%char
        then at_ (str + 2) NUL 0%Z (parenstack st)
        else Next st
      else at_ str NUL 0%Z (parenstack st)
    else Next st
  else if (ch =? SQUOTE)%char || (ch =? DQUOTE)%char then
    (* Is this a triple quoted string? *)
    if (str + 2 <? end_) && (peek buf (str + 1) =? ch)%char
       && (peek buf (str + 2) =? ch)%char
    then at_ (str + 2) ch 3%Z (parenstack st)
    else at_ str ch 1%Z (parenstack st)
  else if (ch =? "[")%char || (ch =? LBRACE)%char || (ch =? "(")%char then
    if MAXLEVEL <=? nested_depth st then
      Fail (SyntaxError "f-string: too many nested parenthesis")
    else at_ str (quote_char st) (string_type st) (ch :: parenstack st)
  else if (ch =? "#")%char then
    Fail (SyntaxError "f-string expression part cannot include '#'")
  else if (nested_depth st =? 0)
          && ((ch =? "!")%char || (ch =? ":")%char || (ch =? RBRACE)%char
              || (ch =? "=")%char || (ch =? ">")%char || (ch =? "<")%char)
  then
    (* See if there's a next character. *)
    if str + 1 <? end_ then
      let next := peek buf (str + 1) in
      if ((ch =? "!")%char && (next =? "=")%char)
         || ((ch =? "=")%char && (next =? "=")%char)
         || ((ch =? "<")%char && (next =? "=")%char)
         || ((ch =? ">")%char && (next =? "=")%char)
      then at_ (str + 1) (quote_char st) (string_type st) (parenstack st)
      else if (ch =? ">")%char || (ch =? "<")%char then Next st
      else Break
    else Break
  else if (ch =? "]")%char || (ch =? RBRACE)%char || (ch =? ")")%char then
    match parenstack st with
    | [] => Fail (SyntaxError (unmatched_msg ch))
    | opening :: ps =>
        if brackets_match opening ch
        then at_ str (quote_char st) (string_type st) ps
        else Fail (SyntaxError (mismatch_msg ch opening))
    end
  else Next st.

(** The variables before the first turn: not in a string, no open
    bracket. *)
Definition scan_start (str : nat) : ExprScan :=
  {| cursor := str; quote_char := NUL; string_type := 0%Z;
     parenstack := [] |}.

Definition advance (st : ExprScan) : ExprScan :=
  {| cursor := S (cursor st); quote_char := quote_char st;
     string_type := string_type st; parenstack := parenstack st |}.

(** The [for] over the cursor: the variables when it is left. *)
Fixpoint expr_loop (fuel : nat) (buf : cstring) (end_ : nat) (st : ExprScan)
  : result ExprScan :=
  match fuel with
  | 0 => Err OutOfFuel
  | S fuel' =>
      if cursor st <? end_ then
        match expr_step buf end_ st with
        | Next st' => expr_loop fuel' buf end_ (advance st')
        | Break => Ok st
        | Fail e => Err e
        end
      else Ok st
  end.

(** The [while] that moves the cursor over [Py_ISSPACE] bytes. *)
Fixpoint skip_space (fuel : nat) (buf : cstring) (str : nat) : nat :=
  match fuel with
  | 0 => str
  | S fuel' =>
      if Py_ISSPACE (peek buf str) then skip_space fuel' buf (S str)
      else str
  end.

Definition expecting_rbrace {A} : result A :=
  Err (SyntaxError "f-string: expecting '}'").

Section FindExpr.

Variables (p : Parser) (buf : cstring) (end_ : nat) (raw : bool)
          (first_token t last_token : Token).

(** [fstring_parse] for the format spec, at a cursor and a recursion
    level: the node and the new cursor. *)
Variable parse_spec : nat -> Z -> result (expr_ty * nat).

(** The new [*str], [*expr_text] and [*expression]. *)
Definition fstring_find_expr (str : nat) (recurse_lvl : Z)
  : result (nat * option unicode * expr_ty) :=
  (* Can only nest one level deep. *)
  if (2 <=? recurse_lvl)%Z then
    Err (SyntaxError "f-string: expressions nested too deeply")
  else
    let str := S str in
    let expr_start := str in
    do st <- expr_loop (S (end_ - str)) buf end_ (scan_start str);
    let str := cursor st in
    let expr_end := str in
    if negb (quote_char st =? NUL)%char then
      Err (SyntaxError "f-string: unterminated string")
    else
      match parenstack st with
      | opening :: _ => Err (SyntaxError (unmatched_msg opening))
      | [] =>
          if end_ <=? str then expecting_rbrace
          else
            do simple_expression <-
              fstring_compile_expr p buf expr_start expr_end t;
            (* Check for =, which puts the text value of the expression
               in expr_text. *)
            do (str, expr_text) <-
              (if (peek buf str =? "=")%char then
                 if (feature_version p <? 8)%Z then
                   Err (SyntaxError
                     ("f-string: self documenting expressions are "
                      ++ "only supported in Python 3.8 and greater"))
                 else
                   let str := skip_space (List.length buf) buf (S str) in
                   do text <-
                     or_raised (PyUnicode_DecodeUTF8
                                  (slice buf expr_start (str - expr_start)));
                   Ok (str, Some text)
               else Ok (str, None));
            (* Check for a conversion char, if present. *)
            do (str, conversion) <-
              (if (peek buf str =? "!")%char then
                 let str := S str in
                 if end_ <=? str then expecting_rbrace
                 else
                   let conversion := peek buf str in
                   let str := S str in
                   if negb ((conversion =? "s")%char
                            || (conversion =? "r")%char
                            || (conversion =? "a")%char)
                   then
                     Err (SyntaxError
                       ("f-string: invalid conversion character: "
                        ++ "expected 's', 'r', or 'a'"))
                   else Ok (str, Z.of_nat (nat_of_ascii conversion))
               else Ok (str, (-1)%Z));
            (* Check for the format spec, if present. *)
            if end_ <=? str then expecting_rbrace
            else
              do (str, format_spec) <-
                (if (peek buf str =? ":")%char then
                   let str := S str in
                   if end_ <=? str then expecting_rbrace
                   else
                     do (spec, str) <- parse_spec str (recurse_lvl + 1)%Z;
                     Ok (str, Some spec)
                 else Ok (str, None));
              if (end_ <=? str) || negb (peek buf str =? RBRACE)%char
              then expecting_rbrace
              else
                (* We're at a right brace. Consume it. *)
                let str := S str in
                let conversion :=
                  match expr_text, format_spec with
                  | Some _, None =>
                      if (conversion =? -1)%Z
                      then Z.of_nat (nat_of_ascii "r") else conversion
                  | _, _ => conversion
                  end in
                Ok (str, expr_text,
                    FormattedValue simple_expression conversion format_spec
                      (span_of first_token last_token))
      end.

(** The status, the new [*str], [*literal], [*expr_text] and
    [*expression]. *)
Definition fstring_find_literal_and_expr (str : nat) (recurse_lvl : Z)
  : result (Z * nat * option unicode * option unicode * option expr_ty) :=
  (* Get any literal string. *)
  do (result, str, literal) <-
    fstring_find_literal buf end_ raw recurse_lvl t str;
  if (result =? 1)%Z then
    (* We have a literal, but don't look at the expression. *)
    Ok (1%Z, str, literal, None, None)
  else if (end_ <=? str) || (peek buf str =? RBRACE)%char then
    (* We're at the end of the string or the end of a nested f-string:
       no expression. *)
    Ok (0%Z, str, literal, None, None)
  else
    (* We must now be the start of an expression, on a '{'. *)
    do (str, expr_text, expression) <- fstring_find_expr str recurse_lvl;
    Ok (0%Z, str, literal, expr_text, Some expression).

End FindExpr.

(** *** The f-string assembler *)

(** [ExprList] is the list of its elements, [last_str] an optional text. *)
Record FstringParser : Type := {
  last_str : option unicode;
  fs_fmode : bool;
  expr_list : list expr_ty
}.

Definition ExprList_Append (l : list expr_ty) (exp : expr_ty)
  : list expr_ty := l ++ [exp].

Definition _Mys_PyPegen_FstringParser_Init : FstringParser :=
  {| last_str := None; fs_fmode := false; expr_list := [] |}.

(** Make a Constant node.  The node, and [*str] is set to [NULL] by the
    callers' updates of the state. *)
Definition make_str_node_and_del (s : unicode)
    (first_token last_token : Token) : expr_ty :=
  let the_str := bytes first_token in
  let kind :=
    if (peek the_str 0 =? "u")%char then Some "u"%string else None in
  Constant (PyUnicode s) kind (span_of first_token last_token).

(** Add a non-f-string (that is, a regular literal string). *)
Definition _Mys_PyPegen_FstringParser_ConcatAndDel (state : FstringParser)
    (s : unicode) : FstringParser :=
  if List.length s =? 0 then state
  else
    {| last_str :=
         match last_str state with
         | None => Some s
         | Some prev => Some (prev ++ s)
         end;
       fs_fmode := fs_fmode state;
       expr_list := expr_list state |}.

Definition concat_opt (state : FstringParser) (s : option unicode)
  : FstringParser :=
  match s with
  | Some s => _Mys_PyPegen_FstringParser_ConcatAndDel state s
  | None => state
  end.

Section Concat.

Variables (p : Parser) (buf : cstring) (end_ : nat) (raw : bool)
          (recurse_lvl : Z) (first_token t last_token : Token).
Variable parse_spec : nat -> Z -> result (expr_ty * nat).

(** The [while (1)] of [_Mys_PyPegen_FstringParser_ConcatFstring]: the
    state and [*str] when it is left. *)
Fixpoint concat_loop (fuel : nat) (state : FstringParser) (str : nat)
  : result (FstringParser * nat) :=
  match fuel with
  | 0 => Err OutOfFuel
  | S fuel' =>
      do (result, str, literal, expr_text, expression) <-
        fstring_find_literal_and_expr p buf end_ raw first_token t
          last_token parse_spec str recurse_lvl;
      (* Add the literal, if any. *)
      let state := concat_opt state literal in
      (* Add the expr_text, if any. *)
      let state := concat_opt state expr_text in
      if (result =? 1)%Z then concat_loop fuel' state str
      else
        match expression with
        | None =>
            (* We're done with this f-string. *)
            Ok (state, str)
        | Some expression =>
            (* We know we have an expression. Convert any existing string
               to a Constant node. *)
            let l :=
              match last_str state with
              | None => expr_list state
              | Some s =>
                  ExprList_Append (expr_list state)
                    (make_str_node_and_del s first_token last_token)
              end in
            concat_loop fuel'
              {| last_str := None; fs_fmode := fs_fmode state;
                 expr_list := ExprList_Append l expression |} str
        end
  end.

Definition ConcatFstring_with (state : FstringParser) (str : nat)
  : result (FstringParser * nat) :=
  let state := {| last_str := last_str state; fs_fmode := true;
                  expr_list := expr_list state |} in
  (* Parse the f-string. *)
  do (state, str) <- concat_loop (S (end_ - str)) state str;
  (* If recurse_lvl is zero, then we must be at the end of the
     string. Otherwise, we must be at a right brace. *)
  if (recurse_lvl =? 0)%Z && (str <? end_ - 1) then
    Err (SyntaxError "f-string: unexpected end of string")
  else if negb (recurse_lvl =? 0)%Z && negb (peek buf str =? RBRACE)%char
  then Err (SyntaxError "f-string: expecting '}'")
  else Ok (state, str).

End Concat.

(** Convert the partial state reflected in last_str and expr_list to an
    expr_ty. The expr_ty can be a Constant, or a JoinedStr. *)
Definition _Mys_PyPegen_FstringParser_Finish (state : FstringParser)
    (first_token last_token : Token) : expr_ty :=
  (* If we're just a constant string with no expressions, return that. *)
  if negb (fs_fmode state) then
    let s :=
      match last_str state with
      | None => []     (* Create a zero length string. *)
      | Some s => s
      end in
    make_str_node_and_del s first_token last_token
  else
    (* Create a Constant node out of last_str, if needed. It will be the
       last node in our expression list. *)
    let seq :=
      match last_str state with
      | Some s =>
          ExprList_Append (expr_list state)
            (make_str_node_and_del s first_token last_token)
      | None => expr_list state
      end in
    JoinedStr seq (span_of first_token last_token).

(** [fstring_parse], with [depth] levels of format specs below it. *)
Fixpoint fstring_parse_rec (depth : nat) (p : Parser) (buf : cstring)
    (end_ : nat) (raw : bool) (first_token t last_token : Token)
    (str : nat) (recurse_lvl : Z) : result (expr_ty * nat) :=
  match depth with
  | 0 => Err OutOfFuel
  | S depth' =>
      do (state, str) <-
        ConcatFstring_with p buf end_ raw recurse_lvl first_token t
          last_token
          (fstring_parse_rec depth' p buf end_ raw first_token t last_token)
          _Mys_PyPegen_FstringParser_Init str;
      Ok (_Mys_PyPegen_FstringParser_Finish state t t, str)
  end.

(** The levels of format specs that [fstring_find_expr] allows below
    [recurse_lvl]: it refuses to start at level 2. *)
Definition levels_below (recurse_lvl : Z) : nat := Z.to_nat (2 - recurse_lvl).

Definition fstring_parse (p : Parser) (buf : cstring) (end_ : nat)
    (raw : bool) (first_token t last_token : Token) (str : nat)
    (recurse_lvl : Z) : result (expr_ty * nat) :=
  fstring_parse_rec (S (levels_below recurse_lvl)) p buf end_ raw
    first_token t last_token str recurse_lvl.

(** Parse an f-string. The f-string is in [str] to [end_] of [buf], with
    no 'f' or quotes.  The new state and the new cursor. *)
Definition _Mys_PyPegen_FstringParser_ConcatFstring (p : Parser)
    (state : FstringParser) (buf : cstring) (str end_ : nat) (raw : bool)
    (recurse_lvl : Z) (first_token t last_token : Token)
  : result (FstringParser * nat) :=
  ConcatFstring_with p buf end_ raw recurse_lvl first_token t last_token
    (fstring_parse_rec (levels_below recurse_lvl) p buf end_ raw
       first_token t last_token)
    state str.

End StringParser.

(** * A reference runtime

    Decoders that follow the documented behaviour of the CPython routines
    and refuse a negative size, an allocator that refuses a negative size
    only, an expression parser that accepts every text and returns it,
    and a warning filter that lets every warning pass. *)

Module Ref.

Definition is_cont (c : ascii) : bool :=
  let n := N_of_ascii c in ((128 <=? n) && (n <? 192))%N.

Definition cont_bits (c : ascii) : N := (N_of_ascii c mod 64)%N.

(** UTF-8, strict: no overlong forms, no surrogates, nothing above
    U+10FFFF. *)
Fixpoint DecodeUTF8 (s : cstring) : option unicode :=
  match s with
  | [] => Some []
  | b0 :: s1 =>
      let n0 := N_of_ascii b0 in
      if (n0 <? 128)%N then option_map (cons n0) (DecodeUTF8 s1)
      else if (n0 <? 194)%N then None
      else if (n0 <? 224)%N then
        match s1 with
        | b1 :: s2 =>
            if is_cont b1 then
              option_map (cons ((n0 - 192) * 64 + cont_bits b1)%N)
                (DecodeUTF8 s2)
            else None
        | _ => None
        end
      else if (n0 <? 240)%N then
        match s1 with
        | b1 :: b2 :: s3 =>
            let cp :=
              ((n0 - 224) * 4096 + cont_bits b1 * 64 + cont_bits b2)%N in
            if is_cont b1 && is_cont b2 && (2048 <=? cp)%N
               && negb ((55296 <=? cp) && (cp <? 57344))%N
            then option_map (cons cp) (DecodeUTF8 s3)
            else None
        | _ => None
        end
      else
        match s1 with
        | b1 :: b2 :: b3 :: s4 =>
            let cp :=
              ((n0 - 240) * 262144 + cont_bits b1 * 4096
               + cont_bits b2 * 64 + cont_bits b3)%N in
            if is_cont b1 && is_cont b2 && is_cont b3
               && (65536 <=? cp)%N && (cp <? 1114112)%N
            then option_map (cons cp) (DecodeUTF8 s4)
            else None
        | _ => None
        end
  end.

Definition hex_val (c : ascii) : option N :=
  let n := N_of_ascii c in
  if ((48 <=? n) && (n <=? 57))%N then Some (n - 48)%N
  else if ((97 <=? n) && (n <=? 102))%N then Some (n - 87)%N
  else if ((65 <=? n) && (n <=? 70))%N then Some (n - 55)%N
  else None.

(** The value of the [k] hexadecimal digits at the front of [s], after
    [acc], and what follows them. *)
Fixpoint parse_hex (k : nat) (acc : N) (s : cstring)
  : option (N * cstring) :=
  match k with
  | 0 => Some (acc, s)
  | S k' =>
      match s with
      | c :: s' =>
          match hex_val c with
          | Some d => parse_hex k' (acc * 16 + d)%N s'
          | None => None
          end
      | [] => None
      end
  end.

Definition simple_escape (c : ascii) : option N :=
  if (c =? BACKSLASH)%char then Some 92%N
  else if (c =? SQUOTE)%char then Some 39%N
  else if (c =? DQUOTE)%char then Some 34%N
  else if (c =? "a")%char then Some 7%N
  else if (c =? "b")%char then Some 8%N
  else if (c =? "f")%char then Some 12%N
  else if (c =? "n")%char then Some 10%N
  else if (c =? "r")%char then Some 13%N
  else if (c =? "t")%char then Some 9%N
  else if (c =? "v")%char then Some 11%N
  else None.

Definition oct_val (c : ascii) : option N :=
  let n := N_of_ascii c in
  if ((48 <=? n) && (n <=? 55))%N then Some (n - 48)%N else None.

(** The value of at most [k] octal digits at the front of [s], after
    [acc], and what follows them. *)
Fixpoint parse_oct (k : nat) (acc : N) (s : cstring) : N * cstring :=
  match k, s with
  | S k', c :: s' =>
      match oct_val c with
      | Some d => parse_oct k' (acc * 8 + d)%N s'
      | None => (acc, s)
      end
  | _, _ => (acc, s)
  end.

(** The escape codecs: the unicode-escape codec, and with [bytes_mode]
    the codec of bytes literals, whose values are bytes and which knows
    no [\u], [\U] and [\N] escapes.  The table of character names is
    left out: a [\N] escape of text is refused. *)
Fixpoint unescape (bytes_mode : bool) (fuel : nat) (s : cstring)
  : option unicode :=
  match fuel with
  | 0 => match s with [] => Some [] | _ => None end
  | S fuel' =>
      match s with
      | [] => Some []
      | c :: s1 =>
          if (c =? BACKSLASH)%char then
            match s1 with
            | [] => None
            | e :: s2 =>
                let hex (k : nat) :=
                  match parse_hex k 0%N s2 with
                  | Some (cp, rest) =>
                      if (cp <? 1114112)%N
                      then option_map (cons cp)
                             (unescape bytes_mode fuel' rest)
                      else None
                  | None => None
                  end in
                if negb bytes_mode && (e =? "U")%char then hex 8
                else if negb bytes_mode && (e =? "u")%char then hex 4
                else if (e =? "x")%char then hex 2
                else if negb bytes_mode && (e =? "N")%char then None
                else if (e =? NEWLINE)%char
                then unescape bytes_mode fuel' s2
                else
                  match oct_val e with
                  | Some d =>
                      let '(v, rest) := parse_oct 2 d s2 in
                      option_map
                        (cons (if bytes_mode then v mod 256 else v)%N)
                        (unescape bytes_mode fuel' rest)
                  | None =>
                      match simple_escape e with
                      | Some cp =>
                          option_map (cons cp)
                            (unescape bytes_mode fuel' s2)
                      | None =>
                          option_map (fun u => 92%N :: N_of_ascii e :: u)
                            (unescape bytes_mode fuel' s2)
                      end
                  end
            end
          else
            option_map (cons (N_of_ascii c)) (unescape bytes_mode fuel' s1)
      end
  end.

Definition DecodeUnicodeEscape (s : cstring) : option unicode :=
  unescape false (List.length s) s.

Definition DecodeEscape (s : cstring) : option cstring :=
  option_map (map ascii_of_N) (unescape true (List.length s) s).

(** Memory never runs out; a negative size is refused. *)
Definition FromStringAndSize (size : Z) : bool := (0 <=? size)%Z.

End Ref.

(** A 64-bit platform (LP64). *)
Definition lp64 : Runtime :=
  {| SIZE_MAX := 18446744073709551615;
     INT_MAX := 2147483647;
     MAXLEVEL := 200;
     PyUnicode_DecodeUTF8 := Ref.DecodeUTF8;
     PyUnicode_DecodeUnicodeEscape := Ref.DecodeUnicodeEscape;
     PyBytes_DecodeEscape := Ref.DecodeEscape;
     PyBytes_FromStringAndSize := Ref.FromStringAndSize;
     PyUnicode_DecodeUTF8_negative := fun _ _ _ => None;
     PyBytes_DecodeEscape_negative := fun _ _ _ => None;
     PyErr_WarnExplicitObject := fun _ _ => WarnOk;
     ext_expr := cstring;
     run_parser := fun text _ _ _ _ => Some text |}.

(** A 32-bit platform (ILP32). *)
Definition ilp32 : Runtime :=
  {| SIZE_MAX := 4294967295;
     INT_MAX := 2147483647;
     MAXLEVEL := 200;
     PyUnicode_DecodeUTF8 := Ref.DecodeUTF8;
     PyUnicode_DecodeUnicodeEscape := Ref.DecodeUnicodeEscape;
     PyBytes_DecodeEscape := Ref.DecodeEscape;
     PyBytes_FromStringAndSize := Ref.FromStringAndSize;
     PyUnicode_DecodeUTF8_negative := fun _ _ _ => None;
     PyBytes_DecodeEscape_negative := fun _ _ _ => None;
     PyErr_WarnExplicitObject := fun _ _ => WarnOk;
     ext_expr := cstring;
     run_parser := fun text _ _ _ _ => Some text |}.

(** A token on line 1, column 0, with the given text. *)
Definition token (text : cstring) : Token :=
  {| bytes := text; lineno := 1; col_offset := 0; end_lineno := 1;
     end_col_offset := Z.of_nat (List.length text) |}.

(** [prefix"body"] *)
Definition quoted (prefix body : string) : cstring :=
  str prefix ++ DQUOTE :: str body ++ [DQUOTE].

Definition parser (version : Z) : Parser :=
  {| feature_version := version; flags := 0; tok_first_lineno := 1;
     tok_lineno := 1 |}.

(** What the grammar's action does with an f-string token: [parsestr],
    then [ConcatFstring] on the body, from [fstr] to [fstr + fstrlen],
    and [Finish]. *)
Definition parse_fstring_token `{Runtime} (p : Parser) (t : Token)
  : result expr_ty :=
  do out <- _Mys_PyPegen_parsestr p t;
  match o_fstr out with
  | Some (fstr, fstrlen) =>
      do (state, _) <-
        _Mys_PyPegen_FstringParser_ConcatFstring p
          _Mys_PyPegen_FstringParser_Init (bytes t) fstr
          (Z.to_nat (Z.of_nat fstr + fstrlen))
          (rawmode (o_flags out)) 0 t t t;
      Ok (_Mys_PyPegen_FstringParser_Finish state t t)
  | None => Err BadInternalCall
  end.

(** * Notions of the specification *)

(** The code points of ASCII text. *)
Definition codes (s : cstring) : unicode := map N_of_ascii s.

(** What the parser's fast paths rely on: how the runtime's decoders treat
    ASCII text, text without a backslash and the escapes that
    [decode_unicode_with_escapes] writes, and that the runtime refuses a
    negative size. *)
Class RuntimeLaws (RT : Runtime) : Prop := {
  utf8_nil : PyUnicode_DecodeUTF8 [] = Some [];
  (** an ASCII byte is one character *)
  utf8_ascii : forall c s,
    high_bit c = false ->
    PyUnicode_DecodeUTF8 (c :: s)
    = option_map (cons (N_of_ascii c)) (PyUnicode_DecodeUTF8 s);
  (** no character lies across the end of a run of non-ASCII bytes *)
  utf8_run : forall run rest,
    forallb high_bit run = true ->
    match rest with [] => True | c :: _ => high_bit c = false end ->
    PyUnicode_DecodeUTF8 (run ++ rest)
    = match PyUnicode_DecodeUTF8 run, PyUnicode_DecodeUTF8 rest with
      | Some a, Some b => Some (a ++ b)
      | _, _ => None
      end;
  utf8_range : forall s u,
    PyUnicode_DecodeUTF8 s = Some u ->
    Forall (fun cp => (cp < 1114112)%N) u;
  escape_nil : PyUnicode_DecodeUnicodeEscape [] = Some [];
  (** an ASCII byte other than the backslash stands for itself *)
  escape_plain : forall c s,
    high_bit c = false -> c <> BACKSLASH ->
    PyUnicode_DecodeUnicodeEscape (c :: s)
    = option_map (cons (N_of_ascii c)) (PyUnicode_DecodeUnicodeEscape s);
  (** a [\U] escape of eight digits stands for its character *)
  escape_U : forall cp s,
    (cp < 1114112)%N ->
    PyUnicode_DecodeUnicodeEscape (sprintf_U cp ++ s)
    = option_map (cons cp) (PyUnicode_DecodeUnicodeEscape s);
  (** bytes without a backslash stand for themselves *)
  bytes_plain : forall s,
    ~ In BACKSLASH s -> PyBytes_DecodeEscape s = Some s;
  (** a negative size is refused *)
  alloc_negative : forall size,
    (size < 0)%Z -> PyBytes_FromStringAndSize size = false;
  utf8_negative : forall buf s size,
    (size < 0)%Z -> PyUnicode_DecodeUTF8_negative buf s size = None
}.

(** The shifts of the hexadecimal digits of a number of [n] digits, first
    digit first. *)
Fixpoint digit_shifts (n : nat) : list N :=
  match n with
  | 0 => []
  | S m => (4 * N.of_nat m)%N :: digit_shifts m
  end.

(** A run of literal text that the literal scanner walks through: bytes
    other than braces (and other than a backslash unless [raw]), and, when
    not [raw], a backslash with the byte after it, or a whole
    [\N{...}]. *)
Inductive literal_run (raw : bool) : cstring -> Prop :=
| run_nil : literal_run raw []
| run_byte c l :
    c <> LBRACE -> c <> RBRACE -> (raw = true \/ c <> BACKSLASH) ->
    literal_run raw l -> literal_run raw (c :: l)
| run_escape c l :
    raw = false -> c <> "N"%char -> c <> LBRACE -> c <> RBRACE ->
    literal_run raw l -> literal_run raw (BACKSLASH :: c :: l)
| run_name name l :
    raw = false -> ~ In RBRACE name ->
    literal_run raw l ->
    literal_run raw (BACKSLASH :: "N"%char :: LBRACE :: name ++ RBRACE :: l).

(** The literal that is returned for a run [pre] that decodes to [v]. *)
Definition run_literal (pre : cstring) (v : unicode) : option unicode :=
  match pre with [] => None | _ :: _ => Some v end.

(** The scanner of [fstring_find_expr] gets from one turn of its loop to
    another. *)
Inductive scan_reaches `{Runtime} (buf : cstring) (end_ : nat)
  : ExprScan -> ExprScan -> Prop :=
| reaches_here st : scan_reaches buf end_ st st
| reaches_next st st' st'' :
    cursor st < end_ ->
    expr_step buf end_ st = Next st' ->
    scan_reaches buf end_ (advance st') st'' ->
    scan_reaches buf end_ st st''.

(** Outside strings and brackets: *)
Definition top_level (st : ExprScan) : Prop :=
  quote_char st = NUL /\ parenstack st = [].

Definition is_terminator (ch : ascii) : Prop :=
  ch = "!"%char \/ ch = ":"%char \/ ch = RBRACE \/ ch = "="%char.

(** [ch] and the byte after it make one of [!=], [==], [<=], [>=]. *)
Definition two_char_operator (ch next : ascii) : bool :=
  ((ch =? "!")%char || (ch =? "=")%char || (ch =? "<")%char
   || (ch =? ">")%char) && (next =? "=")%char.

Definition is_brace (c : ascii) : bool :=
  (c =? LBRACE)%char || (c =? RBRACE)%char.

(** ASCII text without a backslash in which every brace is doubled: the
    body of an f-string with no expression in it. *)
Inductive doubled_body : cstring -> Prop :=
| body_nil : doubled_body []
| body_byte c l :
    is_brace c = false -> c <> BACKSLASH -> high_bit c = false ->
    doubled_body l -> doubled_body (c :: l)
| body_brace c l :
    is_brace c = true -> doubled_body l -> doubled_body (c :: c :: l).

(** The text with one brace for every doubled brace. *)
Fixpoint undouble (l : cstring) : cstring :=
  match l with
  | [] => []
  | c :: l1 =>
      match l1 with
      | c' :: l2 =>
          if is_brace c && (c =? c')%char then c :: undouble l2
          else c :: undouble l1
      | [] => [c]
      end
  end.

(** [expression_free raw body pieces]: the body of an f-string holds no
    expression.  It is made of runs of literal text and of doubled braces,
    and [pieces] are the literals that the scanner finds in it: every run
    with the first brace of the pair after it, and the last run when it is
    not empty.  Together the pieces are the body with one brace for every
    doubled brace. *)
Inductive expression_free (raw : bool) : cstring -> list cstring -> Prop :=
| free_end run :
    literal_run raw run ->
    expression_free raw run (match run with [] => [] | _ :: _ => [run] end)
| free_brace run ch rest pieces :
    literal_run raw run -> ch = LBRACE \/ ch = RBRACE ->
    expression_free raw rest pieces ->
    expression_free raw (run ++ ch :: ch :: rest) ((run ++ [ch]) :: pieces).

(** The [texts] are what the [pieces] decode to. *)
Definition decoded `{Runtime} (raw : bool) (pieces : list cstring)
    (texts : list unicode) : Prop :=
  Forall2 (fun piece text => decode_literal raw piece = Ok text) pieces texts.

(** [last_str] after a text is added to it. *)
Definition append_text (prev : option unicode) (s : unicode)
  : option unicode :=
  match s with
  | [] => prev
  | _ :: _ => Some (match prev with None => s | Some p => p ++ s end)
  end.

Definition with_last_str `{Runtime} (state : FstringParser) (s : option unicode)
  : FstringParser :=
  {| last_str := s; fs_fmode := fs_fmode state;
     expr_list := expr_list state |}.

(** Bytes that are neither braces nor backslashes, in ASCII. *)
Definition plain_byte (c : ascii) : Prop :=
  is_brace c = false /\ c <> BACKSLASH /\ high_bit c = false.

(** The error that [parsestr_strip] reports for a prefix with [f] and [b],
    by the quote character and the feature version. *)
Definition fstring_bytes_error (quote : ascii) (version : Z) : PyErr :=
  if (quote =? SQUOTE)%char
  then SyntaxError "characters cannot have a prefix"
  else if (version <? 6)%Z
  then SyntaxError
         "Format strings are only supported in Python 3.6 and greater"
  else BadInternalCall.

(** A result that is not the bound of the model, with a property of the
    value. *)
Definition within_bounds {A} (P : A -> Prop) (r : result A) : Prop :=
  match r with
  | Ok a => P a
  | Err e => e <> OutOfFuel
  end.

(** The literal scanner moves forward, and past a doubled brace. *)
Definition literal_progress (s : nat) (r : Z * nat * nat) : Prop :=
  let '(status, _, str) := r in (s <= str) /\ (status = 1%Z -> s < str).

(** One round of the assembler moves forward, and strictly when it asks
    for another round. *)
Definition round_progress `{Runtime} (end_ str : nat)
    (r : Z * nat * option unicode * option unicode * option expr_ty)
  : Prop :=
  let '(result, str', _, _, expression) := r in
  str <= str' /\
  (result = 1%Z \/ expression <> None -> str < end_ /\ str < str').

(** * Notions of the further properties *)

(** A text node of a JoinedStr. *)
Definition is_text_node `{Runtime} (e : expr_ty) : bool :=
  match e with
  | Constant (PyUnicode _) _ _ => true
  | _ => false
  end.

(** The values of a JoinedStr in normal form: text nodes and formatted
    values only, no text node is empty and no text node follows another
    ([after_text]: the node before the list is a text node). *)
Fixpoint alternating `{Runtime} (after_text : bool) (l : list expr_ty) : bool :=
  match l with
  | [] => true
  | Constant (PyUnicode u) _ _ :: l' =>
      negb after_text && negb (List.length u =? 0) && alternating true l'
  | FormattedValue _ _ _ _ :: l' => alternating false l'
  | _ :: _ => false
  end.

(** The last node of [l] is a text node ([after_text] when [l] is empty). *)
Definition ends_in_text `{Runtime} (after_text : bool) (l : list expr_ty)
  : bool :=
  fold_left (fun _ e => is_text_node e) l after_text.

(** The state of the assembler between two calls: the nodes so far are in
    normal form and end in a formatted value, and the pending text is not
    empty. *)
Definition state_normal `{Runtime} (state : FstringParser) : Prop :=
  alternating false (expr_list state) = true
  /\ ends_in_text false (expr_list state) = false
  /\ last_str state <> Some [].

Definition is_opening (c : ascii) : bool :=
  (c =? "[")%char || (c =? LBRACE)%char || (c =? "(")%char.

(** The invariants of the [for] of [fstring_find_expr], which the code
    asserts at the head of every turn, and the bound of [parenstack]:
    the cursor is in the range from [expr_start] to [end], the string
    type is 1 or 3 inside a string and 0 outside, at most [MAXLEVEL]
    brackets are open and they are opening brackets. *)
Definition scan_invariant `{Runtime} (expr_start end_ : nat) (st : ExprScan)
  : Prop :=
  expr_start <= cursor st <= end_
  /\ (if (quote_char st =? NUL)%char then string_type st = 0%Z
      else string_type st = 1%Z \/ string_type st = 3%Z)
  /\ nested_depth st <= MAXLEVEL
  /\ forallb is_opening (parenstack st) = true.

(** The error for an expression that is not closed when the body ends,
    by the variables of the scanner there. *)
Definition unclosed_msg (st : ExprScan) : string :=
  if negb (quote_char st =? NUL)%char then "f-string: unterminated string"
  else
    match parenstack st with
    | opening :: _ => unmatched_msg opening
    | [] => "f-string: expecting '}'"
    end.


(** The error for a closing bracket, by the open brackets. *)
Definition closing_msg (ch : ascii) (ps : list ascii) : string :=
  match ps with
  | [] => unmatched_msg ch
  | opening :: _ => mismatch_msg ch opening
  end.

(** The closing bracket [ch] does not close the innermost open bracket. *)
Definition closes_nothing (ch : ascii) (ps : list ascii) : Prop :=
  match ps with
  | [] => ch = ")"%char \/ ch = "]"%char
  | opening :: _ =>
      (ch = ")"%char \/ ch = "]"%char \/ ch = RBRACE)
      /\ brackets_match opening ch = false
  end.

(** A platform whose tokenizer allows two levels of brackets. *)
Definition two_levels : Runtime :=
  {| SIZE_MAX := 18446744073709551615;
     INT_MAX := 2147483647;
     MAXLEVEL := 2;
     PyUnicode_DecodeUTF8 := Ref.DecodeUTF8;
     PyUnicode_DecodeUnicodeEscape := Ref.DecodeUnicodeEscape;
     PyBytes_DecodeEscape := Ref.DecodeEscape;
     PyBytes_FromStringAndSize := Ref.FromStringAndSize;
     PyUnicode_DecodeUTF8_negative := fun _ _ _ => None;
     PyBytes_DecodeEscape_negative := fun _ _ _ => None;
     PyErr_WarnExplicitObject := fun _ _ => WarnOk;
     ext_expr := cstring;
     run_parser := fun text _ _ _ _ => Some text |}.

(** The Constant node that the assembler makes of the literal [pre] that
    decodes to [v], if any: none for no literal, and none for an empty
    text. *)
Definition text_node `{Runtime} (pre : cstring) (v : unicode)
    (first_token last_token : Token) : list expr_ty :=
  match pre, v with
  | _ :: _, _ :: _ => [make_str_node_and_del v first_token last_token]
  | _, _ => []
  end.

(** A UTF-8 decoder makes at most one character of two bytes that have
    the high bit set. *)
Definition two_bytes_per_char (decode : cstring -> option unicode) : Prop :=
  forall run w,
    forallb high_bit run = true ->
    decode run = Some w ->
    2 * List.length w <= List.length run.

(** The lower-case letter of an upper-case ASCII letter. *)
Definition to_lower (c : ascii) : ascii :=
  let n := nat_of_ascii c in
  if (65 <=? n) && (n <=? 90) then ascii_of_nat (n + 32) else c.

(** ** ExprList in memory

    [ExprList] as the code has it: the numbers [allocated] and [size],
    the pointer [p] and the array [data] of [EXPRLIST_N_CACHED] slots.
    A slot that was never written is [None]; [p] is [NULL], [data] or a
    block of the heap.  A result [None] is undefined behaviour: a slot
    beyond a block is read or written, or [NULL] is written through.
    [PyMem_Malloc], [PyMem_Realloc] and [_Mys_Py_asdl_expr_seq_new]
    succeed when [alloc_ok] is true. *)
Module Mem.

Section ExprListMem.

Context {RT : Runtime}.
Variable EXPRLIST_N_CACHED : nat.

Definition block : Type := list (option expr_ty).

Inductive pointer : Type :=
| Null
| Data
| Heap (b : block).

Record ExprList : Type := {
  allocated : Z;
  size : Z;
  p : pointer;
  data : block
}.

(** [b[i] = exp] *)
Definition store (b : block) (i : Z) (exp : expr_ty) : option block :=
  if (0 <=? i)%Z && (i <? Z.of_nat (List.length b))%Z
  then Some (firstn (Z.to_nat i) b ++ Some exp :: skipn (S (Z.to_nat i)) b)
  else None.

(** The first [n] slots of [b]. *)
Definition load (b : block) (n : Z) : option block :=
  if (n <=? Z.of_nat (List.length b))%Z then Some (firstn (Z.to_nat n) b)
  else None.

(** A block of [n] slots that starts with the slots [old]. *)
Definition grown (old : block) (n : Z) : block :=
  old ++ repeat None (Z.to_nat n - List.length old).

Definition ExprList_check_invariants (l : ExprList) : Prop :=
  (0 <= size l)%Z
  /\ p l <> Null
  /\ ((size l <= Z.of_nat EXPRLIST_N_CACHED)%Z -> p l = Data).

Definition ExprList_Init : ExprList :=
  {| allocated := Z.of_nat EXPRLIST_N_CACHED;
     size := 0;
     (* Until we start allocating dynamically, p points to data. *)
     p := Data;
     data := repeat None EXPRLIST_N_CACHED |}.

Definition set_p (l : ExprList) (q : pointer) : ExprList :=
  {| allocated := allocated l; size := size l; p := q; data := data l |}.

(** The [if (l->size >= l->allocated)] of [ExprList_Append]: the return
    value so far and the list. *)
Definition make_room (alloc_ok : bool) (l : ExprList)
  : option (Z * ExprList) :=
  if (allocated l <=? size l)%Z then
    (* We need to alloc (or realloc) the memory. *)
    let new_size := (allocated l * 2)%Z in
    let moved_to (b : block) :=
      {| allocated := new_size; size := size l; p := Heap b;
         data := data l |} in
    if alloc_ok then
      match p l with
      | Data =>
          (* We're still using the cached data. Switch to alloc-ing.
             Copy the cached data into the new buffer. *)
          match load (data l) (size l) with
          | Some cached =>
              if (size l <=? new_size)%Z
              then Some (0%Z, moved_to (grown cached new_size))
              else None
          | None => None
          end
      | Heap b =>
          (* Just realloc. *)
          Some (0%Z,
                moved_to (grown (firstn (Z.to_nat new_size) b) new_size))
      | Null => Some (0%Z, moved_to (grown [] new_size))
      end
    else Some ((-1)%Z, set_p l Null)
  else Some (0%Z, l).

(** [l->p[l->size++] = exp] *)
Definition push (l : ExprList) (exp : expr_ty) : option ExprList :=
  let next (q : pointer) (d : block) :=
    {| allocated := allocated l; size := (size l + 1)%Z; p := q;
       data := d |} in
  match p l with
  | Data => option_map (next Data) (store (data l) (size l) exp)
  | Heap b =>
      option_map (fun b' => next (Heap b') (data l)) (store b (size l) exp)
  | Null => None
  end.

(** The return value and the list. *)
Definition ExprList_Append (alloc_ok : bool) (l : ExprList) (exp : expr_ty)
  : option (Z * ExprList) :=
  match make_room alloc_ok l with
  | Some (0%Z, l') => option_map (pair 0%Z) (push l' exp)
  | r => r
  end.

Definition ExprList_Dealloc (l : ExprList) : ExprList :=
  {| allocated := allocated l; size := (-1)%Z; p := Null; data := data l |}.

(** The sequence, if it could be allocated, and the list. *)
Definition ExprList_Finish (alloc_ok : bool) (l : ExprList)
  : option (option block * ExprList) :=
  if alloc_ok then
    match p l with
    | Data =>
        option_map (fun seq => (Some seq, ExprList_Dealloc l))
          (load (data l) (size l))
    | Heap b =>
        option_map (fun seq => (Some seq, ExprList_Dealloc l))
          (load b (size l))
    | Null =>
        if (size l <=? 0)%Z then Some (Some [], ExprList_Dealloc l)
        else None
    end
  else Some (None, ExprList_Dealloc l).

(** The nodes [xs] are stored in the list: they are the first [size]
    slots of the block that [p] points to, which has [allocated] slots,
    and a block of the heap is in use only when [data] is full. *)
Definition stored (l : ExprList) (xs : list expr_ty) : Prop :=
  size l = Z.of_nat (List.length xs)
  /\ (size l <= allocated l)%Z
  /\ match p l with
     | Data =>
         allocated l = Z.of_nat EXPRLIST_N_CACHED
         /\ Z.of_nat (List.length (data l)) = allocated l
         /\ firstn (List.length xs) (data l) = map Some xs
     | Heap b =>
         (Z.of_nat EXPRLIST_N_CACHED <= size l)%Z
         /\ Z.of_nat (List.length b) = allocated l
         /\ firstn (List.length xs) b = map Some xs
     | Null => False
     end.

(** The list holds the nodes [xs] between two calls. *)
Definition holds (l : ExprList) (xs : list expr_ty) : Prop :=
  stored l xs /\ ExprList_check_invariants l.

(** The nodes are added one after the other, and every allocation
    succeeds. *)
Fixpoint append_all (l : ExprList) (exps : list expr_ty)
  : option ExprList :=
  match exps with
  | [] => Some l
  | exp :: exps' =>
      match ExprList_Append true l exp with
      | Some (0%Z, l') => append_all l' exps'
      | _ => None
      end
  end.

End ExprListMem.

End Mem.

(** A runtime whose warning filter turns the deprecation warning into
    an error. *)
Definition warnings_as_errors : Runtime :=
  {| SIZE_MAX := 18446744073709551615;
     INT_MAX := 2147483647;
     MAXLEVEL := 200;
     PyUnicode_DecodeUTF8 := Ref.DecodeUTF8;
     PyUnicode_DecodeUnicodeEscape := Ref.DecodeUnicodeEscape;
     PyBytes_DecodeEscape := Ref.DecodeEscape;
     PyBytes_FromStringAndSize := Ref.FromStringAndSize;
     PyUnicode_DecodeUTF8_negative := fun _ _ _ => None;
     PyBytes_DecodeEscape_negative := fun _ _ _ => None;
     PyErr_WarnExplicitObject := fun _ _ => WarnIsDeprecationError;
     ext_expr := cstring;
     run_parser := fun text _ _ _ _ => Some text |}.

(** * The literal scanner *)

Lemma peek_app (l1 l2 : cstring) (k : nat) :
  peek (l1 ++ l2) (List.length l1 + k) = peek l2 k.
Proof. unfold peek. apply app_nth2_plus. Qed.

Lemma peek_app0 (l1 l2 : cstring) :
  peek (l1 ++ l2) (List.length l1) = peek l2 0.
Proof. rewrite <- (Nat.add_0_r (List.length l1)) at 1. apply peek_app. Qed.

Lemma eqb_false (a b : ascii) : a <> b -> (a =? b)%char = false.
Proof. apply Ascii.eqb_neq. Qed.

Lemma skip_name_spec (name before after : cstring) (end_ fuel : nat) :
  ~ In RBRACE name ->
  List.length before + List.length name < end_ ->
  List.length name < fuel ->
  skip_name fuel (before ++ name ++ RBRACE :: after) end_ (List.length before)
  = S (List.length before + List.length name).
Proof.
  revert before fuel.
  induction name as [|c name IH]; intros before fuel Hin Hend Hfuel.
  - destruct fuel as [|fuel]; [simpl in Hfuel; lia|].
    simpl in *. rewrite Nat.add_0_r in *.
    apply Nat.ltb_lt in Hend. rewrite Hend.
    rewrite peek_app0. simpl. reflexivity.
  - destruct fuel as [|fuel]; [simpl in Hfuel; lia|].
    simpl in Hend, Hfuel. cbn [skip_name].
    assert (Hlt : (List.length before <? end_) = true)
      by (apply Nat.ltb_lt; lia).
    rewrite Hlt, peek_app0. cbn [app peek nth].
    rewrite eqb_false by (intros ->; apply Hin; left; reflexivity).
    specialize (IH (before ++ [c]) fuel).
    rewrite <- app_assoc in IH. cbn [app] in IH.
    rewrite length_app in IH. cbn [List.length] in IH.
    replace (S (List.length before)) with (List.length before + 1) by lia.
    rewrite IH; [simpl; lia| | lia | lia].
    intros H; apply Hin; right; exact H.
Qed.

Section LiteralProofs.

Context {RT : Runtime}.
Variables (end_ : nat) (raw : bool) (recurse_lvl : Z) (t : Token).

(** The scanner walks through a literal run: started at its first byte
    with fuel for the run and [n] more turns, it gets to the byte after
    the run with at least [n] turns left. *)
Lemma literal_loop_run (pre : cstring) :
  literal_run raw pre ->
  forall (before after : cstring) (n : nat),
    List.length before + List.length pre <= end_ ->
    exists j,
      literal_loop (before ++ pre ++ after) end_ raw recurse_lvl t
        (n + List.length pre) (List.length before)
      = literal_loop (before ++ pre ++ after) end_ raw recurse_lvl t
          (n + j) (List.length before + List.length pre).
Proof.
  induction 1 as [|c l Hl Hr Hb Hrun IH|c l Hraw HN Hl Hr Hrun IH
                  |name l Hraw Hname Hrun IH];
    intros before after n Hend; cbn [app].
  - exists 0. cbn [List.length]. rewrite !Nat.add_0_r. reflexivity.
  - cbn [List.length] in *.
    destruct (IH (before ++ [c]) after n) as [j Hj].
    { rewrite length_app. cbn [List.length]. lia. }
    exists j. rewrite <- app_assoc in Hj. cbn [app] in Hj.
    rewrite length_app in Hj. cbn [List.length] in Hj.
    replace (List.length before + 1 + List.length l)
      with (List.length before + S (List.length l)) in Hj by lia.
    rewrite <- Hj. rewrite Nat.add_succ_r. cbn [literal_loop].
    assert (Hlt : (List.length before <? end_) = true)
      by (apply Nat.ltb_lt; lia).
    rewrite Hlt, peek_app0. cbn [app peek nth].
    assert (Hesc : negb raw && (c =? BACKSLASH)%char = false).
    { destruct Hb as [-> | Hb]; [reflexivity|].
      rewrite (eqb_false Hb). apply andb_false_r. }
    rewrite Hesc. cbn [andb].
    rewrite (eqb_false Hl), (eqb_false Hr). cbn [orb].
    replace (List.length before + 1) with (S (List.length before)) by lia.
    reflexivity.
  - cbn [List.length] in *. subst raw.
    destruct (IH (before ++ [BACKSLASH; c]) after (S n)) as [j Hj].
    { rewrite length_app. cbn [List.length]. lia. }
    exists (S j). rewrite <- app_assoc in Hj. cbn [app] in Hj.
    rewrite length_app in Hj. cbn [List.length] in Hj.
    replace (List.length before + 2 + List.length l)
      with (List.length before + S (S (List.length l))) in Hj by lia.
    replace (n + S j) with (S n + j) by lia. rewrite <- Hj.
    replace (n + S (S (List.length l))) with (S (S n + List.length l))
      by lia.
    cbn [literal_loop].
    assert (Hlt : (List.length before <? end_) = true)
      by (apply Nat.ltb_lt; lia).
    assert (Hlt1 : (S (List.length before) <? end_) = true)
      by (apply Nat.ltb_lt; lia).
    rewrite Hlt, Hlt1, peek_app0. cbn [app peek nth negb andb].
    rewrite Ascii.eqb_refl. cbn [andb].
    replace (S (List.length before)) with (List.length before + 1) by lia.
    rewrite peek_app. cbn [peek nth].
    rewrite (eqb_false HN), (eqb_false Hl), (eqb_false Hr). cbn [orb].
    replace (S (List.length before + 1)) with (List.length before + 2)
      by lia.
    reflexivity.
  - subst raw.
    assert (Hlen : List.length (BACKSLASH :: "N"%char :: LBRACE
                                  :: name ++ RBRACE :: l)
                   = 4 + List.length name + List.length l).
    { cbn [List.length]. rewrite length_app. cbn [List.length]. lia. }
    rewrite Hlen in *.
    destruct (IH (before ++ BACKSLASH :: "N"%char :: LBRACE
                           :: name ++ [RBRACE]) after
                (n + 3 + List.length name)) as [j Hj].
    { rewrite length_app. cbn [List.length]. rewrite length_app.
      cbn [List.length]. lia. }
    exists (j + 3 + List.length name).
    assert (Hbuf :
      (before ++ BACKSLASH :: "N"%char :: LBRACE :: name ++ [RBRACE])
        ++ l ++ after
      = before ++ (BACKSLASH :: "N"%char :: LBRACE :: name ++ RBRACE :: l)
          ++ after).
    { rewrite <- !app_assoc. cbn [app]. rewrite <- !app_assoc. reflexivity. }
    rewrite Hbuf in Hj. cbn [app] in Hj.
    assert (Hpos :
      List.length (before ++ BACKSLASH :: "N"%char :: LBRACE
                            :: name ++ [RBRACE])
      = List.length before + 4 + List.length name).
    { rewrite length_app. cbn [List.length]. rewrite length_app.
      cbn [List.length]. lia. }
    rewrite Hpos in Hj.
    replace (List.length before + (4 + List.length name + List.length l))
      with (List.length before + 4 + List.length name + List.length l)
      by lia.
    replace (n + (j + 3 + List.length name))
      with (n + 3 + List.length name + j) by lia.
    rewrite <- Hj.
    replace (n + (4 + List.length name + List.length l))
      with (S (n + 3 + List.length name + List.length l)) by lia.
    cbn [literal_loop].
    assert (Hlt : (List.length before <? end_) = true)
      by (apply Nat.ltb_lt; lia).
    assert (Hlt1 : (S (List.length before) <? end_) = true)
      by (apply Nat.ltb_lt; lia).
    assert (Hlt2 : (S (S (List.length before)) <? end_) = true)
      by (apply Nat.ltb_lt; lia).
    rewrite Hlt, Hlt1, Hlt2, peek_app0. cbn [app peek nth negb andb].
    rewrite Ascii.eqb_refl. cbn [andb].
    replace (S (List.length before)) with (List.length before + 1) by lia.
    rewrite peek_app. cbn [peek nth].
    replace (S (List.length before + 1)) with (List.length before + 2)
      by lia.
    rewrite peek_app. cbn [peek nth].
    change (("N" =? "N")%char) with true. cbn iota.
    change (("{" =? "{")%char) with true. cbn iota.
    f_equal.
    pose proof (@skip_name_spec name
                  (before ++ [BACKSLASH; "N"%char; LBRACE]) (l ++ after)
                  end_ end_ Hname) as Hs.
    rewrite <- app_assoc in Hs. cbn [app] in Hs.
    rewrite length_app in Hs. cbn [List.length] in Hs.
    replace (S (List.length before + 2)) with (List.length before + 3)
      by lia.
    rewrite <- app_assoc. cbn [app].
    rewrite Hs by lia. lia.
Qed.

End LiteralProofs.

Lemma slice_app (before l after : cstring) :
  slice (before ++ l ++ after) (List.length before) (List.length l) = l.
Proof.
  unfold slice. rewrite skipn_app, Nat.sub_diag, skipn_all. cbn [skipn app].
  rewrite firstn_app, Nat.sub_diag, firstn_all. cbn [firstn].
  apply app_nil_r.
Qed.

Section LiteralTheorems.

Context {RT : Runtime}.
Variables (end_ : nat) (raw : bool) (t : Token).

(** The turn of the scanner on a brace (reached with fuel left), at
    recursion level 0, when the same brace follows. *)
Lemma literal_loop_doubled (fuel : nat) (before after : cstring)
    (ch : ascii) :
  ch = LBRACE \/ ch = RBRACE ->
  S (List.length before) < end_ ->
  literal_loop (before ++ ch :: ch :: after) end_ raw 0 t (S fuel)
    (List.length before)
  = Ok (1%Z, S (List.length before), S (S (List.length before))).
Proof.
  intros Hch Hend. cbn [literal_loop].
  assert (Hlt : (List.length before <? end_) = true)
    by (apply Nat.ltb_lt; lia).
  assert (Hlt1 : (S (List.length before) <? end_) = true)
    by (apply Nat.ltb_lt; lia).
  rewrite Hlt, Hlt1, peek_app0. cbn [peek nth].
  replace (S (List.length before)) with (List.length before + 1) by lia.
  rewrite peek_app. cbn [peek nth].
  destruct Hch as [-> | ->]; destruct raw; reflexivity.
Qed.


(** The turn of the scanner on a brace below the top level. *)
Lemma literal_loop_nested (fuel : nat) (before after : cstring)
    (ch : ascii) (recurse_lvl : Z) :
  ch = LBRACE \/ ch = RBRACE ->
  recurse_lvl <> 0%Z ->
  List.length before < end_ ->
  literal_loop (before ++ ch :: after) end_ raw recurse_lvl t (S fuel)
    (List.length before)
  = Ok (0%Z, List.length before, List.length before).
Proof.
  intros Hch Hlvl Hend. cbn [literal_loop].
  assert (Hlt : (List.length before <? end_) = true)
    by (apply Nat.ltb_lt; lia).
  rewrite Hlt, peek_app0. cbn [peek nth].
  apply Z.eqb_neq in Hlvl. rewrite Hlvl.
  replace (S (List.length before) - 1) with (List.length before) by lia.
  destruct Hch as [-> | ->]; destruct raw; reflexivity.
Qed.

End LiteralTheorems.

Section FindLiteral.

Context {RT : Runtime}.
Variables (before pre after : cstring) (end_ : nat) (raw : bool)
          (t : Token).
Hypothesis Hrun : literal_run raw pre.

(** The loop, started at the run, is the loop at the byte after it. *)
Lemma literal_loop_after_run (recurse_lvl : Z) (rest : cstring) :
  List.length before + List.length pre <= end_ ->
  exists j,
    literal_loop (before ++ pre ++ rest) end_ raw recurse_lvl t
      (S (end_ - List.length before)) (List.length before)
    = literal_loop ((before ++ pre) ++ rest) end_ raw recurse_lvl t
        (S (end_ - List.length before - List.length pre + j))
        (List.length (before ++ pre)).
Proof.
  intros Hend.
  destruct (literal_loop_run (end_ := end_) recurse_lvl t Hrun before rest
              (S (end_ - List.length before) - List.length pre) Hend)
    as [j Hj].
  exists j.
  replace (S (end_ - List.length before) - List.length pre
           + List.length pre)
    with (S (end_ - List.length before)) in Hj by lia.
  rewrite Hj, <- app_assoc, length_app. f_equal. lia.
Qed.


Lemma find_literal_doubled (ch : ascii) (v : unicode) :
  ch = LBRACE \/ ch = RBRACE ->
  S (List.length before + List.length pre) < end_ ->
  decode_literal raw (pre ++ [ch]) = Ok v ->
  fstring_find_literal (before ++ pre ++ ch :: ch :: after) end_ raw 0 t
    (List.length before)
  = Ok (1%Z, List.length before + List.length pre + 2, Some v).
Proof.
  intros Hch Hend Hdec. unfold fstring_find_literal.
  destruct (@literal_loop_after_run 0 (ch :: ch :: after)) as [j ->]; [lia|].
  rewrite literal_loop_doubled by (rewrite ?length_app; auto; lia).
  cbn [bind]. unfold fstring_find_literal_tail.
  assert (Hne : (List.length before
                 =? S (List.length (before ++ pre))) = false)
    by (apply Nat.eqb_neq; rewrite length_app; lia).
  rewrite Hne. cbn [negb].
  replace (S (List.length (before ++ pre)) - List.length before)
    with (List.length (pre ++ [ch]))
    by (rewrite !length_app; cbn [List.length]; lia).
  change (pre ++ ch :: ch :: after) with (pre ++ [ch] ++ ch :: after).
  rewrite (app_assoc pre [ch]), slice_app, Hdec. cbn [bind].
  rewrite length_app. do 3 f_equal. lia.
Qed.

Lemma find_literal_run (recurse_lvl : Z) (rest : cstring) (v : unicode)
    (status : Z) (str : nat) :
  (pre <> [] -> decode_literal raw pre = Ok v) ->
  fstring_find_literal_tail (before ++ pre ++ rest) raw
    (List.length before) (status, List.length (before ++ pre), str)
  = Ok (status, str, run_literal pre v).
Proof.
  intros Hdec. unfold fstring_find_literal_tail, run_literal.
  rewrite length_app. destruct pre as [|c pre'].
  - cbn [List.length]. rewrite Nat.add_0_r, Nat.eqb_refl. reflexivity.
  - assert (Hne : (List.length before
                   =? List.length before + List.length (c :: pre'))
                  = false)
      by (apply Nat.eqb_neq; cbn [List.length]; lia).
    rewrite Hne. cbn [negb].
    replace (List.length before + List.length (c :: pre')
             - List.length before)
      with (List.length (c :: pre')) by lia.
    rewrite slice_app, Hdec by discriminate.
    reflexivity.
Qed.

Lemma find_literal_nested (recurse_lvl : Z) (ch : ascii) (v : unicode) :
  ch = LBRACE \/ ch = RBRACE ->
  recurse_lvl <> 0%Z ->
  List.length before + List.length pre < end_ ->
  (pre <> [] -> decode_literal raw pre = Ok v) ->
  fstring_find_literal (before ++ pre ++ ch :: after) end_ raw
    recurse_lvl t (List.length before)
  = Ok (0%Z, List.length before + List.length pre, run_literal pre v).
Proof.
  intros Hch Hlvl Hend Hdec. unfold fstring_find_literal.
  destruct (@literal_loop_after_run recurse_lvl (ch :: after))
    as [j ->]; [lia|].
  rewrite literal_loop_nested by (rewrite ?length_app; auto; lia).
  cbn [bind].
  rewrite (@find_literal_run recurse_lvl (ch :: after) v) by exact Hdec.
  rewrite length_app. reflexivity.
Qed.

Lemma find_literal_end (recurse_lvl : Z) (v : unicode) :
  end_ = List.length before + List.length pre ->
  (pre <> [] -> decode_literal raw pre = Ok v) ->
  fstring_find_literal (before ++ pre ++ after) end_ raw recurse_lvl t
    (List.length before)
  = Ok (0%Z, end_, run_literal pre v).
Proof.
  intros Hend Hdec. unfold fstring_find_literal.
  destruct (@literal_loop_after_run recurse_lvl after) as [j ->]; [lia|].
  cbn [literal_loop].
  assert (E : (List.length (before ++ pre) <? end_) = false)
    by (apply Nat.ltb_ge; rewrite length_app; lia).
  rewrite E. cbn [bind].
  rewrite (@find_literal_run recurse_lvl after v) by exact Hdec.
  rewrite length_app, Hend. reflexivity.
Qed.

End FindLiteral.





(** * The expression scanner and the expression compiler *)

Section ExprProofs.

Context {RT : Runtime}.
Variables (buf : cstring) (end_ : nat).

Lemma expr_step_cursor (st st' : ExprScan) :
  expr_step buf end_ st = Next st' -> cursor st <= cursor st'.
Proof.
  unfold expr_step.
  repeat match goal with
         | |- context [if ?b then _ else _] => destruct b
         | |- context [match parenstack st with _ => _ end] =>
             destruct (parenstack st)
         end;
    intros E; inversion E; subst; cbn [cursor]; lia.
Qed.

Lemma expr_loop_reaches (st st' : ExprScan) :
  scan_reaches buf end_ st st' ->
  cursor st <= cursor st' /\
  forall fuel, cursor st' - cursor st < fuel ->
    exists fuel',
      fuel - (cursor st' - cursor st) <= fuel' /\
      expr_loop fuel buf end_ st = expr_loop fuel' buf end_ st'.
Proof.
  induction 1 as [st|st st1 st2 Hlt Hstep Hreach [IHle IH]].
  - split; [lia|]. intros fuel _. exists fuel. split; [lia|reflexivity].
  - pose proof (expr_step_cursor _ Hstep) as Hmono.
    cbn [advance cursor] in IHle, IH.
    split; [lia|]. intros fuel Hfuel.
    destruct fuel as [|fuel]; [lia|].
    destruct (IH fuel) as [fuel' [Hle Heq]]; [lia|].
    exists fuel'. split; [lia|].
    cbn [expr_loop]. apply Nat.ltb_lt in Hlt. rewrite Hlt, Hstep.
    exact Heq.
Qed.

Lemma expr_step_backslash (st : ExprScan) :
  peek buf (cursor st) = BACKSLASH ->
  expr_step buf end_ st
  = Fail (SyntaxError "f-string expression part cannot include a backslash").
Proof. intros E. unfold expr_step. rewrite E. reflexivity. Qed.

Lemma expr_loop_backslash (str : nat) (st : ExprScan) :
  scan_reaches buf end_ (scan_start str) st ->
  cursor st < end_ ->
  peek buf (cursor st) = BACKSLASH ->
  expr_loop (S (end_ - str)) buf end_ (scan_start str)
  = Err (SyntaxError "f-string expression part cannot include a backslash").
Proof.
  intros Hreach Hlt Hch.
  destruct (expr_loop_reaches Hreach) as [Hle Hfuel].
  cbn [scan_start cursor] in Hle, Hfuel.
  destruct (Hfuel (S (end_ - str))) as [fuel' [Hge ->]]; [lia|].
  destruct fuel' as [|fuel']; [lia|].
  cbn [expr_loop]. apply Nat.ltb_lt in Hlt.
  rewrite Hlt, expr_step_backslash by exact Hch. reflexivity.
Qed.

End ExprProofs.

(** C9: a backslash that the expression scanner gets to, whatever its
    state there (inside a nested string, inside nested brackets or
    neither), makes [fstring_find_expr] fail with the syntax error
    "f-string expression part cannot include a backslash"; no
    FormattedValue node is made. *)
Theorem backslash_in_expression_is_rejected `{Runtime} (p : Parser)
    (buf : cstring) (end_ : nat) (first_token t last_token : Token)
    (parse_spec : nat -> Z -> result (expr_ty * nat)) (str : nat)
    (recurse_lvl : Z) (st : ExprScan) :
  (recurse_lvl < 2)%Z ->
  scan_reaches buf end_ (scan_start (S str)) st ->
  cursor st < end_ ->
  peek buf (cursor st) = BACKSLASH ->
  syntax_error_containing "cannot include a backslash"
    (fstring_find_expr p buf end_ first_token t last_token parse_spec str
       recurse_lvl).
Proof.
  intros Hlvl Hreach Hlt Hch.
  exists "f-string expression part cannot include a backslash"%string.
  split; [|reflexivity].
  unfold fstring_find_expr.
  apply Z.ltb_lt in Hlvl. rewrite Z.leb_antisym, Hlvl. cbn [negb].
  rewrite (expr_loop_backslash Hreach Hlt Hch). reflexivity.
Qed.

(** A backslash inside a string inside a call. *)
Lemma backslash_in_expression_is_rejected_witness :
  syntax_error_containing "cannot include a backslash"
    (fstring_find_expr (RT := lp64) (parser 8) (quoted "f" "{f('a\')}") 11
       (token (quoted "f" "{f('a\')}")) (token (quoted "f" "{f('a\')}"))
       (token (quoted "f" "{f('a\')}"))
       (fstring_parse (parser 8) (quoted "f" "{f('a\')}") 11 false
          (token (quoted "f" "{f('a\')}")) (token (quoted "f" "{f('a\')}"))
          (token (quoted "f" "{f('a\')}")))
       2 0).
Proof.
  apply (@backslash_in_expression_is_rejected lp64 _ _ _ _ _ _ _ _ _
           {| cursor := 7; quote_char := "'"; string_type := 1;
              parenstack := ["("%char] |}).
  - lia.
  - eapply reaches_next; [cbn; lia | reflexivity |].
    eapply reaches_next; [cbn; lia | reflexivity |].
    eapply reaches_next; [cbn; lia | reflexivity |].
    eapply reaches_next; [cbn; lia | reflexivity |].
    apply reaches_here.
  - cbn; lia.
  - reflexivity.
Defined.

Section StepFacts.

Context {RT : Runtime}.
Variables (buf : cstring) (end_ : nat).

Lemma terminator_breaks (st : ExprScan) :
  top_level st ->
  is_terminator (peek buf (cursor st)) ->
  (cursor st + 1 < end_ ->
   two_char_operator (peek buf (cursor st)) (peek buf (cursor st + 1))
   = false) ->
  expr_step buf end_ st = Break.
Proof.
  intros [Hq Hp] Hch Hnext. unfold expr_step, nested_depth.
  rewrite Hq, Hp. cbn [List.length Nat.eqb negb Ascii.eqb Bool.eqb].
  destruct (cursor st + 1 <? end_) eqn:E.
  - apply Nat.ltb_lt in E. specialize (Hnext E).
    unfold two_char_operator in Hnext.
    destruct Hch as [Hc|[Hc|[Hc|Hc]]]; rewrite Hc in *; cbn in Hnext |- *;
      try rewrite Hnext; reflexivity.
  - destruct Hch as [Hc|[Hc|[Hc|Hc]]]; rewrite Hc; reflexivity.
Qed.

Lemma two_char_operator_continues (st : ExprScan) :
  top_level st ->
  cursor st + 1 < end_ ->
  two_char_operator (peek buf (cursor st)) (peek buf (cursor st + 1)) = true ->
  expr_step buf end_ st
  = Next {| cursor := cursor st + 1; quote_char := quote_char st;
            string_type := string_type st; parenstack := parenstack st |}.
Proof.
  intros [Hq Hp] Hlt Hop. unfold expr_step, nested_depth.
  rewrite Hq, Hp. cbn [List.length Nat.eqb negb Ascii.eqb Bool.eqb].
  apply Nat.ltb_lt in Hlt. rewrite Hlt.
  unfold two_char_operator in Hop.
  apply andb_prop in Hop. destruct Hop as [Hc Hn].
  apply Ascii.eqb_eq in Hn. rewrite Hn.
  repeat (apply orb_prop in Hc; destruct Hc as [Hc|Hc]);
    apply Ascii.eqb_eq in Hc; rewrite Hc; reflexivity.
Qed.

Lemma comparison_continues (st : ExprScan) :
  top_level st ->
  peek buf (cursor st) = "<"%char \/ peek buf (cursor st) = ">"%char ->
  cursor st + 1 < end_ ->
  peek buf (cursor st + 1) <> "="%char ->
  expr_step buf end_ st = Next st.
Proof.
  intros [Hq Hp] Hch Hlt Hn. unfold expr_step, nested_depth.
  rewrite Hq, Hp. cbn [List.length Nat.eqb negb Ascii.eqb Bool.eqb].
  apply Nat.ltb_lt in Hlt. rewrite Hlt.
  apply Ascii.eqb_neq in Hn.
  destruct Hch as [Hc|Hc]; rewrite Hc; cbn; rewrite Hn; reflexivity.
Qed.

Lemma comparison_on_last_byte_breaks (st : ExprScan) :
  top_level st ->
  peek buf (cursor st) = "<"%char \/ peek buf (cursor st) = ">"%char ->
  end_ <= cursor st + 1 ->
  expr_step buf end_ st = Break.
Proof.
  intros [Hq Hp] Hch Hlast. unfold expr_step, nested_depth.
  rewrite Hq, Hp. cbn [List.length Nat.eqb negb Ascii.eqb Bool.eqb].
  assert (E : (cursor st + 1 <? end_) = false) by (apply Nat.ltb_ge; lia).
  rewrite E. destruct Hch as [Hc|Hc]; rewrite Hc; reflexivity.
Qed.

End StepFacts.

(** C4: in [f"{a<"] the scanner leaves its loop on the [<], the last byte
    of the body: the expression range is [a] and [<] has ended it;
    in [f"{<"] the range is empty and is reported as an empty
    expression.  A [<] that did not end the range would run the loop to
    the end of the body, where the error is "expecting '}'". *)
Theorem comparison_on_last_byte_ends_expression :
  expr_loop (RT := lp64) 3 (quoted "f" "{a<") 5 (scan_start 3)
  = Ok {| cursor := 4; quote_char := NUL; string_type := 0;
          parenstack := [] |}
  /\ peek (quoted "f" "{a<") 4 = "<"%char
  /\ parse_fstring_token (H := lp64) (parser 8) (token (quoted "f" "{<"))
     = Err (SyntaxError "f-string: empty expression not allowed").
Proof. repeat split. Qed.

(** C8: a range of expression bytes that holds nothing but spaces, tabs,
    newlines and form feeds (the empty range too) makes
    [fstring_compile_expr] fail with the syntax error "f-string: empty
    expression not allowed"; no node is made. *)
Theorem blank_expression_is_rejected `{Runtime} (p : Parser)
    (buf : cstring) (expr_start expr_end : nat) (t : Token) :
  Forall (fun c => c = " "%char \/ c = TAB \/ c = NEWLINE \/ c = FORMFEED)
    (slice buf expr_start (expr_end - expr_start)) ->
  syntax_error_containing "empty expression not allowed"
    (fstring_compile_expr p buf expr_start expr_end t).
Proof.
  intros Hblank.
  exists "f-string: empty expression not allowed"%string.
  split; [|reflexivity].
  unfold fstring_compile_expr.
  replace (blank_loop (slice buf expr_start (expr_end - expr_start)))
    with (@nil ascii); [reflexivity|].
  induction Hblank as [|c l Hc _ IH]; [reflexivity|].
  cbn [blank_loop].
  replace (is_blank c) with true; [exact IH|].
  destruct Hc as [->|[->|[->| ->]]]; reflexivity.
Qed.

(** An expression of two spaces. *)
Lemma blank_expression_is_rejected_witness :
  syntax_error_containing "empty expression not allowed"
    (fstring_compile_expr (RT := lp64) (parser 8) (quoted "f" "{  }") 3 5
       (token (quoted "f" "{  }"))).
Proof.
  apply blank_expression_is_rejected.
  repeat constructor.
Defined.

(** C7: on a slice of more than [SIZE_MAX / 6] bytes
    [decode_unicode_with_escapes] returns its failure value before it
    decodes anything, and sets no exception. *)
Theorem long_text_fails_without_exception `{Runtime} (s : cstring) :
  (SIZE_MAX / 6 < Z.of_nat (List.length s))%Z ->
  decode_unicode_with_escapes s = Err NoException.
Proof.
  intros Hlen. unfold decode_unicode_with_escapes.
  apply Z.ltb_lt in Hlen. rewrite Hlen. reflexivity.
Qed.

(** A text of 715827883 bytes with a 32-bit [size_t]. *)
Lemma long_text_fails_without_exception_witness :
  decode_unicode_with_escapes (RT := ilp32)
    (repeat "a"%char (N.to_nat 715827883))
  = Err NoException.
Proof.
  apply long_text_fails_without_exception.
  rewrite repeat_length, N_nat_Z. reflexivity.
Defined.

(** * The decoders *)

Section Laws.

Context {RT : Runtime} {L : RuntimeLaws RT}.

Lemma utf8_of_ascii (s : cstring) :
  existsb high_bit s = false ->
  PyUnicode_DecodeUTF8 s = Some (codes s).
Proof.
  induction s as [|c s IH]; intros H; [apply utf8_nil|].
  cbn [existsb] in H. apply orb_false_elim in H. destruct H as [Hc Hs].
  rewrite utf8_ascii, (IH Hs) by exact Hc. reflexivity.
Qed.

Lemma span_high_spec (s : cstring) :
  let '(run, rest) := span_high s in
  s = run ++ rest /\ forallb high_bit run = true
  /\ match rest with [] => True | c :: _ => high_bit c = false end.
Proof.
  induction s as [|c s IH]; [cbn; auto|].
  cbn [span_high]. destruct (high_bit c) eqn:E.
  - destruct (span_high s) as [run rest]. destruct IH as [-> [Hr Hrest]].
    cbn [forallb app]. rewrite E, Hr. auto.
  - cbn. auto.
Qed.

Lemma escape_of_U (a : unicode) (k : cstring) :
  Forall (fun cp => (cp < 1114112)%N) a ->
  PyUnicode_DecodeUnicodeEscape (List.concat (map sprintf_U a) ++ k)
  = option_map (app a) (PyUnicode_DecodeUnicodeEscape k).
Proof.
  induction 1 as [|cp a Hcp _ IH].
  - cbn. destruct (PyUnicode_DecodeUnicodeEscape k); reflexivity.
  - cbn [map List.concat]. rewrite <- app_assoc, escape_U, IH by exact Hcp.
    destruct (PyUnicode_DecodeUnicodeEscape k); reflexivity.
Qed.

Lemma sprintf_loop_spec (w : unicode) :
  forall (p : cstring) (top : nat),
    sprintf_loop w p top
    = (p ++ List.concat (map sprintf_U w),
       match w with
       | [] => top
       | _ :: _ => Nat.max top (List.length p + 10 * List.length w + 1)
       end).
Proof.
  induction w as [|chr w IH]; intros p top.
  - cbn. rewrite app_nil_r. reflexivity.
  - cbn [sprintf_loop map List.concat]. rewrite IH, app_assoc.
    f_equal. rewrite length_app.
    change (List.length (sprintf_U chr)) with 10.
    destruct w; cbn [List.length]; lia.
Qed.

(** On text without a backslash that is valid UTF-8 the loop of
    [decode_unicode_with_escapes] writes text that the escape decoder
    turns into the characters of the input. *)
Lemma escapes_loop_plain (n : nat) :
  forall (s : cstring) (u : unicode) (p : cstring) (top : nat),
    List.length s <= n ->
    ~ In BACKSLASH s ->
    PyUnicode_DecodeUTF8 s = Some u ->
    exists e,
      fst (escapes_loop n s p top) = Ok (p ++ e)
      /\ forall k,
           PyUnicode_DecodeUnicodeEscape (e ++ k)
           = option_map (app u) (PyUnicode_DecodeUnicodeEscape k).
Proof.
  induction n as [|n IH]; intros s u p top Hlen Hbs Hdec.
  - destruct s; [|cbn in Hlen; lia].
    rewrite utf8_nil in Hdec. injection Hdec as <-.
    exists []. split; [cbn; rewrite app_nil_r; reflexivity|].
    intros k. cbn. destruct (PyUnicode_DecodeUnicodeEscape k); reflexivity.
  - destruct s as [|c s1].
    + rewrite utf8_nil in Hdec. injection Hdec as <-.
      exists []. split; [cbn; rewrite app_nil_r; reflexivity|].
      intros k. cbn. destruct (PyUnicode_DecodeUnicodeEscape k); reflexivity.
    + assert (Hc : c <> BACKSLASH) by (intros ->; apply Hbs; left; reflexivity).
      cbn [escapes_loop]. rewrite (proj2 (Ascii.eqb_neq _ _) Hc).
      destruct (high_bit c) eqn:Ehigh.
      * unfold decode_utf8.
        pose proof (span_high_spec (c :: s1)) as Hspan.
        destruct (span_high (c :: s1)) as [run rest] eqn:Espan.
        destruct Hspan as [Hs [Hrun Hrest]].
        assert (Hne : run <> []).
        { intros ->. cbn in Hs. subst rest. cbn in Hrest. congruence. }
        rewrite Hs, (@utf8_run _ _ run rest Hrun Hrest) in Hdec.
        destruct (PyUnicode_DecodeUTF8 run) as [a|] eqn:Ea; [|discriminate].
        destruct (PyUnicode_DecodeUTF8 rest) as [b|] eqn:Eb; [|discriminate].
        injection Hdec as <-. rewrite sprintf_loop_spec.
        match goal with
        | |- context [escapes_loop n rest _ ?top'] =>
            destruct (IH rest b (p ++ List.concat (map sprintf_U a)) top')
              as [e [He Hk]]; [| |exact Eb|]
        end.
        { assert (List.length (c :: s1) = List.length run + List.length rest)
            by (rewrite Hs; apply length_app).
          destruct run; [congruence|]. cbn [List.length] in *. lia. }
        { intros Hin. apply Hbs. rewrite Hs. apply in_or_app. right.
          exact Hin. }
        exists (List.concat (map sprintf_U a) ++ e).
        split; [rewrite He, app_assoc; reflexivity|].
        intros k. rewrite <- app_assoc.
        rewrite (escape_of_U _ (@utf8_range _ _ _ _ Ea)), Hk.
        destruct (PyUnicode_DecodeUnicodeEscape k); cbn; [|reflexivity].
        rewrite app_assoc. reflexivity.
      * rewrite utf8_ascii in Hdec by exact Ehigh.
        destruct (PyUnicode_DecodeUTF8 s1) as [u1|] eqn:E1; [|discriminate].
        injection Hdec as <-.
        destruct (IH s1 u1 (p ++ [c]) (Nat.max top (List.length p + 1)))
          as [e [He Hk]]; [cbn in Hlen; lia | | exact E1 |].
        { intros Hin. apply Hbs. right. exact Hin. }
        exists (c :: e).
        split; [rewrite He, <- app_assoc; reflexivity|].
        intros k. cbn [app]. rewrite escape_plain, Hk by assumption.
        destruct (PyUnicode_DecodeUnicodeEscape k); reflexivity.
Qed.

(** The buffer is not made when its size is above [PY_SSIZE_T_MAX]: the
    size that [PyBytes_FromStringAndSize] gets is negative then. *)
Lemma scratch_buffer_size (len : nat) :
  scratch_buffer len -> (Z.of_nat len * 6 <= PY_SSIZE_T_MAX)%Z.
Proof.
  intros [Hlen Halloc]. unfold as_ssize_t in Halloc.
  destruct (PY_SSIZE_T_MAX <? Z.of_nat len * 6)%Z eqn:E;
    [|apply Z.ltb_ge; exact E].
  rewrite alloc_negative in Halloc; [discriminate|].
  assert (H6 : (6 * (SIZE_MAX / 6) <= SIZE_MAX)%Z)
    by (apply Z.mul_div_le; lia).
  lia.
Qed.

(** The decoding with escapes agrees with the plain decoding on text
    without a backslash, unless the text is too long for it or its
    buffer is not to be had. *)
Lemma decode_with_escapes_plain (s : cstring) (u : unicode) :
  scratch_buffer (List.length s) ->
  ~ In BACKSLASH s ->
  PyUnicode_DecodeUTF8 s = Some u ->
  decode_unicode_with_escapes s = Ok u.
Proof.
  intros [Hlen Halloc] Hbs Hdec. unfold decode_unicode_with_escapes.
  assert (E : (SIZE_MAX / 6 <? Z.of_nat (List.length s))%Z = false)
    by (apply Z.ltb_ge; exact Hlen).
  rewrite E, Halloc. cbn [negb].
  destruct (@escapes_loop_plain (List.length s) s u [] 0 (le_n _) Hbs Hdec)
    as [e [He Hk]].
  rewrite He. cbn [bind app].
  specialize (Hk []). rewrite app_nil_r, escape_nil in Hk.
  rewrite Hk. cbn. rewrite app_nil_r. reflexivity.
Qed.

End Laws.

Module RefLaws.

Lemma high_bit_N (c : ascii) : high_bit c = (128 <=? N_of_ascii c)%N.
Proof.
  destruct c as [b0 b1 b2 b3 b4 b5 b6 b7].
  destruct b0, b1, b2, b3, b4, b5, b6, b7; reflexivity.
Qed.

Lemma low_not_cont (c : ascii) : high_bit c = false -> Ref.is_cont c = false.
Proof.
  rewrite high_bit_N. unfold Ref.is_cont. intros ->. reflexivity.
Qed.

Lemma utf8_nil : Ref.DecodeUTF8 [] = Some [].
Proof. reflexivity. Qed.

Lemma utf8_ascii (c : ascii) (s : cstring) :
  high_bit c = false ->
  Ref.DecodeUTF8 (c :: s)
  = option_map (cons (N_of_ascii c)) (Ref.DecodeUTF8 s).
Proof.
  rewrite high_bit_N. intros H. cbn [Ref.DecodeUTF8].
  apply N.leb_gt in H. apply N.ltb_lt in H. rewrite H. reflexivity.
Qed.

Ltac low_head :=
  cbn beta iota in *;
  match goal with
  | H : high_bit ?c = false |- context [Ref.is_cont ?c] =>
      rewrite (@low_not_cont c H)
  end.

Lemma utf8_run (n : nat) :
  forall run rest,
    List.length run <= n ->
    forallb high_bit run = true ->
    match rest with [] => True | c :: _ => high_bit c = false end ->
    Ref.DecodeUTF8 (run ++ rest)
    = match Ref.DecodeUTF8 run, Ref.DecodeUTF8 rest with
      | Some a, Some b => Some (a ++ b)
      | _, _ => None
      end.
Proof.
  induction n as [|n IH]; intros run rest Hlen Hrun Hrest.
  - destruct run; [|cbn in Hlen; lia].
    cbn. destruct (Ref.DecodeUTF8 rest); reflexivity.
  - destruct run as [|b0 run1].
    { cbn. destruct (Ref.DecodeUTF8 rest); reflexivity. }
    cbn [forallb] in Hrun. apply andb_prop in Hrun.
    destruct Hrun as [H0 Hrun1].
    rewrite high_bit_N in H0. apply N.leb_le in H0.
    cbn [app Ref.DecodeUTF8].
    assert (E0 : (N_of_ascii b0 <? 128)%N = false) by (apply N.ltb_ge; lia).
    rewrite E0.
    destruct (N_of_ascii b0 <? 194)%N; [reflexivity|].
    assert (Hstep : forall cp run2,
      List.length run2 <= n -> forallb high_bit run2 = true ->
      option_map (cons cp) (Ref.DecodeUTF8 (run2 ++ rest))
      = match option_map (cons cp) (Ref.DecodeUTF8 run2),
              Ref.DecodeUTF8 rest with
        | Some a, Some b => Some (a ++ b)
        | _, _ => None
        end).
    { intros cp run2 Hl Hr. rewrite (IH run2 rest Hl Hr Hrest).
      destruct (Ref.DecodeUTF8 run2), (Ref.DecodeUTF8 rest); reflexivity. }
    cbn [List.length] in Hlen.
    destruct (N_of_ascii b0 <? 224)%N; [|destruct (N_of_ascii b0 <? 240)%N].
    + destruct run1 as [|b1 run2].
      * cbn [app]. destruct rest as [|r0 rest]; [reflexivity|].
        low_head. reflexivity.
      * cbn [app forallb] in *. apply andb_prop in Hrun1.
        destruct Hrun1 as [_ Hrun2]. cbn [List.length] in Hlen.
        destruct (Ref.is_cont b1); [|reflexivity].
        apply Hstep; [lia|exact Hrun2].
    + destruct run1 as [|b1 [|b2 run3]].
      * cbn [app]. destruct rest as [|r0 [|r1 rest]]; try reflexivity.
        low_head. reflexivity.
      * cbn [app]. destruct rest as [|r0 rest]; [reflexivity|].
        low_head. rewrite andb_false_r. reflexivity.
      * cbn [app forallb] in *. apply andb_prop in Hrun1.
        destruct Hrun1 as [_ Hrun1]. apply andb_prop in Hrun1.
        destruct Hrun1 as [_ Hrun3]. cbn [List.length] in Hlen.
        match goal with
        | |- (if ?b then _ else _) = _ => destruct b; [|reflexivity]
        end.
        apply Hstep; [lia|exact Hrun3].
    + destruct run1 as [|b1 [|b2 [|b3 run4]]].
      * cbn [app]. destruct rest as [|r0 [|r1 [|r2 rest]]]; try reflexivity.
        low_head. reflexivity.
      * cbn [app]. destruct rest as [|r0 [|r1 rest]]; try reflexivity.
        low_head. rewrite andb_false_r. reflexivity.
      * cbn [app]. destruct rest as [|r0 rest]; [reflexivity|].
        low_head. rewrite andb_false_r. reflexivity.
      * cbn [app forallb] in *. apply andb_prop in Hrun1.
        destruct Hrun1 as [_ Hrun1]. apply andb_prop in Hrun1.
        destruct Hrun1 as [_ Hrun1]. apply andb_prop in Hrun1.
        destruct Hrun1 as [_ Hrun4]. cbn [List.length] in Hlen.
        match goal with
        | |- (if ?b then _ else _) = _ => destruct b; [|reflexivity]
        end.
        apply Hstep; [lia|exact Hrun4].
Qed.

Lemma cont_bits_lt (c : ascii) : (Ref.cont_bits c < 64)%N.
Proof. unfold Ref.cont_bits. apply N.mod_lt. discriminate. Qed.

Lemma utf8_range (n : nat) :
  forall s u,
    List.length s <= n ->
    Ref.DecodeUTF8 s = Some u ->
    Forall (fun cp => (cp < 1114112)%N) u.
Proof.
  induction n as [|n IH]; intros s u Hlen Hdec.
  - destruct s; [|cbn in Hlen; lia]. injection Hdec as <-. constructor.
  - destruct s as [|b0 s1]; [injection Hdec as <-; constructor|].
    cbn [List.length] in Hlen. cbn [Ref.DecodeUTF8] in Hdec.
    assert (Hcons : forall cp s',
      List.length s' <= n -> (cp < 1114112)%N ->
      option_map (cons cp) (Ref.DecodeUTF8 s') = Some u ->
      Forall (fun cp => (cp < 1114112)%N) u).
    { intros cp s' Hl Hcp E.
      destruct (Ref.DecodeUTF8 s') as [u'|] eqn:E'; [|discriminate].
      injection E as <-. constructor; [exact Hcp|].
      apply (IH s' u' Hl E'). }
    destruct (N_of_ascii b0 <? 128)%N eqn:E128.
    { apply N.ltb_lt in E128. refine (Hcons _ s1 _ _ Hdec); lia. }
    destruct (N_of_ascii b0 <? 194)%N; [discriminate|].
    destruct (N_of_ascii b0 <? 224)%N eqn:E224.
    { apply N.ltb_lt in E224.
      destruct s1 as [|b1 s2]; [discriminate|].
      destruct (Ref.is_cont b1); [|discriminate].
      cbn [List.length] in Hlen.
      pose proof (cont_bits_lt b1).
      refine (Hcons _ s2 _ _ Hdec); lia. }
    destruct (N_of_ascii b0 <? 240)%N eqn:E240.
    { apply N.ltb_lt in E240.
      destruct s1 as [|b1 [|b2 s3]]; try discriminate.
      match type of Hdec with
      | (if ?b then _ else _) = _ => destruct b; [|discriminate]
      end.
      cbn [List.length] in Hlen.
      pose proof (cont_bits_lt b1). pose proof (cont_bits_lt b2).
      refine (Hcons _ s3 _ _ Hdec); lia. }
    destruct s1 as [|b1 [|b2 [|b3 s4]]]; try discriminate.
    match type of Hdec with
    | (if ?b then _ else _) = _ => destruct b eqn:E; [|discriminate]
    end.
    cbn [List.length] in Hlen.
    apply andb_prop in E. destruct E as [_ E]. apply N.ltb_lt in E.
    refine (Hcons _ s4 _ E Hdec); lia.
Qed.

Lemma hex_val_digit (d : N) :
  (d < 16)%N -> Ref.hex_val (hex_digit d) = Some d.
Proof.
  intros H.
  assert (E : In d [0; 1; 2; 3; 4; 5; 6; 7; 8; 9; 10; 11; 12; 13; 14; 15]%N).
  { cbn [In]. lia. }
  cbn [In] in E.
  repeat (destruct E as [<-|E]; [reflexivity|]). contradiction.
Qed.

Lemma hex_digit_mod (n : N) : hex_digit (n mod 16) = hex_digit n.
Proof.
  unfold hex_digit. rewrite N.Div0.mod_mod. reflexivity.
Qed.

Lemma shift_digit (cp : N) (m : nat) :
  (N.shiftr cp (4 * N.of_nat (S m)) * 16
   + N.shiftr cp (4 * N.of_nat m) mod 16)%N
  = N.shiftr cp (4 * N.of_nat m).
Proof.
  replace (4 * N.of_nat (S m))%N with (4 * N.of_nat m + 4)%N by lia.
  rewrite <- N.shiftr_shiftr.
  set (x := N.shiftr cp (4 * N.of_nat m)).
  rewrite (N.shiftr_div_pow2 x 4). change (2 ^ 4)%N with 16%N.
  rewrite (N.div_mod x 16) at 3 by discriminate. lia.
Qed.

Lemma parse_hex_digits (cp : N) (s : cstring) (n : nat) :
  Ref.parse_hex n (N.shiftr cp (4 * N.of_nat n))
    (map (fun k => hex_digit (N.shiftr cp k)) (digit_shifts n) ++ s)
  = Some (cp, s).
Proof.
  induction n as [|m IH].
  - reflexivity.
  - cbn [digit_shifts map app Ref.parse_hex].
    rewrite <- hex_digit_mod, hex_val_digit
      by (apply N.mod_lt; discriminate).
    rewrite shift_digit. exact IH.
Qed.

Lemma parse_hex8 (cp : N) (s : cstring) :
  (cp < 4294967296)%N ->
  Ref.parse_hex 8 0 (hex8 cp ++ s) = Some (cp, s).
Proof.
  intros Hcp.
  replace 0%N with (N.shiftr cp (4 * N.of_nat 8)).
  - change (hex8 cp)
      with (map (fun k => hex_digit (N.shiftr cp k)) (digit_shifts 8)).
    apply parse_hex_digits.
  - rewrite N.shiftr_div_pow2. apply N.div_small. exact Hcp.
Qed.

Lemma parse_hex_length (k : nat) :
  forall acc s v rest,
    Ref.parse_hex k acc s = Some (v, rest) ->
    List.length rest <= List.length s.
Proof.
  induction k as [|k IH]; intros acc s v rest E.
  - injection E as _ <-. lia.
  - cbn [Ref.parse_hex] in E. destruct s as [|c s]; [discriminate|].
    destruct (Ref.hex_val c); [|discriminate].
    apply IH in E. cbn [List.length]. lia.
Qed.

Lemma parse_oct_length (k : nat) :
  forall acc s,
    List.length (snd (Ref.parse_oct k acc s)) <= List.length s.
Proof.
  induction k as [|k IH]; intros acc s; [destruct s; cbn; lia|].
  destruct s as [|c s]; [cbn; lia|].
  cbn [Ref.parse_oct]. destruct (Ref.oct_val c); [|cbn; lia].
  specialize (IH (acc * 8 + n)%N s). cbn [List.length]. lia.
Qed.

Lemma unescape_fuel (mode : bool) (f1 : nat) :
  forall f2 s,
    List.length s <= f1 -> List.length s <= f2 ->
    Ref.unescape mode f1 s = Ref.unescape mode f2 s.
Proof.
  induction f1 as [|f1 IH]; intros f2 s H1 H2.
  - destruct s; [|cbn in H1; lia]. destruct f2; reflexivity.
  - destruct s as [|c s1]; [destruct f2; reflexivity|].
    destruct f2 as [|f2]; [cbn in H2; lia|].
    cbn [List.length] in H1, H2. cbn [Ref.unescape].
    destruct (c =? BACKSLASH)%char.
    + destruct s1 as [|e s2]; [reflexivity|].
      cbn [List.length] in H1, H2.
      assert (Hhex : forall k,
        match Ref.parse_hex k 0 s2 with
        | Some (cp, rest) =>
            if (cp <? 1114112)%N
            then option_map (cons cp) (Ref.unescape mode f1 rest)
            else None
        | None => None
        end
        = match Ref.parse_hex k 0 s2 with
          | Some (cp, rest) =>
              if (cp <? 1114112)%N
              then option_map (cons cp) (Ref.unescape mode f2 rest)
              else None
          | None => None
          end).
      { intros k. destruct (Ref.parse_hex k 0 s2) as [[cp rest]|] eqn:E;
          [|reflexivity].
        apply parse_hex_length in E.
        rewrite (IH f2 rest) by lia. reflexivity. }
      assert (Hoct : forall d,
        (let '(v, rest) := Ref.parse_oct 2 d s2 in
         option_map (cons (if mode then v mod 256 else v)%N)
           (Ref.unescape mode f1 rest))
        = (let '(v, rest) := Ref.parse_oct 2 d s2 in
           option_map (cons (if mode then v mod 256 else v)%N)
             (Ref.unescape mode f2 rest))).
      { intros d. pose proof (parse_oct_length 2 d s2) as Hl.
        destruct (Ref.parse_oct 2 d s2) as [v rest]. cbn [snd] in Hl.
        rewrite (IH f2 rest) by lia. reflexivity. }
      rewrite !Hhex, (IH f2 s2) by lia.
      destruct (Ref.oct_val e); [rewrite Hoct|]; reflexivity.
    + rewrite (IH f2 s1) by lia. reflexivity.
Qed.

Lemma escape_nil : Ref.DecodeUnicodeEscape [] = Some [].
Proof. reflexivity. Qed.

Lemma unescape_plain (mode : bool) (fuel : nat) (c : ascii) (s : cstring) :
  c <> BACKSLASH ->
  Ref.unescape mode (S fuel) (c :: s)
  = option_map (cons (N_of_ascii c)) (Ref.unescape mode fuel s).
Proof.
  intros Hc. cbn [Ref.unescape].
  rewrite (proj2 (Ascii.eqb_neq _ _) Hc). reflexivity.
Qed.

Lemma escape_plain (c : ascii) (s : cstring) :
  c <> BACKSLASH ->
  Ref.DecodeUnicodeEscape (c :: s)
  = option_map (cons (N_of_ascii c)) (Ref.DecodeUnicodeEscape s).
Proof.
  intros Hc. unfold Ref.DecodeUnicodeEscape. cbn [List.length].
  apply unescape_plain, Hc.
Qed.

Lemma unescape_U (fuel : nat) (s : cstring) :
  Ref.unescape false (S fuel) (BACKSLASH :: "U"%char :: s)
  = match Ref.parse_hex 8 0 s with
    | Some (cp, rest) =>
        if (cp <? 1114112)%N
        then option_map (cons cp) (Ref.unescape false fuel rest)
        else None
    | None => None
    end.
Proof. reflexivity. Qed.

Lemma escape_U (cp : N) (s : cstring) :
  (cp < 1114112)%N ->
  Ref.DecodeUnicodeEscape (sprintf_U cp ++ s)
  = option_map (cons cp) (Ref.DecodeUnicodeEscape s).
Proof.
  intros Hcp. unfold Ref.DecodeUnicodeEscape, sprintf_U.
  cbn [app].
  replace (List.length (BACKSLASH :: "U"%char :: hex8 cp ++ s))
    with (S (9 + List.length s))
    by (unfold hex8; cbn [map List.length app]; lia).
  rewrite unescape_U, parse_hex8 by lia.
  apply N.ltb_lt in Hcp. rewrite Hcp. f_equal.
  apply unescape_fuel; lia.
Qed.

Lemma bytes_plain (s : cstring) :
  ~ In BACKSLASH s -> Ref.DecodeEscape s = Some s.
Proof.
  intros H. unfold Ref.DecodeEscape.
  replace (Ref.unescape true (List.length s) s) with (Some (codes s)).
  - cbn [option_map]. unfold codes. rewrite map_map. f_equal.
    rewrite <- (map_id s) at 2. apply map_ext. apply ascii_N_embedding.
  - symmetry. induction s as [|c s IH]; [reflexivity|].
    cbn [List.length]. rewrite unescape_plain, IH.
    + reflexivity.
    + intros Hin. apply H. right. exact Hin.
    + intros ->. apply H. left. reflexivity.
Qed.

End RefLaws.

(** A runtime with the reference decoders keeps the laws. *)
Lemma reference_laws (RT : Runtime) :
  @PyUnicode_DecodeUTF8 RT = Ref.DecodeUTF8 ->
  @PyUnicode_DecodeUnicodeEscape RT = Ref.DecodeUnicodeEscape ->
  @PyBytes_DecodeEscape RT = Ref.DecodeEscape ->
  @PyBytes_FromStringAndSize RT = Ref.FromStringAndSize ->
  @PyUnicode_DecodeUTF8_negative RT = (fun _ _ _ => None) ->
  RuntimeLaws RT.
Proof.
  intros E1 E2 E3 E4 E5. constructor; rewrite ?E1, ?E2, ?E3, ?E4, ?E5.
  - apply RefLaws.utf8_nil.
  - apply RefLaws.utf8_ascii.
  - intros run rest. apply (@RefLaws.utf8_run (List.length run)). lia.
  - intros s u. apply (@RefLaws.utf8_range (List.length s)). lia.
  - apply RefLaws.escape_nil.
  - intros c s _. apply RefLaws.escape_plain.
  - apply RefLaws.escape_U.
  - apply RefLaws.bytes_plain.
  - intros size Hsize. apply Z.leb_gt. exact Hsize.
  - reflexivity.
Qed.

#[export] Instance lp64_laws : RuntimeLaws lp64.
Proof. apply reference_laws; reflexivity. Qed.

#[export] Instance ilp32_laws : RuntimeLaws ilp32.
Proof. apply reference_laws; reflexivity. Qed.

(** * The assembler *)

Lemma is_brace_false (c : ascii) :
  is_brace c = false -> c <> LBRACE /\ c <> RBRACE.
Proof.
  unfold is_brace. intros H. apply orb_false_elim in H.
  destruct H as [H1 H2]. split; apply Ascii.eqb_neq; assumption.
Qed.

Lemma is_brace_true (c : ascii) :
  is_brace c = true -> c = LBRACE \/ c = RBRACE.
Proof.
  unfold is_brace. intros H. apply orb_prop in H.
  destruct H as [H|H]; apply Ascii.eqb_eq in H; auto.
Qed.

Lemma plain_literal_run (raw : bool) (run : cstring) :
  Forall plain_byte run -> literal_run raw run.
Proof.
  induction 1 as [|c l [Hb [Hs _]] _ IH]; [constructor|].
  destruct (is_brace_false _ Hb). apply run_byte; auto.
Qed.

(** A body is a run of plain bytes, then nothing or a doubled brace and a
    body. *)
Lemma doubled_body_split (body : cstring) :
  doubled_body body ->
  exists run rest,
    body = run ++ rest /\ Forall plain_byte run /\
    (rest = [] \/
     exists c rest', is_brace c = true /\ rest = c :: c :: rest'
                     /\ doubled_body rest').
Proof.
  induction 1 as [|c l Hb Hs Hh Hl IH|c l Hb Hl IH].
  - exists [], []. split; [reflexivity|]. split; [constructor|]. auto.
  - destruct IH as [run [rest [-> [Hrun Hrest]]]].
    exists (c :: run), rest. split; [reflexivity|].
    split; [constructor; [repeat split|]; assumption|]. exact Hrest.
  - exists [], (c :: c :: l). split; [reflexivity|].
    split; [constructor|]. right. exists c, l. auto.
Qed.

Lemma undouble_plain (c : ascii) (l : cstring) :
  is_brace c = false -> undouble (c :: l) = c :: undouble l.
Proof.
  intros Hb. destruct l as [|c' l]; [reflexivity|].
  change (undouble (c :: c' :: l))
    with (if is_brace c && (c =? c')%char then c :: undouble l
          else c :: undouble (c' :: l)).
  rewrite Hb. reflexivity.
Qed.

Lemma undouble_run (run rest : cstring) :
  Forall plain_byte run ->
  undouble (run ++ rest) = run ++ undouble rest.
Proof.
  induction 1 as [|c l [Hb _] _ IH]; [reflexivity|].
  cbn [app]. rewrite undouble_plain, IH by exact Hb. reflexivity.
Qed.

Lemma undouble_brace (c : ascii) (rest : cstring) :
  is_brace c = true ->
  undouble (c :: c :: rest) = c :: undouble rest.
Proof.
  intros Hb.
  change (undouble (c :: c :: rest))
    with (if is_brace c && (c =? c)%char then c :: undouble rest
          else c :: undouble (c :: rest)).
  rewrite Hb, Ascii.eqb_refl. reflexivity.
Qed.

Lemma append_text_app (prev : option unicode) (a b : unicode) :
  append_text (append_text prev a) b = append_text prev (a ++ b).
Proof.
  destruct a as [|x a]; [reflexivity|].
  destruct b as [|y b]; [cbn; rewrite app_nil_r; reflexivity|].
  destruct prev; cbn; rewrite <- ?app_assoc; reflexivity.
Qed.

Lemma concat_opt_some `{Runtime} (state : FstringParser) (s : unicode) :
  concat_opt state (Some s)
  = with_last_str state (append_text (last_str state) s).
Proof.
  unfold concat_opt, _Mys_PyPegen_FstringParser_ConcatAndDel,
    with_last_str, append_text.
  destruct s; [destruct state; reflexivity|].
  cbn. destruct (last_str state); reflexivity.
Qed.

Lemma plain_bytes (run : cstring) :
  Forall plain_byte run ->
  existsb high_bit run = false /\ ~ In BACKSLASH run.
Proof.
  induction 1 as [|c l [_ [Hs Hh]] _ [IH1 IH2]]; [auto|].
  split; [cbn; rewrite Hh, IH1; reflexivity|].
  intros [E|E]; [congruence|auto].
Qed.

Lemma append_texts (texts : list unicode) :
  forall prev,
    fold_left append_text texts prev
    = append_text prev (List.concat texts).
Proof.
  induction texts as [|v texts IH]; intros prev.
  - destruct prev; reflexivity.
  - cbn [fold_left List.concat]. rewrite IH. apply append_text_app.
Qed.

Section Assembler.

Context {RT : Runtime}.
Variables (p : Parser) (raw : bool) (first_token t last_token : Token).
Variable parse_spec : nat -> Z -> result (expr_ty * nat).

(** On a body without expressions the loop of the assembler adds the
    texts of the pieces to [last_str], one after the other, and nothing to
    the list of expressions. *)
Lemma concat_loop_pieces (body : cstring) (pieces : list cstring) :
  expression_free raw body pieces ->
  forall (texts : list unicode) (before after : cstring)
         (state : FstringParser) (fuel : nat),
    decoded raw pieces texts ->
    List.length body < fuel ->
    concat_loop p (before ++ body ++ after)
      (List.length before + List.length body) raw 0 first_token t
      last_token parse_spec fuel state (List.length before)
    = Ok (with_last_str state (fold_left append_text texts (last_str state)),
          List.length before + List.length body).
Proof.
  induction 1 as [run Hrun|run ch rest pieces Hrun Hch Hrest IH];
    intros texts before after state fuel Hdec Hfuel.
  - destruct fuel as [|fuel]; [lia|].
    cbn [concat_loop]. unfold fstring_find_literal_and_expr.
    assert (Htext : exists v,
              (run <> [] -> decode_literal raw run = Ok v)
              /\ fold_left append_text texts (last_str state)
                 = match run with
                   | [] => last_str state
                   | _ :: _ => append_text (last_str state) v
                   end).
    { destruct run as [|c run].
      - inversion Hdec; subst. exists []. split; [congruence|reflexivity].
      - inversion Hdec as [|piece v ps vs Hv Hnil]; subst.
        inversion Hnil; subst. exists v. split; [auto|reflexivity]. }
    destruct Htext as [v [Hv ->]].
    rewrite (@find_literal_end RT before run after _ raw t Hrun 0 v);
      [|reflexivity|exact Hv].
    cbn [bind Z.eqb]. rewrite Nat.leb_refl. cbn [orb bind Z.eqb].
    unfold run_literal. destruct run; [destruct state; reflexivity|].
    rewrite concat_opt_some. reflexivity.
  - destruct fuel as [|fuel]; [lia|].
    inversion Hdec as [|piece v ps texts' Hv Htexts]; subst.
    rewrite length_app in Hfuel |- *. cbn [List.length] in Hfuel |- *.
    cbn [concat_loop]. unfold fstring_find_literal_and_expr.
    rewrite <- app_assoc. cbn [app].
    rewrite (@find_literal_doubled RT before run (rest ++ after) _ raw t
               Hrun ch v Hch); [|lia|exact Hv].
    cbn [bind Z.eqb Pos.eqb].
    rewrite concat_opt_some; cbn [concat_opt].
    specialize (IH texts' (before ++ run ++ [ch; ch]) after
                  (with_last_str state (append_text (last_str state) v))
                  fuel Htexts).
    rewrite <- !app_assoc in IH; cbn [app] in IH.
    rewrite !length_app in IH; cbn [List.length] in IH.
    replace (List.length before + (List.length run + 2))
      with (List.length before + List.length run + 2) in IH by lia.
    replace (List.length before
             + (List.length run + S (S (List.length rest))))
      with (List.length before + List.length run + 2 + List.length rest)
      by lia.
    rewrite IH by lia. reflexivity.
Qed.

(** ConcatFstring then Finish on such a body. *)
Lemma fstring_of_pieces (body : cstring) (pieces : list cstring)
    (texts : list unicode) (before after : cstring) :
  expression_free raw body pieces ->
  decoded raw pieces texts ->
  exists state,
    ConcatFstring_with p (before ++ body ++ after)
      (List.length before + List.length body) raw 0 first_token t
      last_token parse_spec _Mys_PyPegen_FstringParser_Init
      (List.length before)
    = Ok (state, List.length before + List.length body)
    /\ _Mys_PyPegen_FstringParser_Finish state first_token last_token
       = JoinedStr
           match List.concat texts with
           | [] => []
           | _ :: _ =>
               [make_str_node_and_del (List.concat texts) first_token
                  last_token]
           end
           (span_of first_token last_token).
Proof.
  intros Hbody Hdec. unfold ConcatFstring_with.
  replace (S (List.length before + List.length body - List.length before))
    with (S (List.length body)) by lia.
  rewrite (@concat_loop_pieces body pieces Hbody texts before after _
             (S (List.length body)) Hdec) by lia.
  cbn [bind Z.eqb negb andb].
  assert (E : (List.length before + List.length body
               <? List.length before + List.length body - 1) = false)
    by (apply Nat.ltb_ge; lia).
  rewrite E. eexists. split; [reflexivity|].
  unfold _Mys_PyPegen_FstringParser_Finish, with_last_str.
  cbn [fs_fmode last_str expr_list negb _Mys_PyPegen_FstringParser_Init].
  rewrite append_texts. cbn [append_text].
  destruct (List.concat texts); reflexivity.
Qed.

End Assembler.

(** C1 (amended): for an f-string body that holds no expression (runs of
    literal text and doubled braces) and whose literals decode,
    ConcatFstring then Finish give a JoinedStr node; its sequence holds
    one Constant node, whose text is the text of the body with one brace
    for every doubled brace (the sequence is empty when that text is
    empty).  They never give a bare Constant node. *)
Theorem expression_free_fstring_is_joined_str `{Runtime} (p : Parser)
    (before body after : cstring) (raw : bool)
    (first_token t last_token : Token) (pieces : list cstring)
    (texts : list unicode) :
  expression_free raw body pieces ->
  decoded raw pieces texts ->
  exists state,
    _Mys_PyPegen_FstringParser_ConcatFstring p
      _Mys_PyPegen_FstringParser_Init (before ++ body ++ after)
      (List.length before) (List.length before + List.length body) raw 0
      first_token t last_token
    = Ok (state, List.length before + List.length body)
    /\ _Mys_PyPegen_FstringParser_Finish state first_token last_token
       = JoinedStr
           match List.concat texts with
           | [] => []
           | _ :: _ =>
               [Constant (PyUnicode (List.concat texts))
                  (if (peek (bytes first_token) 0 =? "u")%char
                   then Some "u"%string else None)
                  (span_of first_token last_token)]
           end
           (span_of first_token last_token).
Proof.
  intros Hbody Hdec. unfold _Mys_PyPegen_FstringParser_ConcatFstring.
  apply fstring_of_pieces with (pieces := pieces); assumption.
Qed.

(** An f-string of doubled braces around a text. *)
Lemma expression_free_fstring_is_joined_str_witness :
  exists state,
    _Mys_PyPegen_FstringParser_ConcatFstring (RT := lp64) (parser 8)
      _Mys_PyPegen_FstringParser_Init (quoted "f" "{{not an expr}}") 2 17
      false 0 (token (quoted "f" "{{not an expr}}"))
      (token (quoted "f" "{{not an expr}}"))
      (token (quoted "f" "{{not an expr}}"))
    = Ok (state, 17)
    /\ _Mys_PyPegen_FstringParser_Finish state
         (token (quoted "f" "{{not an expr}}"))
         (token (quoted "f" "{{not an expr}}"))
       = JoinedStr
           [Constant (PyUnicode (codes (str "{not an expr}"))) None
              (span_of (token (quoted "f" "{{not an expr}}"))
                 (token (quoted "f" "{{not an expr}}")))]
           (span_of (token (quoted "f" "{{not an expr}}"))
              (token (quoted "f" "{{not an expr}}"))).
Proof.
  apply (@expression_free_fstring_is_joined_str lp64 (parser 8)
           (str "f" ++ [DQUOTE]) (str "{{not an expr}}") [DQUOTE] false
           (token (quoted "f" "{{not an expr}}"))
           (token (quoted "f" "{{not an expr}}"))
           (token (quoted "f" "{{not an expr}}"))
           [str "{"; str "not an expr}"]
           [codes (str "{"); codes (str "not an expr}")]).
  - apply (@free_brace false [] LBRACE (str "not an expr}}")
             [str "not an expr}"]); [apply run_nil | left; reflexivity |].
    apply (@free_brace false (str "not an expr") RBRACE [] []);
      [ | right; reflexivity | apply (free_end (run_nil false)) ].
    do 11 (apply run_byte;
           [discriminate | discriminate | right; discriminate |]).
    apply run_nil.
  - repeat constructor.
Defined.

Lemma undouble_nil (body : cstring) :
  doubled_body body -> undouble body = [] -> body = [].
Proof.
  intros Hbody. destruct Hbody as [|c l Hb _ _ _|c l Hb _]; [reflexivity| |].
  - rewrite undouble_plain by exact Hb. discriminate.
  - rewrite undouble_brace by exact Hb. discriminate.
Qed.

(** The decoding of plain bytes, with a brace after them or not. *)
Lemma decode_plain `{RuntimeLaws} (raw : bool) (run tail : cstring) :
  Forall plain_byte run ->
  tail = [] \/ (exists c, is_brace c = true /\ tail = [c]) ->
  raw = true \/ scratch_buffer (List.length (run ++ tail)) ->
  decode_literal raw (run ++ tail) = Ok (codes (run ++ tail)).
Proof.
  intros Hrun Htail Hraw.
  destruct (plain_bytes Hrun) as [Hhigh Hbs].
  assert (Hh : existsb high_bit (run ++ tail) = false).
  { rewrite existsb_app, Hhigh.
    destruct Htail as [->|[c [Hc ->]]]; [reflexivity|].
    destruct (is_brace_true _ Hc) as [->| ->]; reflexivity. }
  assert (Hb : ~ In BACKSLASH (run ++ tail)).
  { intros Hin. apply in_app_or in Hin. destruct Hin as [Hin|Hin]; [auto|].
    destruct Htail as [->|[c [Hc ->]]]; [contradiction|].
    destruct Hin as [E|[]]. subst c. discriminate. }
  unfold decode_literal. destruct raw.
  - rewrite (utf8_of_ascii _ Hh). reflexivity.
  - destruct Hraw as [|Hlen]; [discriminate|].
    apply decode_with_escapes_plain; [exact Hlen|exact Hb|].
    apply utf8_of_ascii, Hh.
Qed.

(** The pieces of ASCII text without a backslash in which every brace is
    doubled. *)
Lemma doubled_body_pieces `{RuntimeLaws} (raw : bool) (n : nat) :
  forall body,
    List.length body < n ->
    doubled_body body ->
    raw = true \/ (forall k, k <= List.length body -> scratch_buffer k) ->
    exists pieces,
      expression_free raw body pieces
      /\ decoded raw pieces (map codes pieces)
      /\ List.concat pieces = undouble body.
Proof.
  induction n as [|n IH]; intros body Hn Hbody Hraw; [lia|].
  destruct (doubled_body_split Hbody)
    as [run [rest [-> [Hrun [->|[c [rest' [Hc [-> Hrest']]]]]]]]].
  - rewrite app_nil_r in *.
    exists (match run with [] => [] | _ :: _ => [run] end).
    split; [apply free_end, plain_literal_run, Hrun|].
    rewrite <- (app_nil_r run) at 4. rewrite undouble_run by exact Hrun.
    cbn [undouble]. rewrite app_nil_r.
    destruct run as [|c run]; [split; [constructor|reflexivity]|].
    split; [|cbn; rewrite app_nil_r; reflexivity].
    constructor; [|constructor].
    rewrite <- (app_nil_r (c :: run)).
    apply decode_plain; [exact Hrun|auto|].
    rewrite app_nil_r.
    destruct Hraw as [Hraw|Hraw]; [left; exact Hraw|right].
    apply Hraw. lia.
  - rewrite length_app in Hn, Hraw. cbn [List.length] in Hn, Hraw.
    destruct (IH rest') as [pieces [Hfree [Hdec Hcat]]];
      [lia|exact Hrest'
      |destruct Hraw as [Hraw|Hraw];
       [auto|right; intros k Hk; apply Hraw; lia]|].
    exists ((run ++ [c]) :: pieces). split; [|split].
    + apply free_brace;
        [apply plain_literal_run, Hrun|apply is_brace_true, Hc|exact Hfree].
    + constructor; [|exact Hdec].
      apply decode_plain; [exact Hrun|right; exists c; auto|].
      destruct Hraw as [Hraw|Hraw]; [left; exact Hraw|right].
      apply Hraw. rewrite length_app. cbn [List.length]. lia.
    + cbn [List.concat]. rewrite Hcat, undouble_run by exact Hrun.
      rewrite undouble_brace by exact Hc.
      rewrite <- app_assoc. reflexivity.
Qed.

(** For ASCII text without a backslash in which every brace is doubled
    the text of the Constant node is the body with its braces
    undoubled, when the decoders keep the laws and the decoder with
    escapes gets its buffer for every text that is not longer than the
    body. *)
Corollary ascii_fstring_without_expression `{RuntimeLaws} (p : Parser)
    (before body after : cstring) (raw : bool)
    (first_token t last_token : Token) :
  doubled_body body ->
  body <> [] ->
  raw = true \/ (forall k, k <= List.length body -> scratch_buffer k) ->
  exists state,
    _Mys_PyPegen_FstringParser_ConcatFstring p
      _Mys_PyPegen_FstringParser_Init (before ++ body ++ after)
      (List.length before) (List.length before + List.length body) raw 0
      first_token t last_token
    = Ok (state, List.length before + List.length body)
    /\ _Mys_PyPegen_FstringParser_Finish state first_token last_token
       = JoinedStr
           [Constant (PyUnicode (codes (undouble body)))
              (if (peek (bytes first_token) 0 =? "u")%char
               then Some "u"%string else None)
              (span_of first_token last_token)]
           (span_of first_token last_token).
Proof.
  intros Hbody Hne Hraw.
  destruct (@doubled_body_pieces _ _ raw (S (List.length body)) body)
    as [pieces [Hfree [Hdec Hcat]]]; [lia|exact Hbody|exact Hraw|].
  unfold _Mys_PyPegen_FstringParser_ConcatFstring.
  destruct (fstring_of_pieces p first_token t last_token
              (fstring_parse_rec (levels_below 0) p (before ++ body ++ after)
                 (List.length before + List.length body) raw first_token t
                 last_token)
              before after Hfree Hdec) as [state [Hrun Hfin]].
  exists state. split; [exact Hrun|]. rewrite Hfin.
  replace (List.concat (map codes pieces)) with (codes (undouble body))
    by (rewrite <- Hcat; unfold codes; apply concat_map).
  unfold make_str_node_and_del.
  destruct (codes (undouble body)) eqn:E; [|reflexivity].
  apply map_eq_nil in E. apply undouble_nil in E; [contradiction|exact Hbody].
Qed.

(** The f-string whose body is two left braces and two right braces is a
    JoinedStr node with one Constant node, not a Constant node. *)
Lemma fstring_of_doubled_braces_is_not_a_constant :
  parse_fstring_token (H := lp64) (parser 8) (token (quoted "f" "{{}}"))
  = Ok (JoinedStr
          [Constant (PyUnicode (codes (str "{}"))) None
             (span_of (token (quoted "f" "{{}}"))
                (token (quoted "f" "{{}}")))]
          (span_of (token (quoted "f" "{{}}")) (token (quoted "f" "{{}}"))))
  /\ (forall value kind loc,
        parse_fstring_token (H := lp64) (parser 8)
          (token (quoted "f" "{{}}"))
        <> Ok (Constant value kind loc)).
Proof.
  split; [reflexivity|]. intros value kind loc. discriminate.
Qed.

(** C5 (amended): when [fmode] is false, Finish returns one Constant
    node; its kind is "u" if and only if the first token's text starts
    with the lower-case letter [u], and is absent otherwise (also for a
    text that starts with [U]). *)
Theorem finish_plain_string_kind `{Runtime} (state : FstringParser)
    (first_token last_token : Token) :
  fs_fmode state = false ->
  exists (value : unicode) (kind : option string),
    _Mys_PyPegen_FstringParser_Finish state first_token last_token
    = Constant (PyUnicode value) kind (span_of first_token last_token)
    /\ (kind = Some "u"%string <-> peek (bytes first_token) 0 = "u"%char)
    /\ (kind = None <-> peek (bytes first_token) 0 <> "u"%char).
Proof.
  intros Hf. unfold _Mys_PyPegen_FstringParser_Finish, make_str_node_and_del.
  rewrite Hf. cbn [negb].
  eexists. eexists. split; [reflexivity|].
  destruct (peek (bytes first_token) 0 =? "u")%char eqn:E.
  - apply Ascii.eqb_eq in E. split; split; congruence.
  - apply Ascii.eqb_neq in E. split; split; congruence.
Qed.

(** The state of a plain string with the prefix [u]. *)
Lemma finish_plain_string_kind_witness :
  exists (value : unicode) (kind : option string),
    _Mys_PyPegen_FstringParser_Finish (RT := lp64)
      (_Mys_PyPegen_FstringParser_ConcatAndDel
         _Mys_PyPegen_FstringParser_Init (codes (str "a")))
      (token (quoted "u" "a")) (token (quoted "u" "a"))
    = Constant (PyUnicode value) kind
        (span_of (token (quoted "u" "a")) (token (quoted "u" "a")))
    /\ (kind = Some "u"%string
        <-> peek (bytes (token (quoted "u" "a"))) 0 = "u"%char)
    /\ (kind = None
        <-> peek (bytes (token (quoted "u" "a"))) 0 <> "u"%char).
Proof.
  apply (@finish_plain_string_kind lp64). reflexivity.
Defined.

(** A token that starts with the upper-case letter [U] gets no kind. *)
Lemma upper_case_u_prefix_has_no_kind :
  peek (bytes (token (quoted "U" "a"))) 0 = "U"%char
  /\ _Mys_PyPegen_FstringParser_Finish (RT := lp64)
       (_Mys_PyPegen_FstringParser_ConcatAndDel
          _Mys_PyPegen_FstringParser_Init (codes (str "a")))
       (token (quoted "U" "a")) (token (quoted "U" "a"))
     = Constant (PyUnicode (codes (str "a"))) None
         (span_of (token (quoted "U" "a")) (token (quoted "U" "a"))).
Proof. split; reflexivity. Qed.

(** * The entry point *)

(** C6 (amended): a token whose prefix letters set both the [f] flag and
    the [b] flag makes [_Mys_PyPegen_parsestr] fail.  The error is a
    syntax error when the quote is a single quote ("characters cannot have
    a prefix") or the feature version is below 6; otherwise it is the
    internal error of [PyErr_BadInternalCall], which is not a syntax
    error. *)
Theorem fstring_with_bytes_prefix_fails `{Runtime} (p : Parser) (t : Token) :
  fmode (snd (scan_prefix (bytes t))) = true ->
  bytesmode (snd (scan_prefix (bytes t))) = true ->
  _Mys_PyPegen_parsestr p t
  = Err (fstring_bytes_error
           (peek (bytes t) (fst (scan_prefix (bytes t))))
           (feature_version p))
  /\ (is_syntax_error
        (fstring_bytes_error
           (peek (bytes t) (fst (scan_prefix (bytes t))))
           (feature_version p)) = true
      <-> peek (bytes t) (fst (scan_prefix (bytes t))) = SQUOTE
          \/ (feature_version p < 6)%Z).
Proof.
  intros Hf Hb. unfold _Mys_PyPegen_parsestr, parsestr_strip,
    fstring_bytes_error.
  destruct (scan_prefix (bytes t)) as [s f]. cbn [fst snd] in *.
  rewrite Hf, Hb. cbn [orb andb].
  destruct (peek (bytes t) s =? SQUOTE)%char eqn:Eq.
  - split; [reflexivity|]. apply Ascii.eqb_eq in Eq.
    split; auto.
  - cbn [bind]. apply Ascii.eqb_neq in Eq.
    destruct (feature_version p <? 6)%Z eqn:Ev.
    + split; [reflexivity|]. apply Z.ltb_lt in Ev. split; auto.
    + split; [reflexivity|]. apply Z.ltb_ge in Ev.
      split; [discriminate|]. intros [E|E]; [contradiction|lia].
Qed.

(** A prefix of [b] and [F] at feature version 5. *)
Lemma fstring_with_bytes_prefix_fails_witness :
  _Mys_PyPegen_parsestr (RT := lp64) (parser 5) (token (quoted "bF" "x"))
  = Err (fstring_bytes_error DQUOTE 5)
  /\ (is_syntax_error (fstring_bytes_error DQUOTE 5) = true
      <-> DQUOTE = SQUOTE \/ (5 < 6)%Z).
Proof.
  apply (@fstring_with_bytes_prefix_fails lp64 (parser 5)
           (token (quoted "bF" "x"))); reflexivity.
Defined.

(** With a double quote and feature version 8, a prefix of [f] and [b]
    is a bad internal call, which is not a syntax error. *)
Lemma fstring_with_bytes_prefix_is_internal_error :
  _Mys_PyPegen_parsestr (RT := lp64) (parser 8) (token (quoted "fb" "x"))
  = Err BadInternalCall
  /\ is_syntax_error BadInternalCall = false.
Proof. split; reflexivity. Qed.

(** The flags of the two-letter prefixes made of [f] and [b]. *)
Lemma fb_prefix_flags (c1 c2 q : ascii) (rest : cstring) :
  (is_letter "f" "F" c1 = true /\ is_letter "b" "B" c2 = true)
  \/ (is_letter "b" "B" c1 = true /\ is_letter "f" "F" c2 = true) ->
  q = SQUOTE \/ q = DQUOTE ->
  scan_prefix (c1 :: c2 :: q :: rest)
  = (2, {| bytesmode := true; rawmode := false; remode := false;
           cmode := false; fmode := true |}).
Proof.
  unfold is_letter.
  intros [[H1 H2]|[H1 H2]] Hq;
    apply orb_prop in H1; apply orb_prop in H2;
    destruct H1 as [H1|H1]; destruct H2 as [H2|H2];
    apply Ascii.eqb_eq in H1; apply Ascii.eqb_eq in H2; subst c1 c2;
    destruct Hq as [-> | ->]; reflexivity.
Qed.

Lemma skipn_peek (buf : cstring) (k : nat) :
  k < List.length buf -> skipn k buf = peek buf k :: skipn (S k) buf.
Proof.
  revert k. induction buf as [|c buf IH]; intros k Hk; [cbn in Hk; lia|].
  destruct k as [|k]; [reflexivity|].
  cbn [skipn]. rewrite IH by (cbn in Hk; lia). reflexivity.
Qed.

Lemma prefix_loop_re_raw (n : nat) :
  forall l s f,
    List.length l <= n ->
    (remode f = true -> rawmode f = true) ->
    remode (snd (prefix_loop l s f)) = true ->
    rawmode (snd (prefix_loop l s f)) = true.
Proof.
  induction n as [|n IH]; intros l s f Hn Hf.
  - destruct l; [|cbn in Hn; lia]. cbn [prefix_loop].
    destruct (bytesmode f && rawmode f && remode f && cmode f); exact Hf.
  - destruct l as [|quote l1]; cbn [prefix_loop].
    { destruct (bytesmode f && rawmode f && remode f && cmode f); exact Hf. }
    cbn [List.length] in Hn.
    destruct (bytesmode f && rawmode f && remode f && cmode f); [exact Hf|].
    destruct (is_letter "b" "B" quote); [apply IH; [lia|exact Hf]|].
    destruct (is_letter "u" "U" quote); [apply IH; [lia|exact Hf]|].
    destruct (is_letter "r" "R" quote).
    { destruct l1 as [|quote' l2]; [apply IH; [cbn; lia|reflexivity]|].
      cbn [List.length] in Hn.
      destruct (is_letter "e" "E" quote'); apply IH;
        try (cbn [List.length]; lia); reflexivity. }
    destruct (is_letter "f" "F" quote); [apply IH; [lia|exact Hf]|].
    destruct (is_letter "c" "C" quote); [apply IH; [lia|reflexivity]|].
    exact Hf.
Qed.

Lemma scan_prefix_re_raw (buf : cstring) :
  remode (snd (scan_prefix buf)) = true ->
  rawmode (snd (scan_prefix buf)) = true.
Proof.
  unfold scan_prefix. destruct (Py_ISALPHA (peek buf 0)).
  - apply (@prefix_loop_re_raw (List.length buf)); [lia|discriminate].
  - discriminate.
Qed.

(** The byte at the end of a C string is the NUL, which is no quote. *)
Lemma no_quote_at_end (buf : cstring) (quote : ascii) (s : nat) :
  quote = SQUOTE \/ quote = DQUOTE ->
  List.length buf <= s ->
  (peek buf s =? quote)%char = false.
Proof.
  intros Hquote Hs. unfold peek. rewrite nth_overflow by exact Hs.
  destruct Hquote as [-> | ->]; reflexivity.
Qed.

Section Strip.

Context {RT : Runtime}.

(** After the body of a stripped token that is not a regex come only the
    closing quotes. *)
Lemma strip_tail (p : Parser) (t : Token) (x : Stripped) :
  parsestr_strip p t = Ok x ->
  st_flags x = snd (scan_prefix (bytes t)) /\
  (remode (st_flags x) = false ->
   Forall (fun c => c = SQUOTE \/ c = DQUOTE)
     (skipn (st_s x + st_len x) (bytes t))).
Proof.
  unfold parsestr_strip.
  destruct (scan_prefix (bytes t)) as [s0 f]. cbn [snd].
  set (quote := peek (bytes t) s0).
  assert (Hquote : negb (quote =? SQUOTE)%char && negb (quote =? DQUOTE)%char
                   = false -> quote = SQUOTE \/ quote = DQUOTE).
  { destruct (quote =? SQUOTE)%char eqn:E1;
      [apply Ascii.eqb_eq in E1; auto|].
    destruct (quote =? DQUOTE)%char eqn:E2;
      [apply Ascii.eqb_eq in E2; auto|discriminate]. }
  destruct (if (quote =? SQUOTE)%char
            then if fmode f || bytesmode f || rawmode f || remode f || cmode f
                 then Err (SyntaxError "characters cannot have a prefix")
                 else Ok true
            else Ok false) as [is_char|]; [|discriminate].
  cbn [bind].
  destruct (fmode f && (feature_version p <? 6)%Z); [discriminate|].
  destruct (fmode f && bytesmode f); [discriminate|].
  destruct (negb (quote =? SQUOTE)%char && negb (quote =? DQUOTE)%char)
    eqn:Eq; [discriminate|].
  specialize (Hquote eq_refl).
  destruct (INT_MAX <? Z.of_nat (List.length (bytes t) - S s0))%Z;
    [discriminate|].
  destruct (remode f) eqn:Ere.
  - destruct (reflags_loop (bytes t) (S s0) quote
                (List.length (bytes t) - S s0)) as [len'|]; [|discriminate].
    cbn [bind]. destruct len' as [|len].
    { repeat match goal with
             | |- (if ?b then _ else _) = _ -> _ => destruct b
             end;
        intros E; try discriminate; injection E as <-; cbn [st_flags];
        (split; [reflexivity|]); intros Hre; congruence. }
    destruct (negb (peek (bytes t) (S s0 + len) =? quote)%char);
      [discriminate|].
    match goal with
    | |- bind ?c _ = _ -> _ => destruct c as [[s1 len1]|]; [|discriminate]
    end.
    cbn [bind]. intros E. injection E as <-. cbn [st_flags].
    split; [reflexivity|]. intros Hre. congruence.
  - cbn [bind].
    destruct (List.length (bytes t) - S s0) as [|len] eqn:Elen.
    { rewrite (@no_quote_at_end (bytes t) quote (S s0) Hquote) by lia.
      rewrite andb_false_r. cbn [andb].
      destruct (negb (peek (bytes t) (S s0 - 1) =? quote)%char);
        [discriminate|].
      intros E. injection E as <-. cbn [st_flags st_s st_len].
      split; [reflexivity|]. intros _.
      rewrite skipn_all2 by lia. apply Forall_nil. }
    destruct (negb (peek (bytes t) (S s0 + len) =? quote)%char) eqn:Elast;
      [discriminate|].
    apply negb_false_iff, Ascii.eqb_eq in Elast.
    assert (Hlast : skipn (S s0 + len) (bytes t) = [quote]).
    { rewrite skipn_peek by lia. rewrite Elast, skipn_all2 by lia.
      reflexivity. }
    destruct ((4 <=? len) && (peek (bytes t) (S s0) =? quote)%char
              && (peek (bytes t) (S (S s0)) =? quote)%char) eqn:Etriple.
    + destruct is_char; [discriminate|].
      destruct (negb (peek (bytes t) (S s0 + 2 + (len - 2 - 1)) =? quote)%char
                || negb (peek (bytes t) (S s0 + 2 + (len - 2 - 2))
                         =? quote)%char) eqn:Eend; [discriminate|].
      cbn [bind]. intros E. injection E as <-.
      cbn [st_flags st_s st_len].
      split; [reflexivity|]. intros _.
      apply andb_prop in Etriple. destruct Etriple as [Etriple _].
      apply andb_prop in Etriple. destruct Etriple as [Hlen _].
      apply Nat.leb_le in Hlen.
      apply orb_false_elim in Eend. destruct Eend as [E1 E2].
      apply negb_false_iff, Ascii.eqb_eq in E1.
      apply negb_false_iff, Ascii.eqb_eq in E2.
      replace (S s0 + 2 + (len - 2 - 1)) with (S (S s0 + len - 2)) in E1
        by lia.
      replace (S s0 + 2 + (len - 2 - 2)) with (S s0 + len - 2) in E2 by lia.
      match goal with
      | |- Forall _ (skipn ?k _) =>
          replace k with (S s0 + len - 2) by lia
      end.
      rewrite skipn_peek by lia. rewrite E2.
      rewrite skipn_peek by lia. rewrite E1.
      replace (S (S (S s0 + len - 2))) with (S s0 + len) by lia.
      rewrite Hlast. repeat (apply Forall_cons; [exact Hquote|]).
      apply Forall_nil.
    + cbn [bind]. intros E. injection E as <-.
      cbn [st_flags st_s st_len].
      split; [reflexivity|]. intros _.
      rewrite Hlast. repeat (apply Forall_cons; [exact Hquote|]).
      apply Forall_nil.
Qed.

End Strip.

Lemma skipn_slice (buf : cstring) (s len : nat) :
  skipn s buf = slice buf s len ++ skipn (s + len) buf.
Proof.
  unfold slice. rewrite Nat.add_comm, <- skipn_skipn.
  symmetry. apply firstn_skipn.
Qed.

Lemma strchr_null (s : cstring) :
  ~ In BACKSLASH s -> strchr_is_null BACKSLASH s = true.
Proof.
  intros H. unfold strchr_is_null. apply negb_true_iff.
  apply not_true_is_false. intros E. apply existsb_exists in E.
  destruct E as [c [Hin Hc]]. apply Ascii.eqb_eq in Hc. subst c.
  exact (H Hin).
Qed.

(** C10 (amended): a successful call of [_Mys_PyPegen_parsestr] on a token
    that is not an f-string and whose stripped body holds no backslash
    reports the raw flag as set, with or without an [r] or [c] prefix; its
    value is the body itself in bytes mode and the UTF-8 decoding of the
    body otherwise; and the decoding with escapes of that body gives the
    same value, in bytes mode always and otherwise when the decoder with
    escapes gets its buffer: the body has at most [SIZE_MAX / 6] bytes and
    [PyBytes_FromStringAndSize] makes the object of six times as many,
    which it does not when that size is above [PY_SSIZE_T_MAX]
    ([scratch_buffer_size]). *)
Theorem plain_body_is_decoded_raw `{RuntimeLaws} (p : Parser) (t : Token)
    (x : Stripped) (out : parsestr_out) :
  parsestr_strip p t = Ok x ->
  fmode (st_flags x) = false ->
  ~ In BACKSLASH (body_of t x) ->
  _Mys_PyPegen_parsestr p t = Ok out ->
  rawmode (o_flags out) = true
  /\ exists v,
       o_result out = Some v
       /\ (if bytesmode (st_flags x) then v = PyBytes (body_of t x)
           else exists u,
                  PyUnicode_DecodeUTF8 (body_of t x) = Some u
                  /\ v = PyUnicode u)
       /\ (bytesmode (st_flags x) = true
           \/ scratch_buffer (List.length (body_of t x)) ->
           escape_path (bytesmode (st_flags x)) (body_of t x) = Ok v).
Proof.
  intros Hstrip Hf Hbody. unfold _Mys_PyPegen_parsestr.
  rewrite Hstrip. cbn [bind]. unfold parsestr_decode. rewrite Hf.
  destruct (strip_tail _ _ Hstrip) as [Hflags Htail].
  assert (Hraw : rawmode (st_flags x)
                 || strchr_is_null BACKSLASH (skipn (st_s x) (bytes t))
                 = true).
  { destruct (remode (st_flags x)) eqn:Ere.
    - rewrite Hflags in Ere |- *.
      rewrite (scan_prefix_re_raw _ Ere). reflexivity.
    - apply orb_true_iff. right. apply strchr_null.
      rewrite (skipn_slice _ _ (st_len x)). intros Hin.
      apply in_app_or in Hin. destruct Hin as [Hin|Hin]; [exact (Hbody Hin)|].
      specialize (Htail eq_refl). rewrite Forall_forall in Htail.
      destruct (Htail _ Hin); discriminate. }
  rewrite Hraw. fold (body_of t x).
  change (bytesmode (set_raw (st_flags x))) with (bytesmode (st_flags x)).
  destruct (bytesmode (st_flags x)) eqn:Eb.
  - destruct (existsb charmask_ge_0x80 (skipn (st_s x) (bytes t)));
      [discriminate|].
    destruct (PyBytes_FromStringAndSize (as_ssize_t (Z.of_nat (st_len x))));
      [|discriminate].
    cbn [bind]. intros E. injection E as <-. cbn [o_flags o_result].
    split; [reflexivity|]. eexists. split; [reflexivity|].
    split; [reflexivity|]. intros _.
    unfold escape_path, decode_bytes_with_escapes.
    rewrite bytes_plain by exact Hbody. reflexivity.
  - destruct (as_ssize_t (Z.of_nat (st_len x)) <? 0)%Z eqn:Eneg.
    { apply Z.ltb_lt in Eneg. rewrite (utf8_negative _ _ Eneg).
      discriminate. }
    destruct (PyUnicode_DecodeUTF8 (body_of t x)) as [u|] eqn:Eu;
      [|discriminate].
    cbn [bind or_raised]. intros E. injection E as <-.
    cbn [o_flags o_result].
    split; [reflexivity|]. eexists. split; [reflexivity|].
    split; [exists u; auto|]. intros [Hlen|Hlen]; [discriminate|].
    unfold escape_path.
    rewrite (decode_with_escapes_plain _ Hlen Hbody Eu). reflexivity.
Qed.

(** A plain string without a prefix. *)
Lemma plain_body_is_decoded_raw_witness :
  rawmode
    {| bytesmode := false; rawmode := true; remode := false;
       cmode := false; fmode := false |} = true
  /\ exists v,
       Some (PyUnicode (codes (str "abc"))) = Some v
       /\ (exists u,
             Ref.DecodeUTF8 (str "abc") = Some u /\ v = PyUnicode u)
       /\ (false = true
           \/ scratch_buffer (RT := lp64) (List.length (str "abc")) ->
           escape_path (RT := lp64) false (str "abc") = Ok v).
Proof.
  apply (@plain_body_is_decoded_raw lp64 lp64_laws (parser 8)
           (token (quoted "" "abc"))
           {| st_flags := no_flags; st_is_char := false; st_s := 1;
              st_len := 3; st_reflags := None |}
           {| o_flags := set_raw no_flags; o_is_char := false;
              o_result := Some (PyUnicode (codes (str "abc")));
              o_fstr := None; o_reflags := None |}).
  - reflexivity.
  - reflexivity.
  - cbn. intros [E|[E|[E|[]]]]; discriminate.
  - reflexivity.
Defined.

Section LongText.

Context {RT : Runtime} {L : RuntimeLaws RT}.

Lemma strip_plain (p : Parser) (body : cstring) :
  ~ In DQUOTE body ->
  (Z.of_nat (S (List.length body)) <= INT_MAX)%Z ->
  parsestr_strip p (token (DQUOTE :: body ++ [DQUOTE]))
  = Ok {| st_flags := no_flags; st_is_char := false; st_s := 1;
          st_len := List.length body; st_reflags := None |}.
Proof.
  intros Hq Hlen.
  set (buf := DQUOTE :: body ++ [DQUOTE]).
  assert (H0 : peek buf 0 = DQUOTE) by reflexivity.
  assert (Hbuf : List.length buf - 1 = S (List.length body)).
  { unfold buf. cbn [List.length]. rewrite length_app. cbn [List.length].
    lia. }
  assert (Hlast : peek buf (1 + List.length body) = DQUOTE).
  { unfold buf. change (peek (DQUOTE :: body ++ [DQUOTE])
                          (1 + List.length body))
      with (peek (body ++ [DQUOTE]) (List.length body)).
    rewrite peek_app0. reflexivity. }
  assert (Et : (4 <=? List.length body) && (peek buf 1 =? DQUOTE)%char
               && (peek buf 2 =? DQUOTE)%char = false).
  { unfold buf. destruct body as [|c body]; [reflexivity|].
    cbn [peek nth app].
    replace ((c =? DQUOTE)%char) with false.
    - apply andb_false_iff. left. apply andb_false_r.
    - symmetry. apply Ascii.eqb_neq. intros ->. apply Hq. left. reflexivity. }
  assert (E : (INT_MAX <? Z.of_nat (S (List.length body)))%Z = false)
    by (apply Z.ltb_ge; exact Hlen).
  unfold parsestr_strip, scan_prefix.
  change (bytes (token buf)) with buf.
  rewrite H0. change (Py_ISALPHA DQUOTE) with false. cbn iota.
  rewrite H0.
  cbn [fmode bytesmode rawmode remode cmode no_flags andb orb].
  change ((DQUOTE =? SQUOTE)%char) with false.
  change ((DQUOTE =? DQUOTE)%char) with true.
  cbn [negb andb bind]. rewrite Hbuf, E. cbn [bind].
  rewrite Hlast. change ((DQUOTE =? DQUOTE)%char) with true. cbn [negb].
  rewrite Et. reflexivity.
Qed.

Lemma repeat_ascii (c : ascii) (n : nat) :
  high_bit c = false ->
  PyUnicode_DecodeUTF8 (repeat c n) = Some (repeat (N_of_ascii c) n).
Proof.
  intros Hc. induction n as [|n IH]; [apply utf8_nil|].
  cbn [repeat]. rewrite utf8_ascii, IH by exact Hc. reflexivity.
Qed.

(** A text of letters [a] in double quotes for which the decoder with
    escapes does not get its buffer: the token is decoded, and the
    decoding with escapes of its body fails. *)
Lemma long_plain_text (p : Parser) (n : nat) :
  (Z.of_nat n <= SIZE_MAX / 6)%Z ->
  PyBytes_FromStringAndSize (as_ssize_t (Z.of_nat n * 6)) = false ->
  (Z.of_nat n <= PY_SSIZE_T_MAX)%Z ->
  (Z.of_nat (S n) <= INT_MAX)%Z ->
  _Mys_PyPegen_parsestr p (token (DQUOTE :: repeat "a"%char n ++ [DQUOTE]))
  = Ok {| o_flags := set_raw no_flags; o_is_char := false;
          o_result := Some (PyUnicode (repeat 97%N n)); o_fstr := None;
          o_reflags := None |}
  /\ (exists x,
        parsestr_strip p (token (DQUOTE :: repeat "a"%char n ++ [DQUOTE]))
        = Ok x
        /\ fmode (st_flags x) = false
        /\ body_of (token (DQUOTE :: repeat "a"%char n ++ [DQUOTE])) x
           = repeat "a"%char n)
  /\ ~ In BACKSLASH (repeat "a"%char n)
  /\ escape_path false (repeat "a"%char n) = Err Raised.
Proof.
  intros Hsize Halloc Hssize Hint.
  assert (Hbs : forall c, c <> "a"%char -> ~ In c (repeat "a"%char n)).
  { intros c Hc Hin. apply repeat_spec in Hin. congruence. }
  assert (Hslice :
    slice (DQUOTE :: repeat "a"%char n ++ [DQUOTE]) 1
      (List.length (repeat "a"%char n)) = repeat "a"%char n).
  { change (slice (DQUOTE :: repeat "a"%char n ++ [DQUOTE]) 1
              (List.length (repeat "a"%char n)))
      with (slice ([DQUOTE] ++ repeat "a"%char n ++ [DQUOTE])
              (List.length [DQUOTE]) (List.length (repeat "a"%char n))).
    apply slice_app. }
  split; [|split; [|split]].
  2:{ eexists. split; [|split].
      - apply strip_plain;
          first [ apply Hbs; discriminate
                | rewrite repeat_length; exact Hint ].
      - reflexivity.
      - unfold body_of. cbn [st_s st_len bytes token]. exact Hslice. }
  - unfold _Mys_PyPegen_parsestr.
    rewrite strip_plain
      by first [ apply Hbs; discriminate
               | rewrite repeat_length; exact Hint ].
    cbn [bind]. unfold parsestr_decode.
    cbn [st_flags st_s st_len st_is_char st_reflags fmode rawmode no_flags
         bytes token orb skipn].
    rewrite strchr_null.
    2:{ intros Hin. apply in_app_or in Hin.
        destruct Hin as [Hin|[Hin|[]]]; [|discriminate].
        revert Hin. apply Hbs. discriminate. }
    cbn [bytesmode set_raw no_flags].
    assert (Epos : (as_ssize_t (Z.of_nat (List.length (repeat "a"%char n)))
                    <? 0)%Z = false).
    { rewrite repeat_length. unfold as_ssize_t.
      replace (PY_SSIZE_T_MAX <? Z.of_nat n)%Z with false
        by (symmetry; apply Z.ltb_ge; exact Hssize).
      apply Z.ltb_ge. lia. }
    rewrite Epos, Hslice, repeat_ascii by reflexivity.
    reflexivity.
  - apply Hbs. discriminate.
  - unfold escape_path, decode_unicode_with_escapes.
    rewrite repeat_length.
    replace (SIZE_MAX / 6 <? Z.of_nat n)%Z with false
      by (symmetry; apply Z.ltb_ge; exact Hsize).
    rewrite Halloc. reflexivity.
Qed.

End LongText.

(** With a 32-bit [size_t], for a body of 357913942 letters the buffer of
    the decoder with escapes would have 2147483652 bytes, which is above
    [PY_SSIZE_T_MAX] and a negative size: the body is decoded on the
    fast path, and refused by the decoding with escapes. *)
Lemma long_plain_text_differs_on_32_bits :
  _Mys_PyPegen_parsestr (RT := ilp32) (parser 8)
    (token (DQUOTE :: repeat "a"%char (N.to_nat 357913942) ++ [DQUOTE]))
  = Ok {| o_flags := set_raw no_flags; o_is_char := false;
          o_result :=
            Some (PyUnicode (repeat 97%N (N.to_nat 357913942)));
          o_fstr := None; o_reflags := None |}
  /\ (exists x,
        parsestr_strip (RT := ilp32) (parser 8)
          (token (DQUOTE :: repeat "a"%char (N.to_nat 357913942)
                    ++ [DQUOTE]))
        = Ok x
        /\ fmode (st_flags x) = false
        /\ body_of
             (token (DQUOTE :: repeat "a"%char (N.to_nat 357913942)
                       ++ [DQUOTE])) x
           = repeat "a"%char (N.to_nat 357913942))
  /\ ~ In BACKSLASH (repeat "a"%char (N.to_nat 357913942))
  /\ escape_path (RT := ilp32) false (repeat "a"%char (N.to_nat 357913942))
     = Err Raised.
Proof.
  apply (@long_plain_text ilp32 ilp32_laws).
  - rewrite N_nat_Z. discriminate.
  - rewrite N_nat_Z. reflexivity.
  - rewrite N_nat_Z. discriminate.
  - rewrite Nat2Z.inj_succ, N_nat_Z. discriminate.
Qed.

(** * The bounds of the loops

    The loops of the code are recursions on a bound here.  The bounds are
    never reached: every loop moves its cursor forward, and the recursion
    on format specs stops at level 2. *)

Lemma within_bounds_impl {A} (P Q : A -> Prop) (r : result A) :
  (forall a, P a -> Q a) -> within_bounds P r -> within_bounds Q r.
Proof. destruct r; cbn; auto. Qed.

Lemma within_bounds_bind {A B} (P : A -> Prop) (Q : B -> Prop)
    (r : result A) (k : A -> result B) :
  within_bounds P r ->
  (forall a, P a -> within_bounds Q (k a)) ->
  within_bounds Q (bind r k).
Proof. destruct r; cbn; auto. Qed.

Section Bounds.

Context {RT : Runtime}.

Lemma span_high_length (s : cstring) :
  List.length (snd (span_high s)) <= List.length s.
Proof.
  induction s as [|c s IH]; [cbn; lia|].
  cbn [span_high]. destruct (high_bit c); [|cbn; lia].
  destruct (span_high s) as [run rest]. cbn [snd List.length] in *. lia.
Qed.

Lemma escapes_loop_bound (fuel : nat) :
  forall s p top,
    List.length s <= fuel ->
    within_bounds (fun _ => True) (fst (escapes_loop fuel s p top)).
Proof.
  induction fuel as [|fuel IH]; intros s p top Hlen.
  - destruct s; [exact I|cbn in Hlen; lia].
  - assert (Hsecond : forall s' p' top',
      List.length s' <= S fuel ->
      within_bounds (fun _ => True)
        (fst match s' with
             | [] => (Ok p', top')
             | c :: s'' =>
                 if high_bit c then
                   let '(w, rest) := decode_utf8 s' in
                   match w with
                   | None => (Err Raised, top')
                   | Some w =>
                       let '(p0, top0) := sprintf_loop w p' top' in
                       escapes_loop fuel rest p0 top0
                   end
                 else
                   escapes_loop fuel s'' (p' ++ [c])
                     (Nat.max top' (List.length p' + 1))
             end)).
    { intros s' p' top' Hl. destruct s' as [|c s'']; [exact I|].
      destruct (high_bit c) eqn:Eh.
      - unfold decode_utf8.
        pose proof (span_high_length s'') as Hs.
        cbn [span_high]. rewrite Eh.
        destruct (span_high s'') as [run rest]. cbn [snd] in Hs.
        destruct (PyUnicode_DecodeUTF8 (c :: run)) as [w|]; [|discriminate].
        destruct (sprintf_loop w p' top') as [p0 top0].
        apply IH. cbn [List.length] in Hl. lia.
      - apply IH. cbn [List.length] in Hl. lia. }
    destruct s as [|c s1]; [exact I|].
    cbn [escapes_loop]. destruct (c =? BACKSLASH)%char.
    + destruct s1 as [|c1 s2]; [exact I|].
      apply (Hsecond (c1 :: s2)). cbn [List.length] in *. lia.
    + apply (Hsecond (c :: s1)). exact Hlen.
Qed.

Lemma decode_unicode_with_escapes_bound (s : cstring) :
  within_bounds (fun _ => True) (decode_unicode_with_escapes s).
Proof.
  unfold decode_unicode_with_escapes.
  destruct (SIZE_MAX / 6 <? Z.of_nat (List.length s))%Z; [discriminate|].
  destruct (negb (PyBytes_FromStringAndSize
                    (as_ssize_t (Z.of_nat (List.length s) * 6))));
    [discriminate|].
  apply within_bounds_bind with (P := fun _ => True).
  - apply escapes_loop_bound. lia.
  - intros buf _. destruct (PyUnicode_DecodeUnicodeEscape buf);
      [exact I|discriminate].
Qed.

Lemma decode_literal_bound (raw : bool) (s : cstring) :
  within_bounds (fun _ => True) (decode_literal raw s).
Proof.
  unfold decode_literal. destruct raw.
  - destruct (PyUnicode_DecodeUTF8 s); [exact I|discriminate].
  - apply decode_unicode_with_escapes_bound.
Qed.

Variables (buf : cstring) (end_ : nat).

Lemma skip_name_ge (fuel : nat) :
  forall s, s <= skip_name fuel buf end_ s.
Proof.
  induction fuel as [|fuel IH]; intros s; [cbn; lia|].
  cbn [skip_name]. destruct (s <? end_); [|lia].
  destruct (peek buf s =? RBRACE)%char; [lia|].
  specialize (IH (S s)). lia.
Qed.

Lemma literal_loop_bound (raw : bool) (recurse_lvl : Z) (t : Token)
    (fuel : nat) :
  forall s,
    end_ - s < fuel ->
    within_bounds (literal_progress s)
      (literal_loop buf end_ raw recurse_lvl t fuel s).
Proof.
  induction fuel as [|fuel IH]; intros s Hfuel; [lia|].
  assert (Hrec : forall s', s < s' -> s < end_ ->
            within_bounds (literal_progress s)
              (literal_loop buf end_ raw recurse_lvl t fuel s')).
  { intros s' Hs Hend.
    apply within_bounds_impl with (P := literal_progress s'); [|apply IH; lia].
    intros [[status x] str]. unfold literal_progress. lia. }
  assert (Hbraces : forall ch s', s < s' -> s < end_ ->
            within_bounds (literal_progress s)
              (if (ch =? LBRACE)%char || (ch =? RBRACE)%char then
                 if (recurse_lvl =? 0)%Z then
                   if (s' <? end_) && (peek buf s' =? ch)%char then
                     Ok (1%Z, s', S s')
                   else if (ch =? RBRACE)%char then
                     Err (SyntaxError "f-string: single '}' is not allowed")
                   else Ok (0%Z, s' - 1, s' - 1)
                 else Ok (0%Z, s' - 1, s' - 1)
               else literal_loop buf end_ raw recurse_lvl t fuel s')).
  { intros ch s' Hs Hend.
    destruct ((ch =? LBRACE)%char || (ch =? RBRACE)%char);
      [|apply Hrec; assumption].
    destruct (recurse_lvl =? 0)%Z; [|cbn; lia].
    destruct ((s' <? end_) && (peek buf s' =? ch)%char); [cbn; lia|].
    destruct (ch =? RBRACE)%char; [discriminate|cbn; lia]. }
  cbn [literal_loop].
  destruct (s <? end_) eqn:Es; [|cbn; lia].
  apply Nat.ltb_lt in Es.
  destruct (negb raw && (peek buf s =? BACKSLASH)%char && (S s <? end_)).
  - destruct (peek buf (S s) =? "N")%char.
    + destruct (S (S s) <? end_); [|cbn; lia].
      destruct (peek buf (S (S s)) =? LBRACE)%char; [|cbn; lia].
      apply Hrec; [|exact Es].
      pose proof (skip_name_ge end_ (S (S (S s)))). lia.
    + assert (Hb := Hbraces (peek buf (S s)) (S (S s)) ltac:(lia) Es).
      destruct (peek buf (S s) =? LBRACE)%char; [|exact Hb].
      apply within_bounds_bind with (P := fun _ => True).
      * unfold warn_invalid_escape_sequence.
        destruct (PyErr_WarnExplicitObject _ _); cbn;
          [exact I|discriminate|discriminate].
      * intros _ _. exact Hb.
  - apply (Hbraces (peek buf s) (S s)); [lia|exact Es].
Qed.

Lemma fstring_find_literal_bound (raw : bool) (recurse_lvl : Z) (t : Token)
    (str : nat) :
  within_bounds
    (fun '(status, str', _) => str <= str' /\ (status = 1%Z -> str < str'))
    (fstring_find_literal buf end_ raw recurse_lvl t str).
Proof.
  unfold fstring_find_literal.
  apply within_bounds_bind with (P := literal_progress str).
  - apply literal_loop_bound. lia.
  - intros [[status s] str'] Hp. unfold fstring_find_literal_tail.
    destruct (negb (str =? s)); [|exact Hp].
    apply within_bounds_bind with (P := fun _ => True).
    + apply decode_literal_bound.
    + intros literal _. exact Hp.
Qed.

Lemma expr_step_fail (st : ExprScan) (e : PyErr) :
  expr_step buf end_ st = Fail e -> e <> OutOfFuel.
Proof.
  unfold expr_step.
  repeat match goal with
         | |- context [if ?b then _ else _] => destruct b
         | |- context [match parenstack st with _ => _ end] =>
             destruct (parenstack st)
         end;
    intros E; inversion E; discriminate.
Qed.

Lemma expr_loop_bound (fuel : nat) :
  forall st,
    end_ - cursor st < fuel ->
    within_bounds (fun st' => cursor st <= cursor st')
      (expr_loop fuel buf end_ st).
Proof.
  induction fuel as [|fuel IH]; intros st Hfuel; [lia|].
  cbn [expr_loop]. destruct (cursor st <? end_) eqn:Es; [|cbn; lia].
  apply Nat.ltb_lt in Es.
  destruct (expr_step buf end_ st) as [st'| |e] eqn:Estep.
  - apply expr_step_cursor in Estep.
    apply within_bounds_impl
      with (P := fun st'' => cursor (advance st') <= cursor st'').
    + cbn [advance cursor]. intros. lia.
    + apply IH. cbn [advance cursor]. lia.
  - cbn. lia.
  - cbn. apply (expr_step_fail _ Estep).
Qed.

Lemma skip_space_ge (fuel : nat) :
  forall str, str <= skip_space fuel buf str.
Proof.
  induction fuel as [|fuel IH]; intros str; [cbn; lia|].
  cbn [skip_space]. destruct (Py_ISSPACE (peek buf str)); [|lia].
  specialize (IH (S str)). lia.
Qed.

Lemma fstring_compile_expr_bound (p : Parser) (a b : nat) (t : Token) :
  within_bounds (fun _ => True) (fstring_compile_expr p buf a b t).
Proof.
  unfold fstring_compile_expr.
  destruct (blank_loop _); [discriminate|].
  destruct (fstring_find_expr_location _ _).
  destruct (run_parser _ _ _ _ _); [exact I|discriminate].
Qed.

(** The two inner loops that carry a bound stop where the code's loops
    stop. *)
Lemma skip_space_stops (fuel : nat) :
  forall str,
    List.length buf - str < fuel ->
    Py_ISSPACE (peek buf (skip_space fuel buf str)) = false.
Proof.
  induction fuel as [|fuel IH]; intros str Hfuel; [lia|].
  cbn [skip_space]. destruct (Py_ISSPACE (peek buf str)) eqn:E; [|exact E].
  apply IH.
  destruct (Nat.lt_ge_cases str (List.length buf)) as [Hlt|Hge]; [lia|].
  unfold peek in E. rewrite nth_overflow in E by exact Hge. discriminate.
Qed.

Lemma skip_name_stops (fuel : nat) :
  forall s,
    end_ - s < fuel ->
    let s' := skip_name fuel buf end_ s in
    end_ <= s' \/ (s < s' /\ peek buf (s' - 1) = RBRACE).
Proof.
  induction fuel as [|fuel IH]; intros s Hfuel; [lia|].
  cbn [skip_name]. destruct (s <? end_) eqn:Es.
  - apply Nat.ltb_lt in Es.
    destruct (peek buf s =? RBRACE)%char eqn:Ec.
    + right. apply Ascii.eqb_eq in Ec. cbn. rewrite Nat.sub_0_r. auto with arith.
    + destruct (IH (S s) ltac:(lia)) as [Hend|[Hlt Hc]]; [left; exact Hend|].
      right. split; [lia|exact Hc].
  - apply Nat.ltb_ge in Es. left. exact Es.
Qed.

Section FindExprBounds.

Variables (p : Parser) (raw : bool) (first_token t last_token : Token).
Variable parse_spec : nat -> Z -> result (expr_ty * nat).
Variable recurse_lvl : Z.

Hypothesis parse_spec_bound :
  (recurse_lvl < 2)%Z ->
  forall s, within_bounds (fun r => s <= snd r)
              (parse_spec s (recurse_lvl + 1)%Z).

Lemma fstring_find_expr_bound (str : nat) :
  within_bounds (fun '(str', _, _) => str < str')
    (fstring_find_expr p buf end_ first_token t last_token parse_spec
       str recurse_lvl).
Proof.
  unfold fstring_find_expr.
  destruct (2 <=? recurse_lvl)%Z eqn:Elvl; [discriminate|].
  apply Z.leb_gt in Elvl.
  apply within_bounds_bind
    with (P := fun st => cursor (scan_start (S str)) <= cursor st).
  { apply expr_loop_bound. cbn. lia. }
  intros st Hst. cbn [scan_start cursor] in Hst.
  destruct (negb (quote_char st =? NUL)%char); [discriminate|].
  destruct (parenstack st); [|discriminate].
  destruct (end_ <=? cursor st); [discriminate|].
  apply within_bounds_bind with (P := fun _ => True).
  { apply fstring_compile_expr_bound. }
  intros simple_expression _.
  apply within_bounds_bind
    with (P := fun r : nat * option unicode => str < fst r).
  { destruct (peek buf (cursor st) =? "=")%char; [|cbn; lia].
    destruct (feature_version p <? 8)%Z; [discriminate|].
    destruct (PyUnicode_DecodeUTF8 _); [|discriminate].
    cbn. pose proof (skip_space_ge (List.length buf) (S (cursor st))). lia. }
  intros [str1 expr_text] H1. cbn [fst] in H1.
  apply within_bounds_bind with (P := fun r : nat * Z => str < fst r).
  { destruct (peek buf str1 =? "!")%char; [|cbn; lia].
    destruct (end_ <=? S str1); [discriminate|].
    destruct (negb _); [discriminate|cbn; lia]. }
  intros [str2 conversion] H2. cbn [fst] in H2.
  destruct (end_ <=? str2); [discriminate|].
  apply within_bounds_bind
    with (P := fun r : nat * option expr_ty => str < fst r).
  { destruct (peek buf str2 =? ":")%char; [|cbn; lia].
    destruct (end_ <=? S str2); [discriminate|].
    apply within_bounds_bind with (P := fun r => S str2 <= snd r).
    - apply parse_spec_bound. exact Elvl.
    - intros [spec str3] H3. cbn in *. lia. }
  intros [str3 format_spec] H3. cbn [fst] in H3.
  destruct ((end_ <=? str3) || negb (peek buf str3 =? RBRACE)%char);
    [discriminate|].
  cbn. lia.
Qed.

Lemma literal_loop_inside (fuel : nat) :
  forall s status s' str',
    literal_loop buf end_ raw recurse_lvl t fuel s = Ok (status, s', str') ->
    status = 1%Z -> s < end_.
Proof.
  destruct fuel as [|fuel]; intros s status s' str' E Hs; [discriminate|].
  cbn [literal_loop] in E.
  destruct (s <? end_) eqn:Es; [apply Nat.ltb_lt in Es; exact Es|].
  inversion E; subst; discriminate.
Qed.

Lemma fstring_find_literal_and_expr_bound (str : nat) :
  within_bounds (round_progress end_ str)
    (fstring_find_literal_and_expr p buf end_ raw first_token t last_token
       parse_spec str recurse_lvl).
Proof.
  unfold fstring_find_literal_and_expr, fstring_find_literal.
  destruct (literal_loop buf end_ raw recurse_lvl t (S (end_ - str)) str)
    as [[[status s] str']|e] eqn:Eloop.
  2:{ pose proof (@literal_loop_bound raw recurse_lvl t (S (end_ - str)) str
                    ltac:(lia)) as Hb.
      rewrite Eloop in Hb. exact Hb. }
  pose proof (@literal_loop_bound raw recurse_lvl t (S (end_ - str)) str
                ltac:(lia)) as Hb.
  rewrite Eloop in Hb. cbn in Hb. destruct Hb as [Hle Hlt].
  cbn [bind]. unfold fstring_find_literal_tail.
  assert (Hrest : forall literal,
    within_bounds (round_progress end_ str)
      (if (status =? 1)%Z then Ok (1%Z, str', literal, None, None)
       else if (end_ <=? str') || (peek buf str' =? RBRACE)%char
       then Ok (0%Z, str', literal, None, None)
       else
         do (str0, expr_text, expression) <-
           fstring_find_expr p buf end_ first_token t last_token parse_spec
             str' recurse_lvl;
         Ok (0%Z, str0, literal, expr_text, Some expression))).
  { intros literal. destruct (status =? 1)%Z eqn:E1.
    - apply Z.eqb_eq in E1. cbn. split; [exact Hle|].
      intros _. split; [|auto].
      apply (literal_loop_inside _ _ Eloop E1).
    - destruct ((end_ <=? str') || (peek buf str' =? RBRACE)%char) eqn:E2.
      + cbn. split; [exact Hle|]. intros [Hc|Hc]; [discriminate|congruence].
      + apply orb_false_iff in E2. destruct E2 as [E2 _].
        apply Nat.leb_gt in E2.
        apply within_bounds_bind with (P := fun '(str0, _, _) => str' < str0).
        * apply fstring_find_expr_bound.
        * intros [[str0 expr_text] expression] H0. cbn. lia. }
  destruct (negb (str =? s)).
  - pose proof (decode_literal_bound raw (slice buf str (s - str))) as Hd.
    destruct (decode_literal raw (slice buf str (s - str))) as [literal|e];
      cbn [bind]; [apply Hrest|exact Hd].
  - cbn [bind]. apply Hrest.
Qed.

Lemma concat_loop_bound (fuel : nat) :
  forall state str,
    end_ - str < fuel ->
    within_bounds (fun r => str <= snd r)
      (concat_loop p buf end_ raw recurse_lvl first_token t last_token
         parse_spec fuel state str).
Proof.
  induction fuel as [|fuel IH]; intros state str Hfuel; [lia|].
  cbn [concat_loop].
  apply within_bounds_bind with (P := round_progress end_ str).
  { apply fstring_find_literal_and_expr_bound. }
  intros [[[[result str'] literal] expr_text] expression] [Hle Hlt].
  assert (Hrec : forall state',
    result = 1%Z \/ expression <> None ->
    within_bounds (fun r => str <= snd r)
      (concat_loop p buf end_ raw recurse_lvl first_token t last_token
         parse_spec fuel state' str')).
  { intros state' Hc. destruct (Hlt Hc) as [Hend Hs].
    apply within_bounds_impl with (P := fun r => str' <= snd r).
    - intros r. lia.
    - apply IH. lia. }
  destruct (result =? 1)%Z eqn:E1.
  - apply Hrec. left. apply Z.eqb_eq. exact E1.
  - destruct expression as [expression|]; [|cbn; exact Hle].
    apply Hrec. right. discriminate.
Qed.

Lemma ConcatFstring_with_bound (state : FstringParser) (str : nat) :
  within_bounds (fun r => str <= snd r)
    (ConcatFstring_with p buf end_ raw recurse_lvl first_token t last_token
       parse_spec state str).
Proof.
  unfold ConcatFstring_with.
  apply within_bounds_bind with (P := fun r => str <= snd r).
  { apply concat_loop_bound. lia. }
  intros [state' str'] Hs.
  destruct ((recurse_lvl =? 0)%Z && (str' <? end_ - 1)); [discriminate|].
  destruct (negb (recurse_lvl =? 0)%Z && negb (peek buf str' =? RBRACE)%char);
    [discriminate|exact Hs].
Qed.

End FindExprBounds.

End Bounds.

Section Depth.

Context {RT : Runtime}.

Variables (p : Parser) (buf : cstring) (end_ : nat) (raw : bool)
          (first_token t last_token : Token).

Lemma fstring_parse_rec_bound (depth : nat) :
  forall str recurse_lvl,
    0 < depth ->
    (2 - recurse_lvl < Z.of_nat depth)%Z ->
    within_bounds (fun r => str <= snd r)
      (fstring_parse_rec depth p buf end_ raw first_token t last_token
         str recurse_lvl).
Proof.
  induction depth as [|depth IH]; intros str recurse_lvl Hpos Hd.
  - lia.
  - cbn [fstring_parse_rec].
    apply within_bounds_bind with (P := fun r => str <= snd r).
    + apply ConcatFstring_with_bound.
      intros Hlvl s. apply IH; lia.
    + intros [state str'] Hs. exact Hs.
Qed.

(** The parser of a format spec and the assembler never reach the bounds
    of their loops. *)
Lemma fstring_parse_bound (str : nat) (recurse_lvl : Z) :
  within_bounds (fun r => str <= snd r)
    (fstring_parse p buf end_ raw first_token t last_token str recurse_lvl).
Proof.
  unfold fstring_parse. apply fstring_parse_rec_bound;
    unfold levels_below; lia.
Qed.

Lemma ConcatFstring_bound (state : FstringParser) (str : nat)
    (recurse_lvl : Z) :
  within_bounds (fun r => str <= snd r)
    (_Mys_PyPegen_FstringParser_ConcatFstring p state buf str end_ raw
       recurse_lvl first_token t last_token).
Proof.
  unfold _Mys_PyPegen_FstringParser_ConcatFstring.
  apply ConcatFstring_with_bound.
  intros Hlvl s. apply fstring_parse_rec_bound;
    unfold levels_below; lia.
Qed.

End Depth.

(** The entry point never reaches a bound of the model either. *)
Lemma parsestr_bound `{Runtime} (p : Parser) (t : Token) :
  within_bounds (fun _ => True) (_Mys_PyPegen_parsestr p t).
Proof.
  unfold _Mys_PyPegen_parsestr.
  destruct (parsestr_strip p t) as [x|e] eqn:Estrip; cbn [bind].
  - unfold parsestr_decode.
    destruct (fmode (st_flags x)); [exact I|].
    set (raw := rawmode (st_flags x)
                || strchr_is_null BACKSLASH (skipn (st_s x) (bytes t))).
    set (f := if raw then set_raw (st_flags x) else st_flags x).
    destruct (bytesmode f).
    + destruct (existsb _ _); [discriminate|].
      destruct raw.
      * destruct (PyBytes_FromStringAndSize _); [exact I|discriminate].
      * unfold decode_bytes_with_escapes.
        destruct (_ <? 0)%Z.
        -- destruct (PyBytes_DecodeEscape_negative _ _ _);
             [exact I|discriminate].
        -- destruct (PyBytes_DecodeEscape _); [exact I|discriminate].
    + destruct raw.
      * destruct (_ <? 0)%Z.
        -- destruct (PyUnicode_DecodeUTF8_negative _ _ _);
             [exact I|discriminate].
        -- destruct (PyUnicode_DecodeUTF8 _); [exact I|discriminate].
      * destruct (_ <? _)%Z; [discriminate|].
        pose proof (decode_unicode_with_escapes_bound
                      (slice (bytes t) (st_s x) (st_len x))) as Hd.
        destruct (decode_unicode_with_escapes _); [exact I|exact Hd].
  - unfold parsestr_strip in Estrip. cbn [within_bounds].
    repeat first
      [ discriminate
      | injection Estrip as <-
      | match type of Estrip with
        | context [let '(_, _) := ?x in _] => destruct x
        | context [if ?b then _ else _] => destruct b
        | context [match ?x with _ => _ end] => destruct x
        end
      | progress cbn in Estrip ].
Qed.

(** * Further properties of the code *)

(** ** The assembler: merged strings and the normal form *)

Section AssemblerState.

Context {RT : Runtime}.

Lemma concat_and_del_text (state : FstringParser) (s : unicode) :
  _Mys_PyPegen_FstringParser_ConcatAndDel state s
  = with_last_str state (append_text (last_str state) s).
Proof. apply (concat_opt_some state s). Qed.

Lemma fold_concat_and_del (strs : list unicode) :
  forall state,
    fold_left _Mys_PyPegen_FstringParser_ConcatAndDel strs state
    = with_last_str state (fold_left append_text strs (last_str state)).
Proof.
  induction strs as [|s strs IH]; intros state.
  - destruct state; reflexivity.
  - cbn [fold_left]. rewrite IH, concat_and_del_text. reflexivity.
Qed.

End AssemblerState.

(** X1: plain strings that are added one after the other to a fresh state
    are merged: Finish gives one Constant node that holds their
    concatenation, and an empty string adds nothing. *)
Theorem adjacent_strings_are_merged `{Runtime} (strs : list unicode)
    (first_token last_token : Token) :
  _Mys_PyPegen_FstringParser_Finish
    (fold_left _Mys_PyPegen_FstringParser_ConcatAndDel strs
       _Mys_PyPegen_FstringParser_Init)
    first_token last_token
  = Constant (PyUnicode (List.concat strs))
      (if (peek (bytes first_token) 0 =? "u")%char
       then Some "u"%string else None)
      (span_of first_token last_token).
Proof.
  rewrite fold_concat_and_del, append_texts.
  unfold _Mys_PyPegen_FstringParser_Finish, make_str_node_and_del.
  cbn [with_last_str fs_fmode last_str _Mys_PyPegen_FstringParser_Init negb
       append_text].
  destruct (List.concat strs); reflexivity.
Qed.

Lemma bind_ok {A B} (r : result A) (k : A -> result B) (b : B) :
  bind r k = Ok b -> exists a, r = Ok a /\ k a = Ok b.
Proof. destruct r as [a|e]; cbn; [eauto|discriminate]. Qed.

Section AssemblerInvariant.

Context {RT : Runtime}.

Variables (p : Parser) (buf : cstring) (end_ : nat) (raw : bool)
          (first_token t last_token : Token).
Variable parse_spec : nat -> Z -> result (expr_ty * nat).

Lemma find_expr_is_formatted_value (str : nat) (recurse_lvl : Z)
    (str' : nat) (text : option unicode) (e : expr_ty) :
  fstring_find_expr p buf end_ first_token t last_token parse_spec str
    recurse_lvl = Ok (str', text, e) ->
  exists value conversion format_spec,
    e = FormattedValue value conversion format_spec
          (span_of first_token last_token).
Proof.
  unfold fstring_find_expr. intros E.
  destruct (2 <=? recurse_lvl)%Z; [discriminate|].
  apply bind_ok in E. destruct E as [st [_ E]].
  destruct (negb (quote_char st =? NUL)%char); [discriminate|].
  destruct (parenstack st); [|discriminate].
  destruct (end_ <=? cursor st); [discriminate|].
  apply bind_ok in E. destruct E as [simple [_ E]].
  apply bind_ok in E. destruct E as [[str1 expr_text] [_ E]].
  apply bind_ok in E. destruct E as [[str2 conversion] [_ E]].
  destruct (end_ <=? str2); [discriminate|].
  apply bind_ok in E. destruct E as [[str3 format_spec] [_ E]].
  destruct ((end_ <=? str3) || negb (peek buf str3 =? RBRACE)%char);
    [discriminate|].
  injection E as _ _ <-. eauto.
Qed.

Lemma find_literal_and_expr_is_formatted_value (str : nat)
    (recurse_lvl : Z) (result : Z) (str' : nat)
    (literal text : option unicode) (e : expr_ty) :
  fstring_find_literal_and_expr p buf end_ raw first_token t last_token
    parse_spec str recurse_lvl = Ok (result, str', literal, text, Some e) ->
  is_text_node e = false.
Proof.
  unfold fstring_find_literal_and_expr. intros E.
  apply bind_ok in E. destruct E as [[[r s] l] [_ E]].
  destruct (r =? 1)%Z; [discriminate|].
  destruct ((end_ <=? s) || (peek buf s =? RBRACE)%char); [discriminate|].
  apply bind_ok in E. destruct E as [[[s' text'] e'] [Ee E]].
  injection E as _ _ _ _ <-.
  apply find_expr_is_formatted_value in Ee.
  destruct Ee as [v [c [f ->]]]. reflexivity.
Qed.

Lemma concat_opt_fmode (state : FstringParser) (s : option unicode) :
  fs_fmode (concat_opt state s) = fs_fmode state.
Proof.
  destruct s as [s|]; [|reflexivity].
  cbn [concat_opt]. unfold _Mys_PyPegen_FstringParser_ConcatAndDel.
  destruct (List.length s =? 0); reflexivity.
Qed.

Lemma concat_opt_expr_list (state : FstringParser) (s : option unicode) :
  expr_list (concat_opt state s) = expr_list state.
Proof.
  destruct s as [s|]; [|reflexivity].
  cbn [concat_opt]. unfold _Mys_PyPegen_FstringParser_ConcatAndDel.
  destruct (List.length s =? 0); reflexivity.
Qed.

Lemma concat_opt_last_str (state : FstringParser) (s : option unicode) :
  last_str state <> Some [] -> last_str (concat_opt state s) <> Some [].
Proof.
  intros Hl. destruct s as [s|]; [|exact Hl].
  cbn [concat_opt]. unfold _Mys_PyPegen_FstringParser_ConcatAndDel.
  destruct s as [|c s]; [exact Hl|].
  cbn [List.length Nat.eqb last_str].
  destruct (last_str state) as [prev|]; [|discriminate].
  destruct prev; discriminate.
Qed.

Lemma concat_opt_normal (state : FstringParser) (s : option unicode) :
  state_normal state -> state_normal (concat_opt state s).
Proof.
  intros [Ha [He Hl]]. unfold state_normal.
  rewrite concat_opt_expr_list. auto using concat_opt_last_str.
Qed.

Lemma alternating_app (l1 l2 : list expr_ty) :
  forall after_text,
    alternating after_text (l1 ++ l2)
    = alternating after_text l1
      && alternating (ends_in_text after_text l1) l2.
Proof.
  unfold ends_in_text.
  induction l1 as [|e l1 IH]; intros after_text; [reflexivity|].
  cbn [app alternating fold_left].
  destruct e as [x|[u|b] kind loc|v c f loc|vs loc];
    cbn [is_text_node]; try reflexivity.
  - rewrite IH. rewrite <- !andb_assoc. reflexivity.
  - apply IH.
Qed.

Lemma ends_in_text_app (l1 l2 : list expr_ty) (after_text : bool) :
  ends_in_text after_text (l1 ++ l2)
  = ends_in_text (ends_in_text after_text l1) l2.
Proof. unfold ends_in_text. apply fold_left_app. Qed.

(** The nodes after the pending text, if any, and then a formatted value
    are added. *)
Lemma flush_normal (state : FstringParser) (e : expr_ty) :
  state_normal state ->
  is_text_node e = false ->
  (exists v c f loc, e = FormattedValue v c f loc) ->
  state_normal
    {| last_str := None; fs_fmode := fs_fmode state;
       expr_list :=
         ExprList_Append
           match last_str state with
           | None => expr_list state
           | Some s =>
               ExprList_Append (expr_list state)
                 (make_str_node_and_del s first_token last_token)
           end e |}.
Proof.
  intros [Ha [He Hl]] _ [v [c [f [loc ->]]]].
  unfold state_normal, ExprList_Append, make_str_node_and_del.
  cbn [expr_list last_str].
  destruct (last_str state) as [s|].
  - rewrite <- app_assoc. cbn [app].
    rewrite alternating_app, ends_in_text_app, Ha, He.
    destruct s as [|x s]; [exfalso; apply Hl; reflexivity|].
    split; [reflexivity|]. split; [reflexivity|discriminate].
  - rewrite alternating_app, ends_in_text_app, Ha, He.
    split; [reflexivity|]. split; [reflexivity|discriminate].
Qed.

Variable recurse_lvl : Z.

Lemma concat_loop_keeps (fuel : nat) :
  forall state str state' str',
    concat_loop p buf end_ raw recurse_lvl first_token t last_token
      parse_spec fuel state str = Ok (state', str') ->
    fs_fmode state' = fs_fmode state
    /\ (state_normal state -> state_normal state').
Proof.
  induction fuel as [|fuel IH]; intros state str state' str' E;
    [discriminate|].
  cbn [concat_loop] in E.
  apply bind_ok in E.
  destruct E as [[[[[result s] literal] text] expression] [Ef E]].
  destruct (result =? 1)%Z.
  - apply IH in E. destruct E as [Hf Hn].
    rewrite Hf, !concat_opt_fmode. split; [reflexivity|].
    intros H. apply Hn. auto using concat_opt_normal.
  - destruct expression as [e|].
    + apply IH in E. destruct E as [Hf Hn].
      cbn [fs_fmode] in Hf. rewrite Hf, !concat_opt_fmode.
      split; [reflexivity|].
      intros H. apply Hn.
      pose proof (find_literal_and_expr_is_formatted_value _ _ Ef) as Ht.
      apply flush_normal; [auto using concat_opt_normal|exact Ht|].
      unfold fstring_find_literal_and_expr in Ef.
      apply bind_ok in Ef. destruct Ef as [[[r s0] l] [_ Ef]].
      destruct (r =? 1)%Z; [discriminate|].
      destruct ((end_ <=? s0) || (peek buf s0 =? RBRACE)%char);
        [discriminate|].
      apply bind_ok in Ef. destruct Ef as [[[s' text'] e'] [Ee Ef]].
      injection Ef as _ _ _ _ <-.
      apply find_expr_is_formatted_value in Ee.
      destruct Ee as [v [c [f ->]]]. eauto.
    + injection E as <- _. rewrite !concat_opt_fmode.
      split; [reflexivity|]. auto using concat_opt_normal.
Qed.

Lemma ConcatFstring_with_keeps (state : FstringParser) (str : nat)
    (state' : FstringParser) (str' : nat) :
  ConcatFstring_with p buf end_ raw recurse_lvl first_token t last_token
    parse_spec state str = Ok (state', str') ->
  fs_fmode state' = true
  /\ (state_normal state -> state_normal state').
Proof.
  unfold ConcatFstring_with. intros E.
  apply bind_ok in E. destruct E as [[st s] [El E]].
  destruct ((recurse_lvl =? 0)%Z && (s <? end_ - 1)); [discriminate|].
  destruct (negb (recurse_lvl =? 0)%Z && negb (peek buf s =? RBRACE)%char);
    [discriminate|].
  injection E as <- _.
  apply concat_loop_keeps in El. destruct El as [Hf Hn].
  split; [exact Hf|]. intros H. apply Hn. exact H.
Qed.

End AssemblerInvariant.

(** X2: after a successful ConcatFstring, whatever the body and the state
    before, Finish gives a JoinedStr node: never a bare Constant node. *)
Theorem fstring_is_always_joined_str `{Runtime} (p : Parser)
    (state : FstringParser) (buf : cstring) (str end_ : nat) (raw : bool)
    (recurse_lvl : Z) (first_token t last_token : Token)
    (state' : FstringParser) (str' : nat) :
  _Mys_PyPegen_FstringParser_ConcatFstring p state buf str end_ raw
    recurse_lvl first_token t last_token = Ok (state', str') ->
  exists values,
    _Mys_PyPegen_FstringParser_Finish state' first_token last_token
    = JoinedStr values (span_of first_token last_token).
Proof.
  intros E. apply ConcatFstring_with_keeps in E. destruct E as [Hf _].
  unfold _Mys_PyPegen_FstringParser_Finish. rewrite Hf. cbn [negb].
  eauto.
Qed.

(** X3: the values of the JoinedStr node are in normal form when the state
    before ConcatFstring is (the fresh state, or the state after plain
    strings were added): text nodes and formatted values only, no empty
    text node, and no two text nodes next to each other. *)
Theorem joined_str_is_in_normal_form `{Runtime} (p : Parser)
    (state : FstringParser) (buf : cstring) (str end_ : nat) (raw : bool)
    (recurse_lvl : Z) (first_token t last_token : Token)
    (state' : FstringParser) (str' : nat) :
  state_normal state ->
  _Mys_PyPegen_FstringParser_ConcatFstring p state buf str end_ raw
    recurse_lvl first_token t last_token = Ok (state', str') ->
  exists values,
    _Mys_PyPegen_FstringParser_Finish state' first_token last_token
    = JoinedStr values (span_of first_token last_token)
    /\ alternating false values = true.
Proof.
  intros Hn E. apply ConcatFstring_with_keeps in E.
  destruct E as [Hf Hn']. destruct (Hn' Hn) as [Ha [He Hl]].
  unfold _Mys_PyPegen_FstringParser_Finish. rewrite Hf. cbn [negb].
  eexists. split; [reflexivity|].
  destruct (last_str state') as [s|]; [|exact Ha].
  unfold ExprList_Append, make_str_node_and_del.
  rewrite alternating_app, Ha, He.
  destruct s; [exfalso; apply Hl; reflexivity|reflexivity].
Qed.

(** The f-string of a text, a field and a text. *)
Lemma fstring_is_always_joined_str_witness :
  exists values,
    _Mys_PyPegen_FstringParser_Finish (RT := lp64)
      {| last_str := Some (codes (str "b")); fs_fmode := true;
         expr_list :=
           [Constant (PyUnicode (codes (str "a"))) None
              (span_of (token (quoted "f" "a{x}b"))
                 (token (quoted "f" "a{x}b")));
            FormattedValue (@Parsed lp64 (str "(x)")) (-1) None
              (span_of (token (quoted "f" "a{x}b"))
                 (token (quoted "f" "a{x}b")))] |}
      (token (quoted "f" "a{x}b")) (token (quoted "f" "a{x}b"))
    = JoinedStr values
        (span_of (token (quoted "f" "a{x}b")) (token (quoted "f" "a{x}b"))).
Proof.
  apply (@fstring_is_always_joined_str lp64 (parser 8)
           _Mys_PyPegen_FstringParser_Init (quoted "f" "a{x}b") 2 7 false 0
           (token (quoted "f" "a{x}b")) (token (quoted "f" "a{x}b"))
           (token (quoted "f" "a{x}b")) _ 7).
  reflexivity.
Defined.

(** A text is added before the f-string of a field and a text. *)
Lemma joined_str_is_in_normal_form_witness :
  exists values,
    _Mys_PyPegen_FstringParser_Finish (RT := lp64)
      {| last_str := Some (codes (str "b")); fs_fmode := true;
         expr_list :=
           [Constant (PyUnicode (codes (str "ca"))) None
              (span_of (token (quoted "f" "a{x}b"))
                 (token (quoted "f" "a{x}b")));
            FormattedValue (@Parsed lp64 (str "(x)")) (-1) None
              (span_of (token (quoted "f" "a{x}b"))
                 (token (quoted "f" "a{x}b")))] |}
      (token (quoted "f" "a{x}b")) (token (quoted "f" "a{x}b"))
    = JoinedStr values
        (span_of (token (quoted "f" "a{x}b")) (token (quoted "f" "a{x}b")))
    /\ alternating false values = true.
Proof.
  apply (@joined_str_is_in_normal_form lp64 (parser 8)
           (_Mys_PyPegen_FstringParser_ConcatAndDel
              _Mys_PyPegen_FstringParser_Init (codes (str "c")))
           (quoted "f" "a{x}b") 2 7 false 0
           (token (quoted "f" "a{x}b")) (token (quoted "f" "a{x}b"))
           (token (quoted "f" "a{x}b")) _ 7).
  - repeat split. discriminate.
  - reflexivity.
Defined.

(** ** The expression scanner: its invariants and its errors *)

Section ScanInvariant.

Context {RT : Runtime}.
Variables (buf : cstring) (end_ : nat).

Lemma quote_is_not_nul (ch : ascii) :
  (ch =? SQUOTE)%char || (ch =? DQUOTE)%char = true ->
  (ch =? NUL)%char = false.
Proof.
  intros H. apply orb_true_iff in H.
  destruct H as [H|H]; apply Ascii.eqb_eq in H; subst; reflexivity.
Qed.

Lemma expr_step_invariant (expr_start : nat) (st st' : ExprScan) :
  cursor st < end_ ->
  scan_invariant expr_start end_ st ->
  expr_step buf end_ st = Next st' ->
  scan_invariant expr_start end_ (advance st').
Proof.
  intros Hlt [Hc [Hq [Hd Ho]]].
  unfold scan_invariant, nested_depth in *. unfold expr_step, nested_depth.
  destruct (peek buf (cursor st) =? BACKSLASH)%char; [discriminate|].
  destruct (negb (quote_char st =? NUL)%char) eqn:Eq.
  { (* inside a string *)
    destruct (peek buf (cursor st) =? quote_char st)%char.
    - destruct (string_type st =? 3)%Z.
      + destruct ((cursor st + 2 <? end_)
                  && (peek buf (cursor st + 1) =? peek buf (cursor st))%char
                  && (peek buf (cursor st + 2) =? peek buf (cursor st))%char)
          eqn:E3.
        * apply andb_true_iff in E3. destruct E3 as [E3 _].
          apply andb_true_iff in E3. destruct E3 as [E3 _].
          apply Nat.ltb_lt in E3.
          intros E. injection E as <-. cbn. repeat split; auto; lia.
        * intros E. injection E as <-. cbn. repeat split; auto; lia.
      + intros E. injection E as <-. cbn. repeat split; auto; lia.
    - intros E. injection E as <-. cbn. repeat split; auto; lia. }
  apply negb_false_iff in Eq. rewrite Eq in Hq.
  destruct ((peek buf (cursor st) =? SQUOTE)%char
            || (peek buf (cursor st) =? DQUOTE)%char) eqn:Equote.
  { apply quote_is_not_nul in Equote.
    destruct ((cursor st + 2 <? end_)
              && (peek buf (cursor st + 1) =? peek buf (cursor st))%char
              && (peek buf (cursor st + 2) =? peek buf (cursor st))%char)
      eqn:E3.
    - apply andb_true_iff in E3. destruct E3 as [E3 _].
      apply andb_true_iff in E3. destruct E3 as [E3 _].
      apply Nat.ltb_lt in E3.
      intros E. injection E as <-. cbn. rewrite Equote.
      repeat split; auto; lia.
    - intros E. injection E as <-. cbn. rewrite Equote.
      repeat split; auto; lia. }
  destruct ((peek buf (cursor st) =? "[")%char
            || (peek buf (cursor st) =? LBRACE)%char
            || (peek buf (cursor st) =? "(")%char) eqn:Eopen.
  { destruct (MAXLEVEL <=? List.length (parenstack st)) eqn:Emax;
      [discriminate|].
    apply Nat.leb_gt in Emax.
    intros E. injection E as <-. cbn. rewrite Eq.
    unfold is_opening at 1. rewrite Eopen, Ho.
    repeat split; auto; lia. }
  destruct (peek buf (cursor st) =? "#")%char; [discriminate|].
  destruct ((List.length (parenstack st) =? 0)
            && ((peek buf (cursor st) =? "!")%char
                || (peek buf (cursor st) =? ":")%char
                || (peek buf (cursor st) =? RBRACE)%char
                || (peek buf (cursor st) =? "=")%char
                || (peek buf (cursor st) =? ">")%char
                || (peek buf (cursor st) =? "<")%char)).
  { destruct (cursor st + 1 <? end_) eqn:E1; [|discriminate].
    apply Nat.ltb_lt in E1.
    cbv zeta.
    match goal with |- (if ?b then _ else _) = _ -> _ => destruct b end.
    - intros E. injection E as <-. cbn. rewrite Eq.
      repeat split; auto; lia.
    - match goal with |- (if ?b then _ else _) = _ -> _ => destruct b end;
        [|discriminate].
      intros E. injection E as <-. cbn. rewrite Eq.
      repeat split; auto; lia. }
  destruct ((peek buf (cursor st) =? "]")%char
            || (peek buf (cursor st) =? RBRACE)%char
            || (peek buf (cursor st) =? ")")%char).
  { destruct (parenstack st) as [|opening ps]; [discriminate|].
    destruct (brackets_match opening (peek buf (cursor st)));
      [|discriminate].
    cbn in Hd, Ho. apply andb_true_iff in Ho. destruct Ho as [_ Ho].
    intros E. injection E as <-. cbn. rewrite Eq.
    repeat split; auto; lia. }
  intros E. injection E as <-. cbn. rewrite Eq.
  repeat split; auto; lia.
Qed.

Lemma scan_reaches_invariant (expr_start : nat) (st st' : ExprScan) :
  scan_reaches buf end_ st st' ->
  scan_invariant expr_start end_ st ->
  scan_invariant expr_start end_ st'.
Proof.
  induction 1 as [st|st st1 st2 Hlt Hstep Hreach IH]; intros Hinv;
    [exact Hinv|].
  apply IH. apply (expr_step_invariant Hlt Hinv Hstep).
Qed.

Lemma scan_start_invariant (expr_start : nat) :
  expr_start <= end_ ->
  scan_invariant expr_start end_ (scan_start expr_start).
Proof.
  intros H. unfold scan_invariant, scan_start, nested_depth. cbn.
  repeat split; auto; lia.
Qed.

(** The loop from its start is the loop from a state that it gets to. *)
Lemma expr_loop_from (str : nat) (st : ExprScan) :
  str <= end_ ->
  scan_reaches buf end_ (scan_start str) st ->
  exists fuel,
    expr_loop (S (end_ - str)) buf end_ (scan_start str)
    = expr_loop (S fuel) buf end_ st.
Proof.
  intros Hle Hreach.
  pose proof (scan_reaches_invariant Hreach (scan_start_invariant Hle))
    as [[_ Hc] _].
  destruct (expr_loop_reaches Hreach) as [_ Hfuel].
  cbn [scan_start cursor] in Hfuel.
  destruct (Hfuel (S (end_ - str))) as [fuel' [Hge ->]]; [lia|].
  destruct fuel' as [|fuel']; [lia|]. eauto.
Qed.

Lemma expr_loop_fail (str : nat) (st : ExprScan) (e : PyErr) :
  str <= end_ ->
  scan_reaches buf end_ (scan_start str) st ->
  cursor st < end_ ->
  expr_step buf end_ st = Fail e ->
  expr_loop (S (end_ - str)) buf end_ (scan_start str) = Err e.
Proof.
  intros Hle Hreach Hlt Hstep.
  destruct (expr_loop_from Hle Hreach) as [fuel ->].
  cbn [expr_loop]. apply Nat.ltb_lt in Hlt. rewrite Hlt, Hstep.
  reflexivity.
Qed.

Lemma expr_loop_break (str : nat) (st : ExprScan) :
  str <= end_ ->
  scan_reaches buf end_ (scan_start str) st ->
  cursor st < end_ ->
  expr_step buf end_ st = Break ->
  expr_loop (S (end_ - str)) buf end_ (scan_start str) = Ok st.
Proof.
  intros Hle Hreach Hlt Hstep.
  destruct (expr_loop_from Hle Hreach) as [fuel ->].
  cbn [expr_loop]. apply Nat.ltb_lt in Hlt. rewrite Hlt, Hstep.
  reflexivity.
Qed.

Lemma expr_loop_end (str : nat) (st : ExprScan) :
  str <= end_ ->
  scan_reaches buf end_ (scan_start str) st ->
  end_ <= cursor st ->
  expr_loop (S (end_ - str)) buf end_ (scan_start str) = Ok st.
Proof.
  intros Hle Hreach Hge.
  destruct (expr_loop_from Hle Hreach) as [fuel ->].
  cbn [expr_loop]. apply Nat.ltb_ge in Hge. rewrite Hge. reflexivity.
Qed.

End ScanInvariant.

(** X4: the assertions at the head of the loop of [fstring_find_expr] hold
    in every turn, and [parenstack] is never written beyond [MAXLEVEL]
    entries: the variables of the scanner keep [scan_invariant]. *)
Theorem scanner_keeps_its_invariants `{Runtime} (buf : cstring)
    (expr_start end_ : nat) (st : ExprScan) :
  expr_start <= end_ ->
  scan_reaches buf end_ (scan_start expr_start) st ->
  scan_invariant expr_start end_ st.
Proof.
  intros Hle Hreach.
  apply (scan_reaches_invariant Hreach (scan_start_invariant Hle)).
Qed.


Section FindExprErrors.

Context {RT : Runtime}.
Variables (p : Parser) (buf : cstring) (end_ : nat)
          (first_token t last_token : Token).
Variable parse_spec : nat -> Z -> result (expr_ty * nat).
Variables (str : nat) (recurse_lvl : Z) (st : ExprScan).

Hypothesis Hlvl : (recurse_lvl < 2)%Z.
Hypothesis Hstr : str < end_.
Hypothesis Hreach : scan_reaches buf end_ (scan_start (S str)) st.

Lemma find_expr_fail (e : PyErr) :
  cursor st < end_ ->
  expr_step buf end_ st = Fail e ->
  fstring_find_expr p buf end_ first_token t last_token parse_spec str
    recurse_lvl = Err e.
Proof.
  intros Hlt Hstep. unfold fstring_find_expr.
  apply Z.ltb_lt in Hlvl. rewrite Z.leb_antisym, Hlvl. cbn [negb].
  assert (Hle : S str <= end_) by lia.
  rewrite (expr_loop_fail Hle Hreach Hlt Hstep).
  reflexivity.
Qed.

Lemma find_expr_unclosed :
  end_ <= cursor st ->
  fstring_find_expr p buf end_ first_token t last_token parse_spec str
    recurse_lvl = Err (SyntaxError (unclosed_msg st)).
Proof.
  intros Hge. unfold fstring_find_expr, unclosed_msg.
  apply Z.ltb_lt in Hlvl. rewrite Z.leb_antisym, Hlvl. cbn [negb].
  assert (Hle : S str <= end_) by lia.
  rewrite (expr_loop_end Hle Hreach Hge).
  cbn [bind].
  destruct (negb (quote_char st =? NUL)%char); [reflexivity|].
  destruct (parenstack st); [|reflexivity].
  apply Nat.leb_le in Hge. rewrite Hge. reflexivity.
Qed.

End FindExprErrors.

(** X5: a [#] that the expression scanner gets to outside a nested string
    makes [fstring_find_expr] fail with the syntax error "f-string
    expression part cannot include '#'", inside brackets or not. *)
Theorem hash_in_expression_is_rejected `{Runtime} (p : Parser)
    (buf : cstring) (end_ : nat) (first_token t last_token : Token)
    (parse_spec : nat -> Z -> result (expr_ty * nat)) (str : nat)
    (recurse_lvl : Z) (st : ExprScan) :
  (recurse_lvl < 2)%Z ->
  str < end_ ->
  scan_reaches buf end_ (scan_start (S str)) st ->
  cursor st < end_ ->
  quote_char st = NUL ->
  peek buf (cursor st) = "#"%char ->
  fstring_find_expr p buf end_ first_token t last_token parse_spec str
    recurse_lvl
  = Err (SyntaxError "f-string expression part cannot include '#'").
Proof.
  intros Hlvl Hstr Hreach Hlt Hq Hch.
  apply find_expr_fail with (st := st); try assumption.
  unfold expr_step. rewrite Hch, Hq. reflexivity.
Qed.

(** The expression with a comment after a bracket. *)
Lemma hash_in_expression_is_rejected_witness :
  fstring_find_expr (RT := lp64) (parser 8) (quoted "f" "{(a #b)}") 10
    (token (quoted "f" "{(a #b)}")) (token (quoted "f" "{(a #b)}"))
    (token (quoted "f" "{(a #b)}"))
    (fstring_parse (parser 8) (quoted "f" "{(a #b)}") 10 false
       (token (quoted "f" "{(a #b)}")) (token (quoted "f" "{(a #b)}"))
       (token (quoted "f" "{(a #b)}")))
    2 0
  = Err (SyntaxError "f-string expression part cannot include '#'").
Proof.
  apply (@hash_in_expression_is_rejected lp64 _ _ _ _ _ _ _ _ _
           {| cursor := 6; quote_char := NUL; string_type := 0;
              parenstack := ["("%char] |}).
  - lia.
  - lia.
  - eapply reaches_next; [cbn; lia | reflexivity |].
    eapply reaches_next; [cbn; lia | reflexivity |].
    eapply reaches_next; [cbn; lia | reflexivity |].
    apply reaches_here.
  - cbn; lia.
  - reflexivity.
  - reflexivity.
Defined.

(** X6: a closing bracket that the scanner gets to outside a nested string
    and that does not close the innermost open bracket makes
    [fstring_find_expr] fail: with "f-string: unmatched" and the bracket
    when no bracket is open (for a parenthesis or a square bracket; a
    right brace ends the expression there), with "f-string: closing
    parenthesis ... does not match opening parenthesis ..." when the
    innermost open bracket is of another kind. *)
Theorem closing_bracket_must_match `{Runtime} (p : Parser)
    (buf : cstring) (end_ : nat) (first_token t last_token : Token)
    (parse_spec : nat -> Z -> result (expr_ty * nat)) (str : nat)
    (recurse_lvl : Z) (st : ExprScan) :
  (recurse_lvl < 2)%Z ->
  str < end_ ->
  scan_reaches buf end_ (scan_start (S str)) st ->
  cursor st < end_ ->
  quote_char st = NUL ->
  closes_nothing (peek buf (cursor st)) (parenstack st) ->
  fstring_find_expr p buf end_ first_token t last_token parse_spec str
    recurse_lvl
  = Err (SyntaxError
           (closing_msg (peek buf (cursor st)) (parenstack st))).
Proof.
  intros Hlvl Hstr Hreach Hlt Hq Hch.
  apply find_expr_fail with (st := st); try assumption.
  unfold expr_step, nested_depth. rewrite Hq.
  destruct (parenstack st) as [|opening ps]; cbn [closes_nothing] in Hch.
  - destruct Hch as [-> | ->]; reflexivity.
  - destruct Hch as [[-> | [-> | ->]] Hm]; cbn; cbn in Hm; rewrite Hm;
      reflexivity.
Qed.

(** A parenthesis that is closed by a square bracket. *)
Lemma closing_bracket_must_match_witness :
  fstring_find_expr (RT := lp64) (parser 8) (quoted "f" "{(a]}") 7
    (token (quoted "f" "{(a]}")) (token (quoted "f" "{(a]}"))
    (token (quoted "f" "{(a]}"))
    (fstring_parse (parser 8) (quoted "f" "{(a]}") 7 false
       (token (quoted "f" "{(a]}")) (token (quoted "f" "{(a]}"))
       (token (quoted "f" "{(a]}")))
    2 0
  = Err (SyntaxError
           "f-string: closing parenthesis ']' does not match opening parenthesis '('").
Proof.
  apply (@closing_bracket_must_match lp64 (parser 8)
           (quoted "f" "{(a]}") 7
           (token (quoted "f" "{(a]}")) (token (quoted "f" "{(a]}"))
           (token (quoted "f" "{(a]}"))
           (fstring_parse (parser 8) (quoted "f" "{(a]}") 7 false
              (token (quoted "f" "{(a]}")) (token (quoted "f" "{(a]}"))
              (token (quoted "f" "{(a]}")))
           2 0
           {| cursor := 5; quote_char := NUL; string_type := 0;
              parenstack := ["("%char] |}).
  - lia.
  - lia.
  - eapply reaches_next; [cbn; lia | reflexivity |].
    eapply reaches_next; [cbn; lia | reflexivity |].
    apply reaches_here.
  - cbn; lia.
  - reflexivity.
  - split; [right; left; reflexivity|reflexivity].
Defined.

(** An opening bracket that the scanner gets to outside a nested string
    when [MAXLEVEL] brackets are open makes [fstring_find_expr] fail with
    the syntax error "f-string: too many nested parenthesis". *)
Theorem too_many_brackets_are_rejected `{Runtime} (p : Parser)
    (buf : cstring) (end_ : nat) (first_token t last_token : Token)
    (parse_spec : nat -> Z -> result (expr_ty * nat)) (str : nat)
    (recurse_lvl : Z) (st : ExprScan) :
  (recurse_lvl < 2)%Z ->
  str < end_ ->
  scan_reaches buf end_ (scan_start (S str)) st ->
  cursor st < end_ ->
  quote_char st = NUL ->
  is_opening (peek buf (cursor st)) = true ->
  MAXLEVEL <= nested_depth st ->
  fstring_find_expr p buf end_ first_token t last_token parse_spec str
    recurse_lvl
  = Err (SyntaxError "f-string: too many nested parenthesis").
Proof.
  intros Hlvl Hstr Hreach Hlt Hq Hch Hmax.
  apply find_expr_fail with (st := st); try assumption.
  unfold expr_step. rewrite Hq. apply Nat.leb_le in Hmax. rewrite Hmax.
  unfold is_opening in Hch.
  apply orb_true_iff in Hch. destruct Hch as [Hch|Hch];
    [apply orb_true_iff in Hch; destruct Hch as [Hch|Hch]|];
    apply Ascii.eqb_eq in Hch; rewrite Hch; reflexivity.
Qed.

(** A third bracket where two levels are allowed. *)
Lemma too_many_brackets_are_rejected_witness :
  fstring_find_expr (RT := two_levels) (parser 8) (quoted "f" "{([(a)])}")
    11 (token (quoted "f" "{([(a)])}")) (token (quoted "f" "{([(a)])}"))
    (token (quoted "f" "{([(a)])}"))
    (fstring_parse (parser 8) (quoted "f" "{([(a)])}") 11 false
       (token (quoted "f" "{([(a)])}")) (token (quoted "f" "{([(a)])}"))
       (token (quoted "f" "{([(a)])}")))
    2 0
  = Err (SyntaxError "f-string: too many nested parenthesis").
Proof.
  apply (@too_many_brackets_are_rejected two_levels _ _ _ _ _ _ _ _ _
           {| cursor := 5; quote_char := NUL; string_type := 0;
              parenstack := ["["%char; "("%char] |}).
  - lia.
  - lia.
  - eapply reaches_next; [cbn; lia | reflexivity |].
    eapply reaches_next; [cbn; lia | reflexivity |].
    apply reaches_here.
  - cbn; lia.
  - reflexivity.
  - reflexivity.
  - cbn. lia.
Defined.

(** X7: an expression that is not closed when the body ends makes
    [fstring_find_expr] fail: with "f-string: unterminated string" inside
    a nested string, else with "f-string: unmatched" and the innermost
    open bracket, else with "f-string: expecting '}'". *)
Theorem unclosed_expression_is_rejected `{Runtime} (p : Parser)
    (buf : cstring) (end_ : nat) (first_token t last_token : Token)
    (parse_spec : nat -> Z -> result (expr_ty * nat)) (str : nat)
    (recurse_lvl : Z) (st : ExprScan) :
  (recurse_lvl < 2)%Z ->
  str < end_ ->
  scan_reaches buf end_ (scan_start (S str)) st ->
  end_ <= cursor st ->
  fstring_find_expr p buf end_ first_token t last_token parse_spec str
    recurse_lvl
  = Err (SyntaxError (unclosed_msg st)).
Proof.
  intros Hlvl Hstr Hreach Hge.
  apply find_expr_unclosed; assumption.
Qed.

(** A string that is not closed inside a call. *)
Lemma unclosed_expression_is_rejected_witness :
  fstring_find_expr (RT := lp64) (parser 8) (quoted "f" "{f('a") 7
    (token (quoted "f" "{f('a")) (token (quoted "f" "{f('a"))
    (token (quoted "f" "{f('a"))
    (fstring_parse (parser 8) (quoted "f" "{f('a") 7 false
       (token (quoted "f" "{f('a")) (token (quoted "f" "{f('a"))
       (token (quoted "f" "{f('a")))
    2 0
  = Err (SyntaxError "f-string: unterminated string").
Proof.
  apply (@unclosed_expression_is_rejected lp64 _ _ _ _ _ _ _ _ _
           {| cursor := 7; quote_char := "'"; string_type := 1;
              parenstack := ["("%char] |}).
  - lia.
  - lia.
  - eapply reaches_next; [cbn; lia | reflexivity |].
    eapply reaches_next; [cbn; lia | reflexivity |].
    eapply reaches_next; [cbn; lia | reflexivity |].
    eapply reaches_next; [cbn; lia | reflexivity |].
    apply reaches_here.
  - cbn; lia.
Defined.

(** The variables of the scanner inside a string inside a call. *)
Lemma scanner_keeps_its_invariants_witness :
  scan_invariant (H := lp64) 3 7
    {| cursor := 7; quote_char := "'"; string_type := 1;
       parenstack := ["("%char] |}.
Proof.
  apply (@scanner_keeps_its_invariants lp64 (quoted "f" "{f('a") 3 7).
  - lia.
  - eapply reaches_next; [cbn; lia | reflexivity |].
    eapply reaches_next; [cbn; lia | reflexivity |].
    eapply reaches_next; [cbn; lia | reflexivity |].
    eapply reaches_next; [cbn; lia | reflexivity |].
    apply reaches_here.
Defined.

(** ** The literal before a field, and the fields *)

Section LiteralBeforeExpression.

Context {RT : Runtime}.
Variables (before pre after : cstring) (end_ : nat) (raw : bool)
          (t : Token).
Hypothesis Hrun : literal_run raw pre.

(** The turn of the scanner on a left brace that starts an expression. *)
Lemma literal_loop_lbrace (fuel : nat) (before' : cstring) :
  List.length before' < end_ ->
  (S (List.length before') < end_ -> peek after 0 <> LBRACE) ->
  literal_loop (before' ++ LBRACE :: after) end_ raw 0 t (S fuel)
    (List.length before')
  = Ok (0%Z, List.length before', List.length before').
Proof.
  intros Hend Hnext. cbn [literal_loop].
  assert (Hlt : (List.length before' <? end_) = true)
    by (apply Nat.ltb_lt; lia).
  rewrite Hlt, peek_app0. cbn [peek nth].
  assert (Hno : (S (List.length before') <? end_)
                && (peek (before' ++ LBRACE :: after)
                      (S (List.length before')) =? LBRACE)%char = false).
  { destruct (S (List.length before') <? end_) eqn:E; [|reflexivity].
    apply Nat.ltb_lt in E. cbn [andb].
    replace (S (List.length before')) with (List.length before' + 1) by lia.
    rewrite peek_app. cbn [peek nth]. apply eqb_false, (Hnext E). }
  replace (S (List.length before') - 1) with (List.length before') by lia.
  destruct raw; cbn -[Nat.ltb peek]; rewrite Hno; reflexivity.
Qed.

Lemma find_literal_lbrace (v : unicode) :
  List.length before + List.length pre < end_ ->
  (S (List.length before + List.length pre) < end_ ->
   peek after 0 <> LBRACE) ->
  (pre <> [] -> decode_literal raw pre = Ok v) ->
  fstring_find_literal (before ++ pre ++ LBRACE :: after) end_ raw 0 t
    (List.length before)
  = Ok (0%Z, List.length before + List.length pre, run_literal pre v).
Proof.
  intros Hend Hnext Hdec. unfold fstring_find_literal.
  destruct (@literal_loop_after_run _ before pre end_ raw t Hrun 0
              (LBRACE :: after)) as [j ->]; [lia|].
  rewrite literal_loop_lbrace by (rewrite ?length_app; auto; lia).
  cbn [bind].
  rewrite (@find_literal_run _ before pre raw Hrun 0 (LBRACE :: after) v)
    by exact Hdec.
  rewrite length_app. reflexivity.
Qed.

End LiteralBeforeExpression.

(** X8: at recursion level 0 the literal scanner stops on a left brace that
    no other left brace follows, and at the end of the body: the status
    is 0, the literal is the run of text before (no literal when the run
    is empty), and the cursor is on the brace or at the end. *)
Theorem literal_ends_at_expression_or_end `{Runtime}
    (before pre after : cstring) (end_ : nat) (raw : bool) (t : Token)
    (v : unicode) :
  literal_run raw pre ->
  (pre <> [] -> decode_literal raw pre = Ok v) ->
  (List.length before + List.length pre < end_ ->
   (S (List.length before + List.length pre) < end_ ->
    peek after 0 <> LBRACE) ->
   fstring_find_literal (before ++ pre ++ LBRACE :: after) end_ raw 0 t
     (List.length before)
   = Ok (0%Z, List.length before + List.length pre, run_literal pre v))
  /\
  (end_ = List.length before + List.length pre ->
   fstring_find_literal (before ++ pre ++ after) end_ raw 0 t
     (List.length before)
   = Ok (0%Z, end_, run_literal pre v)).
Proof.
  intros Hrun Hdec. split.
  - intros Hend Hnext. apply find_literal_lbrace; assumption.
  - intros Hend. apply find_literal_end; assumption.
Qed.

(** A text before a field, and a text before the closing quote. *)
Lemma literal_ends_at_expression_or_end_witness :
  fstring_find_literal (RT := lp64) (quoted "f" "ab{x}") 7 false 0
    (token (quoted "f" "ab{x}")) 2
  = Ok (0%Z, 4, Some (codes (str "ab")))
  /\ fstring_find_literal (RT := lp64) (quoted "f" "ab") 4 false 0
       (token (quoted "f" "ab")) 2
     = Ok (0%Z, 4, Some (codes (str "ab"))).
Proof.
  assert (Hrun : literal_run false (str "ab")).
  { apply run_byte; [discriminate|discriminate|right; discriminate|].
    apply run_byte; [discriminate|discriminate|right; discriminate|].
    apply run_nil. }
  split.
  - apply (@literal_ends_at_expression_or_end lp64 (str "f" ++ [DQUOTE])
             (str "ab") (str "x}" ++ [DQUOTE]) 7 false
             (token (quoted "f" "ab{x}")) (codes (str "ab")) Hrun).
    + reflexivity.
    + cbn. lia.
    + intros _. discriminate.
  - apply (@literal_ends_at_expression_or_end lp64 (str "f" ++ [DQUOTE])
             (str "ab") [DQUOTE] 4 false
             (token (quoted "f" "ab")) (codes (str "ab")) Hrun).
    + reflexivity.
    + reflexivity.
Defined.

Section FieldProofs.

Context {RT : Runtime}.
Variables (p : Parser) (buf : cstring) (end_ : nat)
          (first_token t last_token : Token).
Variable parse_spec : nat -> Z -> result (expr_ty * nat).
Variables (str : nat) (recurse_lvl : Z) (st : ExprScan) (e : expr_ty).

Hypothesis Hlvl : (recurse_lvl < 2)%Z.
Hypothesis Hstr : str < end_.
Hypothesis Hreach : scan_reaches buf end_ (scan_start (S str)) st.
Hypothesis Hlt : cursor st < end_.
Hypothesis Htop : top_level st.
Hypothesis Hcompile :
  fstring_compile_expr p buf (S str) (cursor st) t = Ok e.

(** The function up to the compiled expression, when the loop is left
    by its [break]. *)
Lemma break_at_terminator :
  is_terminator (peek buf (cursor st)) ->
  (S (cursor st) < end_ ->
   two_char_operator (peek buf (cursor st)) (peek buf (S (cursor st)))
   = false) ->
  expr_loop (S (end_ - S str)) buf end_ (scan_start (S str)) = Ok st
  /\ negb (quote_char st =? NUL)%char = false
  /\ parenstack st = []
  /\ (end_ <=? cursor st) = false
  /\ (2 <=? recurse_lvl)%Z = false.
Proof.
  intros Hterm Hop.
  assert (Hle : S str <= end_) by lia.
  assert (Hbreak : expr_step buf end_ st = Break).
  { apply terminator_breaks; [exact Htop|exact Hterm|].
    rewrite Nat.add_1_r. exact Hop. }
  destruct Htop as [Hq Hp].
  repeat split.
  - apply (expr_loop_break Hle Hreach Hlt Hbreak).
  - rewrite Hq. reflexivity.
  - exact Hp.
  - apply Nat.leb_gt. exact Hlt.
  - apply Z.leb_gt. exact Hlvl.
Qed.

Lemma find_expr_simple :
  peek buf (cursor st) = RBRACE ->
  fstring_find_expr p buf end_ first_token t last_token parse_spec str
    recurse_lvl
  = Ok (S (cursor st), None,
        FormattedValue e (-1) None (span_of first_token last_token)).
Proof.
  intros Hch.
  destruct break_at_terminator as [El [Eq [Ep [Ee Ev]]]].
  { rewrite Hch. right. right. left. reflexivity. }
  { intros _. rewrite Hch. reflexivity. }
  unfold fstring_find_expr.
  rewrite Ev, El. cbn [bind]. rewrite Eq, Ep, Ee, Hcompile. cbn [bind].
  repeat (cbn [bind Ascii.eqb Bool.eqb negb orb andb];
          rewrite ?Hch, ?Ee).
  reflexivity.
Qed.

Lemma find_expr_conversion (c : ascii) :
  peek buf (cursor st) = "!"%char ->
  S (cursor st) < end_ ->
  peek buf (S (cursor st)) = c ->
  c <> "="%char ->
  (if (c =? "s")%char || (c =? "r")%char || (c =? "a")%char
   then
     S (S (cursor st)) < end_ ->
     peek buf (S (S (cursor st))) = RBRACE ->
     fstring_find_expr p buf end_ first_token t last_token parse_spec str
       recurse_lvl
     = Ok (S (S (S (cursor st))), None,
           FormattedValue e (Z.of_nat (nat_of_ascii c)) None
             (span_of first_token last_token))
   else
     fstring_find_expr p buf end_ first_token t last_token parse_spec str
       recurse_lvl
     = Err (SyntaxError
              ("f-string: invalid conversion character: "
               ++ "expected 's', 'r', or 'a'"))).
Proof.
  intros Hch Hnext Hc Hne.
  destruct break_at_terminator as [El [Eq [Ep [Ee Ev]]]].
  { rewrite Hch. left. reflexivity. }
  { intros _. rewrite Hch, Hc. unfold two_char_operator.
    apply Ascii.eqb_neq in Hne. rewrite Hne. reflexivity. }
  assert (E1 : (end_ <=? S (cursor st)) = false)
    by (apply Nat.leb_gt; exact Hnext).
  unfold fstring_find_expr.
  rewrite Ev, El. cbn [bind]. rewrite Eq, Ep, Ee, Hcompile. cbn [bind].
  rewrite Hch.
  cbn [bind Ascii.eqb Bool.eqb negb orb andb].
  rewrite Hch.
  cbn [bind Ascii.eqb Bool.eqb negb orb andb].
  rewrite E1, Hc.
  destruct ((c =? "s")%char || (c =? "r")%char || (c =? "a")%char) eqn:Ec;
    cbn [negb bind]; [|reflexivity].
  intros H2 Hr.
  assert (E2 : (end_ <=? S (S (cursor st))) = false)
    by (apply Nat.leb_gt; exact H2).
  rewrite E2, Hr.
  cbn [bind Ascii.eqb Bool.eqb negb orb andb].
  rewrite E2, Hr.
  reflexivity.
Qed.


Lemma find_expr_old_version :
  peek buf (cursor st) = "="%char ->
  (S (cursor st) < end_ -> peek buf (S (cursor st)) <> "="%char) ->
  (feature_version p < 8)%Z ->
  fstring_find_expr p buf end_ first_token t last_token parse_spec str
    recurse_lvl
  = Err (SyntaxError
           ("f-string: self documenting expressions are "
            ++ "only supported in Python 3.8 and greater")).
Proof.
  intros Hch Hne Hver.
  destruct break_at_terminator as [El [Eq [Ep [Ee Ev]]]].
  { rewrite Hch. right. right. right. reflexivity. }
  { intros H1. rewrite Hch. unfold two_char_operator.
    apply Ascii.eqb_neq in Hne; [|exact H1]. rewrite Hne. reflexivity. }
  unfold fstring_find_expr.
  rewrite Ev, El. cbn [bind]. rewrite Eq, Ep, Ee, Hcompile. cbn [bind].
  rewrite Hch.
  cbn [bind Ascii.eqb Bool.eqb negb orb andb].
  apply Z.ltb_lt in Hver. rewrite Hver. reflexivity.
Qed.

Lemma find_expr_debug (text : unicode) :
  peek buf (cursor st) = "="%char ->
  (S (cursor st) < end_ -> peek buf (S (cursor st)) <> "="%char) ->
  (8 <= feature_version p)%Z ->
  skip_space (List.length buf) buf (S (cursor st)) < end_ ->
  peek buf (skip_space (List.length buf) buf (S (cursor st))) = RBRACE ->
  PyUnicode_DecodeUTF8
    (slice buf (S str)
       (skip_space (List.length buf) buf (S (cursor st)) - S str))
  = Some text ->
  fstring_find_expr p buf end_ first_token t last_token parse_spec str
    recurse_lvl
  = Ok (S (skip_space (List.length buf) buf (S (cursor st))), Some text,
        FormattedValue e (Z.of_nat (nat_of_ascii "r")) None
          (span_of first_token last_token)).
Proof.
  intros Hch Hne Hver Hs Hr Hdec.
  destruct break_at_terminator as [El [Eq [Ep [Ee Ev]]]].
  { rewrite Hch. right. right. right. reflexivity. }
  { intros H1. rewrite Hch. unfold two_char_operator.
    apply Ascii.eqb_neq in Hne; [|exact H1]. rewrite Hne. reflexivity. }
  unfold fstring_find_expr.
  rewrite Ev, El. cbn [bind]. rewrite Eq, Ep, Ee, Hcompile. cbn [bind].
  rewrite Hch.
  cbn [bind Ascii.eqb Bool.eqb negb orb andb].
  assert (Ever : (feature_version p <? 8)%Z = false)
    by (apply Z.ltb_ge; exact Hver).
  rewrite Ever, Hdec.
  set (str1 := skip_space (List.length buf) buf (S (cursor st))) in *.
  assert (E1 : (end_ <=? str1) = false) by (apply Nat.leb_gt; exact Hs).
  cbn [or_raised bind]. rewrite Hr.
  cbn [bind Ascii.eqb Bool.eqb negb orb andb].
  rewrite E1, Hr.
  cbn [bind Ascii.eqb Bool.eqb negb orb andb].
  rewrite E1, Hr.
  reflexivity.
Qed.

Lemma find_expr_format_spec (spec : expr_ty) (str' : nat) :
  peek buf (cursor st) = ":"%char ->
  S (cursor st) < end_ ->
  parse_spec (S (cursor st)) (recurse_lvl + 1)%Z = Ok (spec, str') ->
  str' < end_ ->
  peek buf str' = RBRACE ->
  fstring_find_expr p buf end_ first_token t last_token parse_spec str
    recurse_lvl
  = Ok (S str', None,
        FormattedValue e (-1) (Some spec)
          (span_of first_token last_token)).
Proof.
  intros Hch H1 Hspec Hs Hr.
  destruct break_at_terminator as [El [Eq [Ep [Ee Ev]]]].
  { rewrite Hch. right. left. reflexivity. }
  { intros _. rewrite Hch. reflexivity. }
  unfold fstring_find_expr.
  rewrite Ev, El. cbn [bind]. rewrite Eq, Ep, Ee, Hcompile. cbn [bind].
  rewrite Hch.
  cbn [bind Ascii.eqb Bool.eqb negb orb andb].
  rewrite Hch.
  cbn [bind Ascii.eqb Bool.eqb negb orb andb].
  rewrite Ee, Hch.
  cbn [bind Ascii.eqb Bool.eqb negb orb andb].
  assert (E1 : (end_ <=? S (cursor st)) = false)
    by (apply Nat.leb_gt; exact H1).
  assert (E2 : (end_ <=? str') = false) by (apply Nat.leb_gt; exact Hs).
  rewrite E1, Hspec. cbn [bind]. rewrite E2, Hr.
  reflexivity.
Qed.

End FieldProofs.

(** X9: a field of an expression alone: when the scanner leaves its loop on
    a right brace outside strings and brackets, and the expression
    before it compiles, [fstring_find_expr] gives a FormattedValue node
    with no conversion ([-1]) and no format spec, no expression text,
    and the cursor past the brace. *)
Theorem simple_field_is_formatted_value `{Runtime} (p : Parser)
    (buf : cstring) (end_ : nat) (first_token t last_token : Token)
    (parse_spec : nat -> Z -> result (expr_ty * nat)) (str : nat)
    (recurse_lvl : Z) (st : ExprScan) (e : expr_ty) :
  (recurse_lvl < 2)%Z ->
  str < end_ ->
  scan_reaches buf end_ (scan_start (S str)) st ->
  cursor st < end_ ->
  top_level st ->
  fstring_compile_expr p buf (S str) (cursor st) t = Ok e ->
  peek buf (cursor st) = RBRACE ->
  fstring_find_expr p buf end_ first_token t last_token parse_spec str
    recurse_lvl
  = Ok (S (cursor st), None,
        FormattedValue e (-1) None (span_of first_token last_token)).
Proof. intros. apply find_expr_simple; assumption. Qed.

(** The field of a call. *)
Lemma simple_field_is_formatted_value_witness :
  fstring_find_expr (RT := lp64) (parser 8) (quoted "f" "{f(a)}") 8
    (token (quoted "f" "{f(a)}")) (token (quoted "f" "{f(a)}"))
    (token (quoted "f" "{f(a)}"))
    (fstring_parse (parser 8) (quoted "f" "{f(a)}") 8 false
       (token (quoted "f" "{f(a)}")) (token (quoted "f" "{f(a)}"))
       (token (quoted "f" "{f(a)}")))
    2 0
  = Ok (8, None,
        FormattedValue (@Parsed lp64 (str "(f(a))")) (-1) None
          (span_of (token (quoted "f" "{f(a)}"))
             (token (quoted "f" "{f(a)}")))).
Proof.
  apply (@simple_field_is_formatted_value lp64 (parser 8)
           (quoted "f" "{f(a)}") 8
           (token (quoted "f" "{f(a)}")) (token (quoted "f" "{f(a)}"))
           (token (quoted "f" "{f(a)}"))
           (fstring_parse (parser 8) (quoted "f" "{f(a)}") 8 false
              (token (quoted "f" "{f(a)}")) (token (quoted "f" "{f(a)}"))
              (token (quoted "f" "{f(a)}")))
           2 0
           {| cursor := 7; quote_char := NUL; string_type := 0;
              parenstack := [] |}
           (@Parsed lp64 (str "(f(a))"))).
  - lia.
  - lia.
  - eapply reaches_next; [cbn; lia | reflexivity |].
    eapply reaches_next; [cbn; lia | reflexivity |].
    eapply reaches_next; [cbn; lia | reflexivity |].
    eapply reaches_next; [cbn; lia | reflexivity |].
    apply reaches_here.
  - cbn; lia.
  - split; reflexivity.
  - reflexivity.
  - reflexivity.
Defined.

(** X10: a field with a conversion: after an exclamation mark (that no [=]
    follows) one of the characters [s], [r], [a] and a right brace give
    a FormattedValue node whose conversion is the code of the
    character. *)
Theorem conversion_field_keeps_its_character `{Runtime} (p : Parser)
    (buf : cstring) (end_ : nat) (first_token t last_token : Token)
    (parse_spec : nat -> Z -> result (expr_ty * nat)) (str : nat)
    (recurse_lvl : Z) (st : ExprScan) (e : expr_ty) (c : ascii) :
  (recurse_lvl < 2)%Z ->
  str < end_ ->
  scan_reaches buf end_ (scan_start (S str)) st ->
  cursor st < end_ ->
  top_level st ->
  fstring_compile_expr p buf (S str) (cursor st) t = Ok e ->
  peek buf (cursor st) = "!"%char ->
  peek buf (S (cursor st)) = c ->
  c = "s"%char \/ c = "r"%char \/ c = "a"%char ->
  S (S (cursor st)) < end_ ->
  peek buf (S (S (cursor st))) = RBRACE ->
  fstring_find_expr p buf end_ first_token t last_token parse_spec str
    recurse_lvl
  = Ok (S (S (S (cursor st))), None,
        FormattedValue e (Z.of_nat (nat_of_ascii c)) None
          (span_of first_token last_token)).
Proof.
  intros Hlvl Hstr Hreach Hlt Htop Hcompile Hch Hc Hvalid H2 Hr.
  assert (Hne : c <> "="%char)
    by (destruct Hvalid as [->|[->| ->]]; discriminate).
  pose proof (@find_expr_conversion _ p buf end_ first_token t last_token
                parse_spec str recurse_lvl st e Hlvl Hstr Hreach Hlt Htop
                Hcompile c Hch ltac:(lia) Hc Hne) as Hconv.
  assert (Ec : (c =? "s")%char || (c =? "r")%char || (c =? "a")%char = true)
    by (destruct Hvalid as [->|[->| ->]]; reflexivity).
  rewrite Ec in Hconv. apply Hconv; assumption.
Qed.

(** The field of a name with the conversion [r]. *)
Lemma conversion_field_keeps_its_character_witness :
  fstring_find_expr (RT := lp64) (parser 8) (quoted "f" "{x!r}") 7
    (token (quoted "f" "{x!r}")) (token (quoted "f" "{x!r}"))
    (token (quoted "f" "{x!r}"))
    (fstring_parse (parser 8) (quoted "f" "{x!r}") 7 false
       (token (quoted "f" "{x!r}")) (token (quoted "f" "{x!r}"))
       (token (quoted "f" "{x!r}")))
    2 0
  = Ok (7, None,
        FormattedValue (@Parsed lp64 (str "(x)")) 114 None
          (span_of (token (quoted "f" "{x!r}"))
             (token (quoted "f" "{x!r}")))).
Proof.
  apply (@conversion_field_keeps_its_character lp64 (parser 8)
           (quoted "f" "{x!r}") 7
           (token (quoted "f" "{x!r}")) (token (quoted "f" "{x!r}"))
           (token (quoted "f" "{x!r}"))
           (fstring_parse (parser 8) (quoted "f" "{x!r}") 7 false
              (token (quoted "f" "{x!r}")) (token (quoted "f" "{x!r}"))
              (token (quoted "f" "{x!r}")))
           2 0
           {| cursor := 4; quote_char := NUL; string_type := 0;
              parenstack := [] |}
           (@Parsed lp64 (str "(x)")) "r"%char).
  - lia.
  - lia.
  - eapply reaches_next; [cbn; lia | reflexivity |].
    apply reaches_here.
  - cbn; lia.
  - split; reflexivity.
  - reflexivity.
  - reflexivity.
  - reflexivity.
  - right. left. reflexivity.
  - cbn; lia.
  - reflexivity.
Defined.

(** X11: after an exclamation mark, a character other than [s], [r], [a]
    (and other than [=]) makes [fstring_find_expr] fail with the syntax
    error "f-string: invalid conversion character: expected 's', 'r', or
    'a'", once the expression has compiled. *)
Theorem invalid_conversion_is_rejected `{Runtime} (p : Parser)
    (buf : cstring) (end_ : nat) (first_token t last_token : Token)
    (parse_spec : nat -> Z -> result (expr_ty * nat)) (str : nat)
    (recurse_lvl : Z) (st : ExprScan) (e : expr_ty) (c : ascii) :
  (recurse_lvl < 2)%Z ->
  str < end_ ->
  scan_reaches buf end_ (scan_start (S str)) st ->
  cursor st < end_ ->
  top_level st ->
  fstring_compile_expr p buf (S str) (cursor st) t = Ok e ->
  peek buf (cursor st) = "!"%char ->
  S (cursor st) < end_ ->
  peek buf (S (cursor st)) = c ->
  c <> "s"%char -> c <> "r"%char -> c <> "a"%char -> c <> "="%char ->
  fstring_find_expr p buf end_ first_token t last_token parse_spec str
    recurse_lvl
  = Err (SyntaxError
           "f-string: invalid conversion character: expected 's', 'r', or 'a'").
Proof.
  intros Hlvl Hstr Hreach Hlt Htop Hcompile Hch H1 Hc Hs Hr Ha Hne.
  pose proof (@find_expr_conversion _ p buf end_ first_token t last_token
                parse_spec str recurse_lvl st e Hlvl Hstr Hreach Hlt Htop
                Hcompile c Hch H1 Hc Hne) as Hconv.
  apply Ascii.eqb_neq in Hs, Hr, Ha. rewrite Hs, Hr, Ha in Hconv.
  exact Hconv.
Qed.

(** The field of a name with the conversion [x]. *)
Lemma invalid_conversion_is_rejected_witness :
  fstring_find_expr (RT := lp64) (parser 8) (quoted "f" "{x!x}") 7
    (token (quoted "f" "{x!x}")) (token (quoted "f" "{x!x}"))
    (token (quoted "f" "{x!x}"))
    (fstring_parse (parser 8) (quoted "f" "{x!x}") 7 false
       (token (quoted "f" "{x!x}")) (token (quoted "f" "{x!x}"))
       (token (quoted "f" "{x!x}")))
    2 0
  = Err (SyntaxError
           "f-string: invalid conversion character: expected 's', 'r', or 'a'").
Proof.
  apply (@invalid_conversion_is_rejected lp64 (parser 8)
           (quoted "f" "{x!x}") 7
           (token (quoted "f" "{x!x}")) (token (quoted "f" "{x!x}"))
           (token (quoted "f" "{x!x}"))
           (fstring_parse (parser 8) (quoted "f" "{x!x}") 7 false
              (token (quoted "f" "{x!x}")) (token (quoted "f" "{x!x}"))
              (token (quoted "f" "{x!x}")))
           2 0
           {| cursor := 4; quote_char := NUL; string_type := 0;
              parenstack := [] |}
           (@Parsed lp64 (str "(x)")) "x"%char).
  - lia.
  - lia.
  - eapply reaches_next; [cbn; lia | reflexivity |].
    apply reaches_here.
  - cbn; lia.
  - split; reflexivity.
  - reflexivity.
  - reflexivity.
  - cbn; lia.
  - reflexivity.
  - discriminate.
  - discriminate.
  - discriminate.
  - discriminate.
Defined.

(** X12: a self-documenting field: after an equals sign (that no other [=]
    follows), white space and a right brace, at feature version 8 or
    more, the expression text is the text from the start of the
    expression to the brace, equals sign and white space included, and
    the conversion is [r]. *)
Theorem self_documenting_field_has_text `{Runtime} (p : Parser)
    (buf : cstring) (end_ : nat) (first_token t last_token : Token)
    (parse_spec : nat -> Z -> result (expr_ty * nat)) (str : nat)
    (recurse_lvl : Z) (st : ExprScan) (e : expr_ty) (text : unicode) :
  (recurse_lvl < 2)%Z ->
  str < end_ ->
  scan_reaches buf end_ (scan_start (S str)) st ->
  cursor st < end_ ->
  top_level st ->
  fstring_compile_expr p buf (S str) (cursor st) t = Ok e ->
  peek buf (cursor st) = "="%char ->
  (S (cursor st) < end_ -> peek buf (S (cursor st)) <> "="%char) ->
  (8 <= feature_version p)%Z ->
  skip_space (List.length buf) buf (S (cursor st)) < end_ ->
  peek buf (skip_space (List.length buf) buf (S (cursor st))) = RBRACE ->
  PyUnicode_DecodeUTF8
    (slice buf (S str)
       (skip_space (List.length buf) buf (S (cursor st)) - S str))
  = Some text ->
  fstring_find_expr p buf end_ first_token t last_token parse_spec str
    recurse_lvl
  = Ok (S (skip_space (List.length buf) buf (S (cursor st))), Some text,
        FormattedValue e 114 None (span_of first_token last_token)).
Proof. intros. apply find_expr_debug; assumption. Qed.

(** The field of a name, an equals sign and spaces around it. *)
Lemma self_documenting_field_has_text_witness :
  fstring_find_expr (RT := lp64) (parser 8) (quoted "f" "{x = }") 8
    (token (quoted "f" "{x = }")) (token (quoted "f" "{x = }"))
    (token (quoted "f" "{x = }"))
    (fstring_parse (parser 8) (quoted "f" "{x = }") 8 false
       (token (quoted "f" "{x = }")) (token (quoted "f" "{x = }"))
       (token (quoted "f" "{x = }")))
    2 0
  = Ok (8, Some (codes (str "x = ")),
        FormattedValue (@Parsed lp64 (str "(x )")) 114 None
          (span_of (token (quoted "f" "{x = }"))
             (token (quoted "f" "{x = }")))).
Proof.
  apply (@self_documenting_field_has_text lp64 (parser 8)
           (quoted "f" "{x = }") 8
           (token (quoted "f" "{x = }")) (token (quoted "f" "{x = }"))
           (token (quoted "f" "{x = }"))
           (fstring_parse (parser 8) (quoted "f" "{x = }") 8 false
              (token (quoted "f" "{x = }")) (token (quoted "f" "{x = }"))
              (token (quoted "f" "{x = }")))
           2 0
           {| cursor := 5; quote_char := NUL; string_type := 0;
              parenstack := [] |}
           (@Parsed lp64 (str "(x )")) (codes (str "x = "))).
  - lia.
  - lia.
  - eapply reaches_next; [cbn; lia | reflexivity |].
    eapply reaches_next; [cbn; lia | reflexivity |].
    apply reaches_here.
  - cbn; lia.
  - split; reflexivity.
  - reflexivity.
  - reflexivity.
  - intros _. discriminate.
  - cbn; lia.
  - cbn; lia.
  - reflexivity.
  - reflexivity.
Defined.

(** X13: below feature version 8 the equals sign of a self-documenting field
    makes [fstring_find_expr] fail with the syntax error "f-string: self
    documenting expressions are only supported in Python 3.8 and
    greater", once the expression has compiled. *)
Theorem self_documenting_field_needs_version_8 `{Runtime} (p : Parser)
    (buf : cstring) (end_ : nat) (first_token t last_token : Token)
    (parse_spec : nat -> Z -> result (expr_ty * nat)) (str : nat)
    (recurse_lvl : Z) (st : ExprScan) (e : expr_ty) :
  (recurse_lvl < 2)%Z ->
  str < end_ ->
  scan_reaches buf end_ (scan_start (S str)) st ->
  cursor st < end_ ->
  top_level st ->
  fstring_compile_expr p buf (S str) (cursor st) t = Ok e ->
  peek buf (cursor st) = "="%char ->
  (S (cursor st) < end_ -> peek buf (S (cursor st)) <> "="%char) ->
  (feature_version p < 8)%Z ->
  fstring_find_expr p buf end_ first_token t last_token parse_spec str
    recurse_lvl
  = Err (SyntaxError
           "f-string: self documenting expressions are only supported in Python 3.8 and greater").
Proof. intros. apply find_expr_old_version with (st := st) (e := e); assumption. Qed.

(** The self-documenting field of a name at feature version 7. *)
Lemma self_documenting_field_needs_version_8_witness :
  fstring_find_expr (RT := lp64) (parser 7) (quoted "f" "{x=}") 6
    (token (quoted "f" "{x=}")) (token (quoted "f" "{x=}"))
    (token (quoted "f" "{x=}"))
    (fstring_parse (parser 7) (quoted "f" "{x=}") 6 false
       (token (quoted "f" "{x=}")) (token (quoted "f" "{x=}"))
       (token (quoted "f" "{x=}")))
    2 0
  = Err (SyntaxError
           "f-string: self documenting expressions are only supported in Python 3.8 and greater").
Proof.
  apply (@self_documenting_field_needs_version_8 lp64 (parser 7)
           (quoted "f" "{x=}") 6
           (token (quoted "f" "{x=}")) (token (quoted "f" "{x=}"))
           (token (quoted "f" "{x=}"))
           (fstring_parse (parser 7) (quoted "f" "{x=}") 6 false
              (token (quoted "f" "{x=}")) (token (quoted "f" "{x=}"))
              (token (quoted "f" "{x=}")))
           2 0
           {| cursor := 4; quote_char := NUL; string_type := 0;
              parenstack := [] |}
           (@Parsed lp64 (str "(x)"))).
  - lia.
  - lia.
  - eapply reaches_next; [cbn; lia | reflexivity |].
    apply reaches_here.
  - cbn; lia.
  - split; reflexivity.
  - reflexivity.
  - reflexivity.
  - intros _. discriminate.
  - cbn; lia.
Defined.

(** X14: a field with a format spec: after a colon, the format spec that
    [fstring_parse] returns one level down, and a right brace where it
    stops, give a FormattedValue node with that format spec and no
    conversion. *)
Theorem format_spec_field_is_formatted_value `{Runtime} (p : Parser)
    (buf : cstring) (end_ : nat) (raw : bool)
    (first_token t last_token : Token) (str : nat)
    (recurse_lvl : Z) (st : ExprScan) (e spec : expr_ty) (str' : nat) :
  (recurse_lvl < 2)%Z ->
  str < end_ ->
  scan_reaches buf end_ (scan_start (S str)) st ->
  cursor st < end_ ->
  top_level st ->
  fstring_compile_expr p buf (S str) (cursor st) t = Ok e ->
  peek buf (cursor st) = ":"%char ->
  S (cursor st) < end_ ->
  fstring_parse p buf end_ raw first_token t last_token (S (cursor st))
    (recurse_lvl + 1)%Z = Ok (spec, str') ->
  str' < end_ ->
  peek buf str' = RBRACE ->
  fstring_find_expr p buf end_ first_token t last_token
    (fstring_parse p buf end_ raw first_token t last_token) str recurse_lvl
  = Ok (S str', None,
        FormattedValue e (-1) (Some spec)
          (span_of first_token last_token)).
Proof. intros. apply find_expr_format_spec with (st := st); assumption. Qed.

(** The field of a name with a format spec of two characters. *)
Lemma format_spec_field_is_formatted_value_witness :
  fstring_find_expr (RT := lp64) (parser 8) (quoted "f" "{x:>4}") 8
    (token (quoted "f" "{x:>4}")) (token (quoted "f" "{x:>4}"))
    (token (quoted "f" "{x:>4}"))
    (fstring_parse (parser 8) (quoted "f" "{x:>4}") 8 false
       (token (quoted "f" "{x:>4}")) (token (quoted "f" "{x:>4}"))
       (token (quoted "f" "{x:>4}")))
    2 0
  = Ok (8, None,
        FormattedValue (@Parsed lp64 (str "(x)")) (-1)
          (Some
             (JoinedStr
                [Constant (PyUnicode (codes (str ">4"))) None
                   (span_of (token (quoted "f" "{x:>4}"))
                      (token (quoted "f" "{x:>4}")))]
                (span_of (token (quoted "f" "{x:>4}"))
                   (token (quoted "f" "{x:>4}")))))
          (span_of (token (quoted "f" "{x:>4}"))
             (token (quoted "f" "{x:>4}")))).
Proof.
  apply (@format_spec_field_is_formatted_value lp64 (parser 8)
           (quoted "f" "{x:>4}") 8 false
           (token (quoted "f" "{x:>4}")) (token (quoted "f" "{x:>4}"))
           (token (quoted "f" "{x:>4}"))
           2 0
           {| cursor := 4; quote_char := NUL; string_type := 0;
              parenstack := [] |}
           (@Parsed lp64 (str "(x)"))
           (JoinedStr
              [Constant (PyUnicode (codes (str ">4"))) None
                 (span_of (token (quoted "f" "{x:>4}"))
                    (token (quoted "f" "{x:>4}")))]
              (span_of (token (quoted "f" "{x:>4}"))
                 (token (quoted "f" "{x:>4}"))))
           7).
  - lia.
  - lia.
  - eapply reaches_next; [cbn; lia | reflexivity |].
    apply reaches_here.
  - cbn; lia.
  - split; reflexivity.
  - reflexivity.
  - reflexivity.
  - cbn; lia.
  - reflexivity.
  - lia.
  - reflexivity.
Defined.

Section FormatSpec.

Context {RT : Runtime}.
Variables (p : Parser) (before pre after : cstring) (end_ : nat)
          (raw : bool) (first_token t last_token : Token).
Variables (recurse_lvl : Z) (v : unicode).

Hypothesis Hrun : literal_run raw pre.
Hypothesis Hdec : pre <> [] -> decode_literal raw pre = Ok v.
Hypothesis Hend : List.length before + List.length pre < end_.

Lemma fstring_parse_plain_spec :
  (0 < recurse_lvl)%Z ->
  fstring_parse p (before ++ pre ++ RBRACE :: after) end_ raw first_token
    t last_token (List.length before) recurse_lvl
  = Ok (JoinedStr
          match pre, v with
          | _ :: _, _ :: _ => [make_str_node_and_del v t t]
          | _, _ => []
          end
          (span_of t t),
        List.length before + List.length pre).
Proof.
  intros Hlvl.
  assert (Hpeek : peek (before ++ pre ++ RBRACE :: after)
                    (List.length before + List.length pre) = RBRACE)
    by (rewrite app_assoc, <- length_app, peek_app0; reflexivity).
  assert (E0 : (recurse_lvl =? 0)%Z = false) by (apply Z.eqb_neq; lia).
  unfold fstring_parse. cbn [fstring_parse_rec].
  unfold ConcatFstring_with. cbn [concat_loop].
  unfold fstring_find_literal_and_expr.
  rewrite (@find_literal_nested _ before pre after end_ raw t Hrun
             recurse_lvl RBRACE v) by (auto; lia).
  do 3 (cbn [bind andb negb orb Ascii.eqb Bool.eqb];
        change (0 =? 1)%Z with false; cbv iota;
        rewrite ?Hpeek, ?E0, ?orb_true_r).
  unfold run_literal, _Mys_PyPegen_FstringParser_Finish.
  destruct pre as [|c pre']; [reflexivity|].
  cbn [concat_opt]. unfold _Mys_PyPegen_FstringParser_ConcatAndDel.
  destruct v as [|x v']; reflexivity.
Qed.

Lemma fstring_parse_too_deep :
  (2 <= recurse_lvl)%Z ->
  fstring_parse p (before ++ pre ++ LBRACE :: after) end_ raw first_token
    t last_token (List.length before) recurse_lvl
  = Err (SyntaxError "f-string: expressions nested too deeply").
Proof.
  intros Hlvl.
  assert (Hpeek : peek (before ++ pre ++ LBRACE :: after)
                    (List.length before + List.length pre) = LBRACE)
    by (rewrite app_assoc, <- length_app, peek_app0; reflexivity).
  assert (Ee : (end_ <=? List.length before + List.length pre) = false)
    by (apply Nat.leb_gt; lia).
  unfold fstring_parse. cbn [fstring_parse_rec].
  unfold ConcatFstring_with. cbn [concat_loop].
  unfold fstring_find_literal_and_expr.
  rewrite (@find_literal_nested _ before pre after end_ raw t Hrun
             recurse_lvl LBRACE v) by (auto; lia).
  cbn [bind]. change (0 =? 1)%Z with false. cbv iota.
  rewrite Hpeek, Ee. cbn [orb Ascii.eqb Bool.eqb].
  unfold fstring_find_expr.
  apply Z.leb_le in Hlvl. rewrite Hlvl. reflexivity.
Qed.

End FormatSpec.

(** X15: a format spec of literal text: below the top level, [fstring_parse]
    on a run of text that a right brace ends gives a JoinedStr node of
    one Constant node with the text (of no node when there is no text),
    and stops on the brace.  The nodes have the location and the kind
    of the token [t]. *)
Theorem plain_format_spec_is_joined_str `{Runtime} (p : Parser)
    (before pre after : cstring) (end_ : nat) (raw : bool)
    (first_token t last_token : Token) (recurse_lvl : Z) (v : unicode) :
  literal_run raw pre ->
  (pre <> [] -> decode_literal raw pre = Ok v) ->
  List.length before + List.length pre < end_ ->
  (0 < recurse_lvl)%Z ->
  fstring_parse p (before ++ pre ++ RBRACE :: after) end_ raw first_token
    t last_token (List.length before) recurse_lvl
  = Ok (JoinedStr
          match pre, v with
          | _ :: _, _ :: _ =>
              [Constant (PyUnicode v)
                 (if (peek (bytes t) 0 =? "u")%char
                  then Some "u"%string else None)
                 (span_of t t)]
          | _, _ => []
          end
          (span_of t t),
        List.length before + List.length pre).
Proof. intros. apply fstring_parse_plain_spec; assumption. Qed.

(** The format spec of two characters in a field. *)
Lemma plain_format_spec_is_joined_str_witness :
  fstring_parse (RT := lp64) (parser 8) (quoted "f" "{x:>4}") 8 false
    (token (quoted "f" "{x:>4}")) (token (quoted "f" "{x:>4}"))
    (token (quoted "f" "{x:>4}")) 5 1
  = Ok (JoinedStr
          [Constant (PyUnicode (codes (str ">4"))) None
             (span_of (token (quoted "f" "{x:>4}"))
                (token (quoted "f" "{x:>4}")))]
          (span_of (token (quoted "f" "{x:>4}"))
             (token (quoted "f" "{x:>4}"))),
        7).
Proof.
  apply (@plain_format_spec_is_joined_str lp64 (parser 8)
           (str "f" ++ DQUOTE :: str "{x:") (str ">4") [DQUOTE] 8 false
           (token (quoted "f" "{x:>4}")) (token (quoted "f" "{x:>4}"))
           (token (quoted "f" "{x:>4}")) 1 (codes (str ">4"))).
  - apply run_byte; [discriminate|discriminate|right; discriminate|].
    apply run_byte; [discriminate|discriminate|right; discriminate|].
    apply run_nil.
  - reflexivity.
  - cbn; lia.
  - lia.
Defined.

(** X16: fields nest two levels deep and no deeper: at recursion level 2 or
    more, a left brace in the format spec makes [fstring_parse] fail with
    the syntax error "f-string: expressions nested too deeply". *)
Theorem field_in_nested_format_spec_is_rejected `{Runtime} (p : Parser)
    (before pre after : cstring) (end_ : nat) (raw : bool)
    (first_token t last_token : Token) (recurse_lvl : Z) (v : unicode) :
  literal_run raw pre ->
  (pre <> [] -> decode_literal raw pre = Ok v) ->
  List.length before + List.length pre < end_ ->
  (2 <= recurse_lvl)%Z ->
  fstring_parse p (before ++ pre ++ LBRACE :: after) end_ raw first_token
    t last_token (List.length before) recurse_lvl
  = Err (SyntaxError "f-string: expressions nested too deeply").
Proof. intros. apply fstring_parse_too_deep with (v := v); assumption. Qed.

(** The format spec of the format spec of a field holds a field. *)
Lemma field_in_nested_format_spec_is_rejected_witness :
  fstring_parse (RT := lp64) (parser 8) (quoted "f" "{a:{b:{c}}}") 13
    false (token (quoted "f" "{a:{b:{c}}}"))
    (token (quoted "f" "{a:{b:{c}}}")) (token (quoted "f" "{a:{b:{c}}}"))
    8 2
  = Err (SyntaxError "f-string: expressions nested too deeply").
Proof.
  apply (@field_in_nested_format_spec_is_rejected lp64 (parser 8)
           (str "f" ++ DQUOTE :: str "{a:{b:") [] (str "c}}}" ++ [DQUOTE])
           13 false
           (token (quoted "f" "{a:{b:{c}}}"))
           (token (quoted "f" "{a:{b:{c}}}"))
           (token (quoted "f" "{a:{b:{c}}}")) 2 []).
  - apply run_nil.
  - intros E. contradiction.
  - cbn; lia.
  - lia.
Defined.

(** ** A body of a text, a field and a text *)

Section TextFieldText.

Context {RT : Runtime}.
Variables (p : Parser) (before pre1 expr pre2 after : cstring)
          (raw : bool) (first_token t last_token : Token).
Variables (v1 v2 : unicode) (st : ExprScan) (e : expr_ty).

Let buf := before ++ pre1 ++ LBRACE :: expr ++ RBRACE :: pre2 ++ after.
Let open := List.length before + List.length pre1.
Let close := S open + List.length expr.
Let end_ := S close + List.length pre2.

Hypothesis Hrun1 : literal_run raw pre1.
Hypothesis Hrun2 : literal_run raw pre2.
Hypothesis Hdec1 : pre1 <> [] -> decode_literal raw pre1 = Ok v1.
Hypothesis Hdec2 : pre2 <> [] -> decode_literal raw pre2 = Ok v2.
Hypothesis Hexpr : peek expr 0 <> LBRACE.
Hypothesis Hreach : scan_reaches buf end_ (scan_start (S open)) st.
Hypothesis Hcursor : cursor st = close.
Hypothesis Htop : top_level st.
Hypothesis Hcompile : fstring_compile_expr p buf (S open) close t = Ok e.

Lemma concat_text_field_text :
  exists state,
    _Mys_PyPegen_FstringParser_ConcatFstring p
      _Mys_PyPegen_FstringParser_Init buf (List.length before) end_ raw 0
      first_token t last_token
    = Ok (state, end_)
    /\ _Mys_PyPegen_FstringParser_Finish state first_token last_token
       = JoinedStr
           (text_node pre1 v1 first_token last_token
            ++ FormattedValue e (-1) None (span_of first_token last_token)
               :: text_node pre2 v2 first_token last_token)
           (span_of first_token last_token).
Proof.
  assert (Hbuf2 : buf = (before ++ pre1 ++ LBRACE :: expr ++ [RBRACE])
                        ++ pre2 ++ after).
  { unfold buf. repeat (rewrite <- app_assoc; cbn [app]). reflexivity. }
  assert (Hlen2 : List.length (before ++ pre1 ++ LBRACE :: expr ++ [RBRACE])
                  = S close).
  { rewrite !length_app. cbn [List.length]. rewrite length_app.
    cbn [List.length]. unfold close, open. lia. }
  assert (Hopen : peek buf open = LBRACE).
  { unfold buf, open. rewrite app_assoc, <- length_app, peek_app0.
    reflexivity. }
  assert (Hclose : peek buf close = RBRACE).
  { unfold buf, close, open.
    replace (before ++ pre1 ++ LBRACE :: expr ++ RBRACE :: pre2 ++ after)
      with ((before ++ pre1 ++ LBRACE :: expr) ++ RBRACE :: pre2 ++ after)
      by (repeat (rewrite <- app_assoc; cbn [app]); reflexivity).
    replace (S (List.length before + List.length pre1) + List.length expr)
      with (List.length (before ++ pre1 ++ LBRACE :: expr))
      by (rewrite !length_app; cbn [List.length]; lia).
    rewrite peek_app0. reflexivity. }
  (* the first round: the text and the field *)
  assert (Hlit1 :
    fstring_find_literal buf end_ raw 0 t (List.length before)
    = Ok (0%Z, open, run_literal pre1 v1)).
  { unfold buf, open. apply find_literal_lbrace; auto.
    - unfold end_, close, open. lia.
    - intros _. rewrite <- (Nat.add_0_r 0).
      destruct expr; [discriminate|exact Hexpr]. }
  assert (Hfield :
    forall parse_spec,
      fstring_find_expr p buf end_ first_token t last_token parse_spec
        open 0
      = Ok (S close, None,
            FormattedValue e (-1) None (span_of first_token last_token))).
  { intros parse_spec. rewrite <- Hcursor.
    apply find_expr_simple; try assumption.
    - lia.
    - unfold end_, close. lia.
    - rewrite Hcursor. unfold end_. lia.
    - rewrite Hcursor. exact Hcompile.
    - rewrite Hcursor. exact Hclose. }
  (* the second round: the text up to the end *)
  assert (Hlit2 :
    fstring_find_literal buf end_ raw 0 t (S close)
    = Ok (0%Z, end_, run_literal pre2 v2)).
  { rewrite Hbuf2, <- Hlen2. apply find_literal_end; auto.
    rewrite Hlen2. reflexivity. }
  unfold _Mys_PyPegen_FstringParser_ConcatFstring, ConcatFstring_with.
  replace (S (end_ - List.length before))
    with (S (S (end_ - List.length before - 1)))
    by (unfold end_, close, open; lia).
  cbn [concat_loop]. unfold fstring_find_literal_and_expr at 1.
  rewrite Hlit1. cbn [bind]. change (0 =? 1)%Z with false. cbv iota.
  assert (E1 : (end_ <=? open) = false)
    by (apply Nat.leb_gt; unfold end_, close; lia).
  rewrite E1, Hopen. cbn [orb Ascii.eqb Bool.eqb].
  rewrite Hfield. cbn [bind]. change (0 =? 1)%Z with false. cbv iota.
  unfold fstring_find_literal_and_expr. rewrite Hlit2. cbn [bind].
  change (0 =? 1)%Z with false. cbv iota.
  rewrite Nat.leb_refl. cbn [orb bind].
  change (0 =? 1)%Z with false. cbv iota. cbn [bind].
  change (0 =? 0)%Z with true. cbn [andb negb].
  assert (E2 : (end_ <? end_ - 1) = false) by (apply Nat.ltb_ge; lia).
  rewrite E2.
  eexists. split; [reflexivity|].
  unfold _Mys_PyPegen_FstringParser_Finish, text_node, run_literal,
    ExprList_Append.
  cbn [concat_opt fs_fmode negb last_str expr_list
       _Mys_PyPegen_FstringParser_Init].
  destruct pre1 as [|c1 r1], pre2 as [|c2 r2];
    cbn [concat_opt fs_fmode negb last_str expr_list];
    unfold _Mys_PyPegen_FstringParser_ConcatAndDel;
    destruct v1 as [|x1 u1], v2 as [|x2 u2]; reflexivity.
Qed.

End TextFieldText.

(** X17: a text, a field of an expression alone and a text: ConcatFstring on
    the body and Finish give a JoinedStr node of a Constant node for the
    text before the field (if it is not empty), the FormattedValue node
    of the field, and a Constant node for the text after it (if it is
    not empty). *)
Theorem text_field_text_is_joined_str `{Runtime} (p : Parser)
    (before pre1 expr pre2 after : cstring) (raw : bool)
    (first_token t last_token : Token) (v1 v2 : unicode) (st : ExprScan)
    (e : expr_ty) :
  literal_run raw pre1 ->
  literal_run raw pre2 ->
  (pre1 <> [] -> decode_literal raw pre1 = Ok v1) ->
  (pre2 <> [] -> decode_literal raw pre2 = Ok v2) ->
  peek expr 0 <> LBRACE ->
  scan_reaches
    (before ++ pre1 ++ LBRACE :: expr ++ RBRACE :: pre2 ++ after)
    (S (S (List.length before + List.length pre1) + List.length expr)
     + List.length pre2)
    (scan_start (S (List.length before + List.length pre1))) st ->
  cursor st = S (List.length before + List.length pre1) + List.length expr ->
  top_level st ->
  fstring_compile_expr p
    (before ++ pre1 ++ LBRACE :: expr ++ RBRACE :: pre2 ++ after)
    (S (List.length before + List.length pre1))
    (S (List.length before + List.length pre1) + List.length expr) t
  = Ok e ->
  exists state,
    _Mys_PyPegen_FstringParser_ConcatFstring p
      _Mys_PyPegen_FstringParser_Init
      (before ++ pre1 ++ LBRACE :: expr ++ RBRACE :: pre2 ++ after)
      (List.length before)
      (S (S (List.length before + List.length pre1) + List.length expr)
       + List.length pre2)
      raw 0 first_token t last_token
    = Ok (state,
          S (S (List.length before + List.length pre1) + List.length expr)
          + List.length pre2)
    /\ _Mys_PyPegen_FstringParser_Finish state first_token last_token
       = JoinedStr
           (text_node pre1 v1 first_token last_token
            ++ FormattedValue e (-1) None (span_of first_token last_token)
               :: text_node pre2 v2 first_token last_token)
           (span_of first_token last_token).
Proof. intros. apply concat_text_field_text with (st := st); assumption. Qed.

(** The f-string of a text, the field of a name and a text. *)
Lemma text_field_text_is_joined_str_witness :
  exists state,
    _Mys_PyPegen_FstringParser_ConcatFstring (RT := lp64) (parser 8)
      _Mys_PyPegen_FstringParser_Init (quoted "f" "a{x}b") 2 7 false 0
      (token (quoted "f" "a{x}b")) (token (quoted "f" "a{x}b"))
      (token (quoted "f" "a{x}b"))
    = Ok (state, 7)
    /\ _Mys_PyPegen_FstringParser_Finish state
         (token (quoted "f" "a{x}b")) (token (quoted "f" "a{x}b"))
       = JoinedStr
           [Constant (PyUnicode (codes (str "a"))) None
              (span_of (token (quoted "f" "a{x}b"))
                 (token (quoted "f" "a{x}b")));
            FormattedValue (@Parsed lp64 (str "(x)")) (-1) None
              (span_of (token (quoted "f" "a{x}b"))
                 (token (quoted "f" "a{x}b")));
            Constant (PyUnicode (codes (str "b"))) None
              (span_of (token (quoted "f" "a{x}b"))
                 (token (quoted "f" "a{x}b")))]
           (span_of (token (quoted "f" "a{x}b"))
              (token (quoted "f" "a{x}b"))).
Proof.
  apply (@text_field_text_is_joined_str lp64 (parser 8)
           (str "f" ++ [DQUOTE]) (str "a") (str "x") (str "b") [DQUOTE]
           false (token (quoted "f" "a{x}b")) (token (quoted "f" "a{x}b"))
           (token (quoted "f" "a{x}b")) (codes (str "a")) (codes (str "b"))
           {| cursor := 5; quote_char := NUL; string_type := 0;
              parenstack := [] |}
           (@Parsed lp64 (str "(x)"))).
  - apply run_byte; [discriminate|discriminate|right; discriminate|].
    apply run_nil.
  - apply run_byte; [discriminate|discriminate|right; discriminate|].
    apply run_nil.
  - reflexivity.
  - reflexivity.
  - discriminate.
  - eapply reaches_next; [cbn; lia | reflexivity |].
    apply reaches_here.
  - reflexivity.
  - split; reflexivity.
  - reflexivity.
Defined.

(** ** The quotes of a token *)

Section StripBounds.

Context {RT : Runtime}.

Lemma peek_inside (buf : cstring) (k : nat) :
  peek buf k <> NUL -> k < List.length buf.
Proof.
  intros H. destruct (Nat.lt_ge_cases k (List.length buf)) as [Hlt|Hge];
    [exact Hlt|].
  exfalso. apply H. unfold peek. apply nth_overflow. exact Hge.
Qed.

(** The check of the triple quotes, after the closing quote at
    [s + len] was found. *)
Lemma strip_quotes (buf : cstring) (quote : ascii) (is_char : bool)
    (s len s' len' : nat) :
  peek buf (s + len) = quote ->
  peek buf (s - 1) = quote ->
  0 < s ->
  (if (4 <=? len) && (peek buf s =? quote)%char
      && (peek buf (S s) =? quote)%char then
     if is_char then
       Err (SyntaxError "characters cannot be triple quoted")
     else
       if negb (peek buf (s + 2 + (len - 2 - 1)) =? quote)%char
          || negb (peek buf (s + 2 + (len - 2 - 2)) =? quote)%char
       then Err BadInternalCall
       else Ok (s + 2, len - 2 - 2)
   else Ok (s, len)) = Ok (s', len') ->
  s <= s' /\ peek buf (s' - 1) = quote /\ peek buf (s' + len') = quote
  /\ s' + len' <= s + len.
Proof.
  intros Hclose Hopen Hs.
  destruct ((4 <=? len) && (peek buf s =? quote)%char
            && (peek buf (S s) =? quote)%char) eqn:Etriple.
  - destruct is_char; [discriminate|].
    destruct (negb (peek buf (s + 2 + (len - 2 - 1)) =? quote)%char
              || negb (peek buf (s + 2 + (len - 2 - 2)) =? quote)%char)
      eqn:Eend; [discriminate|].
    intros E. injection E as <- <-.
    apply andb_prop in Etriple. destruct Etriple as [Etriple E2].
    apply andb_prop in Etriple. destruct Etriple as [Hlen E1].
    apply Nat.leb_le in Hlen. apply Ascii.eqb_eq in E2.
    apply orb_false_elim in Eend. destruct Eend as [_ E4].
    apply negb_false_iff, Ascii.eqb_eq in E4.
    replace (s + 2 - 1) with (S s) by lia.
    repeat split; [lia|exact E2|exact E4|lia].
  - intros E. injection E as <- <-. repeat split; auto.
Qed.

(** The loop over the flags stops at the opening quote at the latest. *)
Lemma reflags_loop_stops (buf : cstring) (s : nat) (quote : ascii) (n : nat) :
  peek buf (s - 1) = quote -> reflags_loop buf s quote n <> None.
Proof.
  intros Hopen. induction n as [|m IH]; cbn [reflags_loop].
  - rewrite Hopen, Ascii.eqb_refl. discriminate.
  - destruct (peek buf (s + m) =? quote)%char; [discriminate|exact IH].
Qed.

(** When it stops there, the string holds no quote. *)
Lemma reflags_loop_none (buf : cstring) (s : nat) (quote : ascii) (n : nat) :
  reflags_loop buf s quote n = Some 0 ->
  forall k, k < n -> peek buf (s + k) <> quote.
Proof.
  induction n as [|m IH]; intros E k Hk; [lia|].
  cbn [reflags_loop] in E.
  destruct (peek buf (s + m) =? quote)%char eqn:Em; [discriminate|].
  apply Ascii.eqb_neq in Em.
  destruct (Nat.eq_dec k m) as [->|Hne]; [exact Em|].
  apply IH; [exact E|lia].
Qed.

Lemma in_skipn_peek (buf : cstring) (s : nat) (c : ascii) :
  In c (skipn s buf) ->
  exists k, k < List.length buf - s /\ peek buf (s + k) = c.
Proof.
  intros Hin. apply (In_nth _ _ NUL) in Hin.
  destruct Hin as [k [Hk E]]. rewrite length_skipn in Hk.
  exists k. split; [exact Hk|].
  unfold peek. rewrite <- E, nth_skipn. reflexivity.
Qed.

Lemma strip_encloses (p : Parser) (t : Token) :
  let quote := peek (bytes t) (fst (scan_prefix (bytes t))) in
  match parsestr_strip p t with
  | Ok x =>
      (quote = SQUOTE \/ quote = DQUOTE)
      /\ (st_is_char x = true <-> quote = SQUOTE)
      /\ fst (scan_prefix (bytes t)) < st_s x
      /\ peek (bytes t) (st_s x - 1) = quote
      /\ ((peek (bytes t) (st_s x + st_len x) = quote
           /\ st_s x + st_len x < List.length (bytes t))
          \/ (~ In quote (skipn (st_s x) (bytes t))
              /\ st_s x = S (fst (scan_prefix (bytes t)))
              /\ st_len x = Z.to_nat SIZE_MAX))
  | Err e => e <> OutOfBounds
  end.
Proof.
  unfold parsestr_strip.
  destruct (scan_prefix (bytes t)) as [s0 f]. cbn [fst].
  set (quote := peek (bytes t) s0).
  assert (Hquote : negb (quote =? SQUOTE)%char && negb (quote =? DQUOTE)%char
                   = false -> quote = SQUOTE \/ quote = DQUOTE).
  { destruct (quote =? SQUOTE)%char eqn:E1;
      [apply Ascii.eqb_eq in E1; auto|].
    destruct (quote =? DQUOTE)%char eqn:E2;
      [apply Ascii.eqb_eq in E2; auto|discriminate]. }
  assert (Hnul : quote = SQUOTE \/ quote = DQUOTE -> quote <> NUL)
    by (intros [-> | ->]; discriminate).
  destruct (if (quote =? SQUOTE)%char
            then if fmode f || bytesmode f || rawmode f || remode f || cmode f
                 then Err (SyntaxError "characters cannot have a prefix")
                 else Ok true
            else Ok false) as [is_char|e] eqn:Echar.
  2:{ cbn [bind]. destruct (quote =? SQUOTE)%char; [|discriminate].
      destruct (fmode f || bytesmode f || rawmode f || remode f || cmode f);
        [|discriminate].
      injection Echar as <-. discriminate. }
  assert (Hchar : is_char = true <-> quote = SQUOTE).
  { destruct (quote =? SQUOTE)%char eqn:E1.
    - apply Ascii.eqb_eq in E1.
      destruct (fmode f || bytesmode f || rawmode f || remode f || cmode f);
        [discriminate|].
      injection Echar as <-. tauto.
    - apply Ascii.eqb_neq in E1. injection Echar as <-.
      split; [discriminate|contradiction]. }
  cbn [bind].
  destruct (fmode f && (feature_version p <? 6)%Z); [discriminate|].
  destruct (fmode f && bytesmode f); [discriminate|].
  destruct (negb (quote =? SQUOTE)%char && negb (quote =? DQUOTE)%char)
    eqn:Eq; [discriminate|].
  specialize (Hquote eq_refl). specialize (Hnul Hquote).
  destruct (INT_MAX <? Z.of_nat (List.length (bytes t) - S s0))%Z;
    [discriminate|].
  assert (Hopen : peek (bytes t) (S s0 - 1) = quote)
    by (replace (S s0 - 1) with s0 by lia; reflexivity).
  (* the length is not zero before [--len] *)
  assert (Hfinish :
    forall len reflags,
      peek (bytes t) (S s0 + len) = quote ->
      match
        bind
          (if (4 <=? len) && (peek (bytes t) (S s0) =? quote)%char
              && (peek (bytes t) (S (S s0)) =? quote)%char then
             if is_char then
               Err (SyntaxError "characters cannot be triple quoted")
             else
               if negb (peek (bytes t) (S s0 + 2 + (len - 2 - 1))
                        =? quote)%char
                  || negb (peek (bytes t) (S s0 + 2 + (len - 2 - 2))
                           =? quote)%char
               then Err BadInternalCall
               else Ok (S s0 + 2, len - 2 - 2)
           else Ok (S s0, len))
          (fun '(s, len) =>
             Ok {| st_flags := f; st_is_char := is_char; st_s := s;
                   st_len := len; st_reflags := reflags |})
      with
      | Ok x =>
          (quote = SQUOTE \/ quote = DQUOTE)
          /\ (st_is_char x = true <-> quote = SQUOTE)
          /\ s0 < st_s x
          /\ peek (bytes t) (st_s x - 1) = quote
          /\ ((peek (bytes t) (st_s x + st_len x) = quote
               /\ st_s x + st_len x < List.length (bytes t))
              \/ (~ In quote (skipn (st_s x) (bytes t))
                  /\ st_s x = S s0
                  /\ st_len x = Z.to_nat SIZE_MAX))
      | Err e => e <> OutOfBounds
      end).
  { intros len reflags Hclose.
    match goal with
    | |- match bind ?c _ with _ => _ end =>
        destruct c as [[s' len']|e] eqn:E
    end; cbn [bind].
    - cbn [st_is_char st_s st_len].
      apply (strip_quotes _ _ _ Hclose Hopen ltac:(lia)) in E.
      destruct E as [Hs [Ho [Hc Hle]]].
      assert (Hin : s' + len' < List.length (bytes t))
        by (apply peek_inside; rewrite Hc; exact Hnul).
      repeat split; first [tauto | lia].
    - destruct ((4 <=? len) && (peek (bytes t) (S s0) =? quote)%char
                && (peek (bytes t) (S (S s0)) =? quote)%char);
        [|discriminate].
      destruct is_char; [injection E as <-; discriminate|].
      destruct (negb _ || negb _); [|discriminate].
      injection E as <-. discriminate. }
  (* the length is zero before [--len]: the string holds no quote *)
  assert (Hwrapped :
    forall reflags,
      (forall k, k < List.length (bytes t) - S s0 ->
                 peek (bytes t) (S s0 + k) <> quote) ->
      match
        (if negb (peek (bytes t) (S s0 - 1) =? quote)%char then
           Err BadInternalCall
         else if (4 <=? SIZE_MAX)%Z && (peek (bytes t) (S s0) =? quote)%char
                 && (peek (bytes t) (S (S s0)) =? quote)%char then
           if is_char then
             Err (SyntaxError "characters cannot be triple quoted")
           else
             if S s0 <? 2 then Err OutOfBounds
             else if negb (peek (bytes t) (S s0 - 2) =? quote)%char then
               Err BadInternalCall
             else if S s0 <? 3 then Err OutOfBounds
             else if negb (peek (bytes t) (S s0 - 3) =? quote)%char then
               Err BadInternalCall
             else
               Ok {| st_flags := f; st_is_char := is_char; st_s := S s0 + 2;
                     st_len := Z.to_nat (SIZE_MAX - 4);
                     st_reflags := reflags |}
         else
           Ok {| st_flags := f; st_is_char := is_char; st_s := S s0;
                 st_len := Z.to_nat SIZE_MAX; st_reflags := reflags |})
      with
      | Ok x =>
          (quote = SQUOTE \/ quote = DQUOTE)
          /\ (st_is_char x = true <-> quote = SQUOTE)
          /\ s0 < st_s x
          /\ peek (bytes t) (st_s x - 1) = quote
          /\ ((peek (bytes t) (st_s x + st_len x) = quote
               /\ st_s x + st_len x < List.length (bytes t))
              \/ (~ In quote (skipn (st_s x) (bytes t))
                  /\ st_s x = S s0
                  /\ st_len x = Z.to_nat SIZE_MAX))
      | Err e => e <> OutOfBounds
      end).
  { intros reflags Hnone.
    assert (Hfirst : (peek (bytes t) (S s0) =? quote)%char = false).
    { destruct (Nat.eq_dec (List.length (bytes t) - S s0) 0) as [E0|E0].
      - apply no_quote_at_end; [exact Hquote|lia].
      - apply Ascii.eqb_neq. rewrite <- (Nat.add_0_r (S s0)).
        apply Hnone. lia. }
    rewrite Hopen, Ascii.eqb_refl, Hfirst, andb_false_r.
    cbn [negb andb st_is_char st_s st_len].
    repeat split; try tauto; try lia.
    right. repeat split.
    intros Hin. apply in_skipn_peek in Hin. destruct Hin as [k [Hk E]].
    exact (Hnone k Hk E). }
  destruct (remode f).
  - pose proof (@reflags_loop_stops (bytes t) (S s0) quote
                  (List.length (bytes t) - S s0) Hopen) as Hstops.
    destruct (reflags_loop (bytes t) (S s0) quote
                (List.length (bytes t) - S s0)) as [len'|] eqn:Eloop;
      [|congruence].
    cbn [bind]. destruct len' as [|len].
    + apply Hwrapped. apply reflags_loop_none. exact Eloop.
    + destruct (negb (peek (bytes t) (S s0 + len) =? quote)%char) eqn:Elast;
        [discriminate|].
      apply negb_false_iff, Ascii.eqb_eq in Elast.
      apply Hfinish. exact Elast.
  - cbn [bind].
    destruct (List.length (bytes t) - S s0) as [|len] eqn:Elen.
    + apply Hwrapped. intros k Hk. lia.
    + destruct (negb (peek (bytes t) (S s0 + len) =? quote)%char) eqn:Elast;
        [discriminate|].
      apply negb_false_iff, Ascii.eqb_eq in Elast.
      apply Hfinish. exact Elast.
Qed.

End StripBounds.

(** X18: [_Mys_PyPegen_parsestr] never reads before the bytes of the
    token when it strips the quotes, and on success the body lies after
    the prefix and the byte before it is the quote character that
    follows the prefix, which is a single or a double quote; the token
    is a character literal exactly when it is a single quote.  The byte
    after the body is that quote character too and lies inside the
    token, unless the token holds no quote after the opening one: then
    the length wraps around to [SIZE_MAX], the closing quote that the
    code finds is the opening quote, and the body starts right after
    it. *)
Theorem stripped_body_is_enclosed_in_quotes `{Runtime} (p : Parser)
    (t : Token) :
  match parsestr_strip p t with
  | Ok x =>
      (peek (bytes t) (fst (scan_prefix (bytes t))) = SQUOTE
       \/ peek (bytes t) (fst (scan_prefix (bytes t))) = DQUOTE)
      /\ (st_is_char x = true
          <-> peek (bytes t) (fst (scan_prefix (bytes t))) = SQUOTE)
      /\ fst (scan_prefix (bytes t)) < st_s x
      /\ peek (bytes t) (st_s x - 1)
         = peek (bytes t) (fst (scan_prefix (bytes t)))
      /\ ((peek (bytes t) (st_s x + st_len x)
           = peek (bytes t) (fst (scan_prefix (bytes t)))
           /\ st_s x + st_len x < List.length (bytes t))
          \/ (~ In (peek (bytes t) (fst (scan_prefix (bytes t))))
                 (skipn (st_s x) (bytes t))
              /\ st_s x = S (fst (scan_prefix (bytes t)))
              /\ st_len x = Z.to_nat SIZE_MAX))
  | Err e => e <> OutOfBounds
  end.
Proof. apply (strip_encloses p t). Qed.

(** A raw bytes literal. *)
Lemma stripped_body_is_enclosed_in_quotes_witness :
  (DQUOTE = SQUOTE \/ DQUOTE = DQUOTE)
  /\ (false = true <-> DQUOTE = SQUOTE)
  /\ 2 < 3
  /\ peek (quoted "rb" "ab") (3 - 1) = DQUOTE
  /\ ((peek (quoted "rb" "ab") (3 + 2) = DQUOTE
       /\ 3 + 2 < List.length (quoted "rb" "ab"))
      \/ (~ In DQUOTE (skipn 3 (quoted "rb" "ab"))
          /\ 3 = S 2
          /\ 2 = Z.to_nat 18446744073709551615)).
Proof.
  exact (@stripped_body_is_enclosed_in_quotes lp64 (parser 8)
           (token (quoted "rb" "ab"))).
Defined.

(** An f-string token that ends at its opening quote: the length of the
    body wraps around, the closing quote that is found is the opening
    one, and the call returns the body with [*fstrlen] at -1. *)
Lemma fstring_without_closing_quote :
  parsestr_strip (RT := lp64) (parser 8) (token (str "f" ++ [DQUOTE]))
  = Ok {| st_flags := set_f no_flags; st_is_char := false; st_s := 2;
          st_len := Z.to_nat 18446744073709551615; st_reflags := None |}
  /\ _Mys_PyPegen_parsestr (RT := lp64) (parser 8)
       (token (str "f" ++ [DQUOTE]))
     = Ok {| o_flags := set_f no_flags; o_is_char := false;
             o_result := None; o_fstr := Some (2, (-1)%Z);
             o_reflags := None |}.
Proof.
  assert (Hstrip :
    parsestr_strip (RT := lp64) (parser 8) (token (str "f" ++ [DQUOTE]))
    = Ok {| st_flags := set_f no_flags; st_is_char := false; st_s := 2;
            st_len := Z.to_nat 18446744073709551615; st_reflags := None |})
    by (lazy - [Z.to_nat]; reflexivity).
  split; [exact Hstrip|].
  unfold _Mys_PyPegen_parsestr. rewrite Hstrip. cbn [bind].
  unfold parsestr_decode.
  cbn [st_flags st_s st_len st_is_char st_reflags fmode set_f no_flags].
  rewrite Z2Nat.id by discriminate. reflexivity.
Qed.

Section TripleQuotes.

Context {RT : Runtime}.

Lemma strip_triple (p : Parser) (q : ascii) (body : cstring) :
  q = SQUOTE \/ q = DQUOTE ->
  (Z.of_nat (List.length body + 5) <= INT_MAX)%Z ->
  parsestr_strip p (token (q :: q :: q :: body ++ [q; q; q]))
  = if (q =? SQUOTE)%char
    then Err (SyntaxError "characters cannot be triple quoted")
    else Ok {| st_flags := no_flags; st_is_char := false; st_s := 3;
               st_len := List.length body; st_reflags := None |}.
Proof.
  intros Hq Hlen.
  set (buf := q :: q :: q :: body ++ [q; q; q]).
  assert (Halpha : Py_ISALPHA q = false)
    by (destruct Hq as [-> | ->]; reflexivity).
  assert (H0 : peek buf 0 = q) by reflexivity.
  assert (H1 : peek buf 1 = q) by reflexivity.
  assert (H2 : peek buf 2 = q) by reflexivity.
  assert (Hbuf : List.length buf - 1 = S (List.length body + 4)).
  { unfold buf. cbn [List.length]. rewrite length_app. cbn [List.length].
    lia. }
  assert (Hpeek : forall k, k < 3 ->
            peek buf (3 + List.length body + k) = q).
  { intros k Hk. unfold buf.
    change (q :: q :: q :: body ++ [q; q; q])
      with (([q; q; q] ++ body) ++ [q; q; q]).
    replace (3 + List.length body) with (List.length ([q; q; q] ++ body))
      by (rewrite length_app; reflexivity).
    rewrite peek_app.
    destruct k as [|[|[|k]]]; [reflexivity|reflexivity|reflexivity|lia]. }
  assert (E : (INT_MAX <? Z.of_nat (S (List.length body + 4)))%Z = false)
    by (apply Z.ltb_ge; lia).
  assert (E4 : (4 <=? List.length body + 4) = true)
    by (apply Nat.leb_le; lia).
  unfold parsestr_strip, scan_prefix.
  change (bytes (token buf)) with buf.
  rewrite H0, Halpha. cbn iota. rewrite H0.
  cbn [fmode bytesmode rawmode remode cmode no_flags andb orb].
  assert (Enq : negb (q =? SQUOTE)%char && negb (q =? DQUOTE)%char = false)
    by (destruct Hq as [-> | ->]; reflexivity).
  destruct (q =? SQUOTE)%char eqn:Esq; cbn [bind];
    rewrite Enq, Hbuf, E; cbn [bind];
    replace (1 + (List.length body + 4)) with (3 + List.length body + 2)
      by lia;
    rewrite (Hpeek 2), Ascii.eqb_refl by lia; cbn [negb];
    rewrite E4, H1, H2, !Ascii.eqb_refl; cbn [andb]; [reflexivity|].
  replace (1 + 2 + (List.length body + 4 - 2 - 1))
    with (3 + List.length body + 1) by lia.
  replace (1 + 2 + (List.length body + 4 - 2 - 2))
    with (3 + List.length body + 0) by lia.
  rewrite !Hpeek, !Ascii.eqb_refl by lia. cbn [negb orb bind].
  do 2 f_equal. lia.
Qed.

End TripleQuotes.

(** X19: triple quotes: of a token of three double quotes, a body and three
    double quotes, [_Mys_PyPegen_parsestr] strips three quotes on either
    side, whatever the body holds; with single quotes it fails with the
    syntax error "characters cannot be triple quoted". *)
Theorem triple_quotes_are_stripped `{Runtime} (p : Parser) (q : ascii)
    (body : cstring) :
  q = SQUOTE \/ q = DQUOTE ->
  (Z.of_nat (List.length body + 5) <= INT_MAX)%Z ->
  parsestr_strip p (token (q :: q :: q :: body ++ [q; q; q]))
  = if (q =? SQUOTE)%char
    then Err (SyntaxError "characters cannot be triple quoted")
    else Ok {| st_flags := no_flags; st_is_char := false; st_s := 3;
               st_len := List.length body; st_reflags := None |}.
Proof. intros. apply strip_triple; assumption. Qed.

(** A body that holds a double quote, in triple double quotes. *)
Lemma triple_quotes_are_stripped_witness :
  parsestr_strip (RT := lp64) (parser 8)
    (token (DQUOTE :: DQUOTE :: DQUOTE
            :: [ "a"%char; DQUOTE; "b"%char ] ++ [DQUOTE; DQUOTE; DQUOTE]))
  = Ok {| st_flags := no_flags; st_is_char := false; st_s := 3;
          st_len := 3; st_reflags := None |}.
Proof.
  apply (@triple_quotes_are_stripped lp64 (parser 8) DQUOTE
           [ "a"%char; DQUOTE; "b"%char ]).
  - right. reflexivity.
  - cbn. lia.
Defined.

Section BytesLiteral.

Context {RT : Runtime}.

Lemma bytes_not_ascii (p : Parser) (t : Token) (x : Stripped) (c : ascii) :
  parsestr_strip p t = Ok x ->
  fmode (st_flags x) = false ->
  bytesmode (st_flags x) = true ->
  In c (body_of t x) ->
  128 <= nat_of_ascii c ->
  _Mys_PyPegen_parsestr p t
  = Err (SyntaxError "bytes can only contain ASCII literal characters.").
Proof.
  intros Estrip Hf Hb Hin Hc.
  unfold _Mys_PyPegen_parsestr. rewrite Estrip. cbn [bind].
  unfold parsestr_decode. rewrite Hf.
  assert (Hbytes : forall f : bool,
            bytesmode (if f then set_raw (st_flags x) else st_flags x)
            = true)
    by (intros [|]; exact Hb).
  cbv zeta. rewrite Hbytes.
  assert (Hex : existsb charmask_ge_0x80 (skipn (st_s x) (bytes t)) = true).
  { rewrite (skipn_slice (bytes t) (st_s x) (st_len x)), existsb_app.
    apply orb_true_iff. left. apply existsb_exists.
    exists c. split; [exact Hin|]. unfold charmask_ge_0x80.
    apply Nat.leb_le. exact Hc. }
  rewrite Hex. reflexivity.
Qed.

End BytesLiteral.

(** X20: a bytes literal with a byte of 128 or more in its body is rejected
    with the syntax error "bytes can only contain ASCII literal
    characters.", raw or not, before the body is decoded. *)
Theorem bytes_literal_must_be_ascii `{Runtime} (p : Parser) (t : Token)
    (x : Stripped) (c : ascii) :
  parsestr_strip p t = Ok x ->
  fmode (st_flags x) = false ->
  bytesmode (st_flags x) = true ->
  In c (body_of t x) ->
  128 <= nat_of_ascii c ->
  _Mys_PyPegen_parsestr p t
  = Err (SyntaxError "bytes can only contain ASCII literal characters.").
Proof. intros. apply bytes_not_ascii with (x := x) (c := c); assumption. Qed.

(** A bytes literal of the two bytes of a character. *)
Lemma bytes_literal_must_be_ascii_witness :
  _Mys_PyPegen_parsestr (RT := lp64) (parser 8)
    (token (str "b" ++ DQUOTE :: [ "195"%char; "169"%char ] ++ [DQUOTE]))
  = Err (SyntaxError "bytes can only contain ASCII literal characters.").
Proof.
  apply (@bytes_literal_must_be_ascii lp64 (parser 8)
           (token (str "b" ++ DQUOTE :: [ "195"%char; "169"%char ]
                   ++ [DQUOTE]))
           {| st_flags := set_bytes no_flags; st_is_char := false;
              st_s := 2; st_len := 2; st_reflags := None |}
           "195"%char).
  - reflexivity.
  - reflexivity.
  - reflexivity.
  - left. reflexivity.
  - cbn. lia.
Defined.

(** ** The scratch buffer of the escape decoder *)

Lemma sprintf_U_length (w : unicode) :
  List.length (List.concat (map sprintf_U w)) = 10 * List.length w.
Proof.
  induction w as [|cp w IH]; [reflexivity|].
  cbn [map List.concat]. rewrite length_app, IH.
  cbn [sprintf_U hex8 map List.length]. lia.
Qed.

Section ScratchBuffer.

Context {RT : Runtime}.
Hypothesis Hdecode : two_bytes_per_char PyUnicode_DecodeUTF8.

(** The text before the cursor. *)
Lemma escapes_loop_size (fuel : nat) :
  forall s p top out,
    fst (escapes_loop fuel s p top) = Ok out ->
    List.length out <= List.length p + 6 * List.length s.
Proof.
  induction fuel as [|fuel IH]; intros s p top out E.
  - destruct s; [|discriminate]. injection E as <-. cbn. lia.
  - assert (Hsecond : forall s' p' top',
      fst match s' with
          | [] => (Ok p', top')
          | c :: s'' =>
              if high_bit c then
                let '(w, rest) := decode_utf8 s' in
                match w with
                | None => (Err Raised, top')
                | Some w =>
                    let '(p0, top0) := sprintf_loop w p' top' in
                    escapes_loop fuel rest p0 top0
                end
              else
                escapes_loop fuel s'' (p' ++ [c])
                  (Nat.max top' (List.length p' + 1))
          end = Ok out ->
      List.length out <= List.length p' + 6 * List.length s').
    { intros s' p' top' E'.
      destruct s' as [|c s'']; [injection E' as <-; lia|].
      destruct (high_bit c) eqn:Eh.
      - unfold decode_utf8 in E'.
        pose proof (span_high_spec (c :: s'')) as Hspan.
        destruct (span_high (c :: s'')) as [run rest].
        destruct Hspan as [Hs [Hrun _]].
        destruct (PyUnicode_DecodeUTF8 run) as [w|] eqn:Ew; [|discriminate].
        rewrite sprintf_loop_spec in E'.
        apply IH in E'. rewrite length_app, sprintf_U_length in E'.
        pose proof (Hdecode run Hrun Ew) as Hw.
        rewrite Hs, length_app. lia.
      - apply IH in E'. rewrite length_app in E'.
        cbn [List.length] in *. lia. }
    destruct s as [|c s1]; [injection E as <-; cbn; lia|].
    cbn [escapes_loop] in E. destruct (c =? BACKSLASH)%char.
    + destruct s1 as [|c1 s2].
      * injection E as <-. rewrite !length_app. cbn. lia.
      * apply (Hsecond (c1 :: s2)) in E.
        destruct (high_bit c1); rewrite ?length_app in E;
          cbn [List.length str list_ascii_of_string] in *; lia.
    + apply (Hsecond (c :: s1)) in E. exact E.
Qed.

(** The bytes that are written, whether the loop comes to its end or
    the UTF-8 decoder fails on the way. *)
Lemma escapes_loop_top (fuel : nat) :
  forall s p top,
    snd (escapes_loop fuel s p top)
    <= Nat.max top (List.length p + 6 * List.length s + 1).
Proof.
  induction fuel as [|fuel IH]; intros s p top.
  - cbn [escapes_loop snd]. lia.
  - assert (Hsecond : forall s' p' top',
      snd match s' with
          | [] => (Ok p', top')
          | c :: s'' =>
              if high_bit c then
                let '(w, rest) := decode_utf8 s' in
                match w with
                | None => (Err Raised, top')
                | Some w =>
                    let '(p0, top0) := sprintf_loop w p' top' in
                    escapes_loop fuel rest p0 top0
                end
              else
                escapes_loop fuel s'' (p' ++ [c])
                  (Nat.max top' (List.length p' + 1))
          end
      <= Nat.max top' (List.length p' + 6 * List.length s' + 1)).
    { intros s' p' top'. destruct s' as [|c s'']; [cbn [snd]; lia|].
      destruct (high_bit c) eqn:Eh.
      - unfold decode_utf8.
        pose proof (span_high_spec (c :: s'')) as Hspan.
        destruct (span_high (c :: s'')) as [run rest].
        destruct Hspan as [Hs [Hrun _]].
        destruct (PyUnicode_DecodeUTF8 run) as [w|] eqn:Ew;
          [|cbn [snd]; lia].
        rewrite sprintf_loop_spec.
        match goal with
        | |- snd (escapes_loop fuel rest ?p0 ?top0) <= _ =>
            pose proof (IH rest p0 top0) as Hrest
        end.
        rewrite length_app, sprintf_U_length in Hrest.
        pose proof (Hdecode run Hrun Ew) as Hw.
        rewrite Hs, length_app. destruct w; cbn [List.length] in *; lia.
      - pose proof (IH s'' (p' ++ [c]) (Nat.max top' (List.length p' + 1)))
          as Hrest.
        rewrite length_app in Hrest. cbn [List.length] in *. lia. }
    destruct s as [|c s1]; [cbn [escapes_loop snd]; lia|].
    cbn [escapes_loop]. destruct (c =? BACKSLASH)%char.
    + destruct s1 as [|c1 s2].
      * cbn [snd]. rewrite !length_app. cbn [List.length]. lia.
      * pose proof (Hsecond (c1 :: s2)
                      (if high_bit c1 then (p ++ [c]) ++ str "u005c"
                       else p ++ [c])
                      (if high_bit c1
                       then Nat.max (Nat.max top (List.length p + 1))
                              (List.length (p ++ [c]) + 6)
                       else Nat.max top (List.length p + 1))) as Hs.
        cbv beta iota in Hs. revert Hs. destruct (high_bit c1); intros Hs;
          rewrite ?length_app in Hs; rewrite ?length_app;
          cbn [List.length str list_ascii_of_string] in *; lia.
    + exact (Hsecond (c :: s1) p top).
Qed.

End ScratchBuffer.

Module RefSize.

Lemma high_head (c : ascii) :
  high_bit c = true -> (N_of_ascii c <? 128)%N = false.
Proof.
  rewrite RefLaws.high_bit_N. intros H. apply N.leb_le in H.
  apply N.ltb_ge. exact H.
Qed.

Lemma utf8_two_bytes (n : nat) :
  forall run w,
    List.length run <= n ->
    forallb high_bit run = true ->
    Ref.DecodeUTF8 run = Some w ->
    2 * List.length w <= List.length run.
Proof.
  induction n as [|n IH]; intros run w Hn Hrun E.
  - destruct run; [|cbn in Hn; lia]. injection E as <-. cbn. lia.
  - destruct run as [|b0 s1]; [injection E as <-; cbn; lia|].
    cbn [forallb] in Hrun. apply andb_prop in Hrun.
    destruct Hrun as [H0 Hrun].
    cbn [Ref.DecodeUTF8] in E. cbv zeta in E.
    rewrite (high_head _ H0) in E.
    destruct (N_of_ascii b0 <? 194)%N; [discriminate|].
    cbn [List.length] in Hn.
    destruct (N_of_ascii b0 <? 224)%N.
    { destruct s1 as [|b1 s2]; [discriminate|].
      destruct (Ref.is_cont b1); [|discriminate].
      cbn [forallb] in Hrun. apply andb_prop in Hrun.
      destruct Hrun as [_ Hrun].
      destruct (Ref.DecodeUTF8 s2) as [w'|] eqn:E'; [|discriminate].
      injection E as <-. apply IH in E'; [|cbn in Hn; lia|exact Hrun].
      cbn [List.length]. lia. }
    destruct (N_of_ascii b0 <? 240)%N.
    { destruct s1 as [|b1 [|b2 s3]]; try discriminate.
      match type of E with (if ?b then _ else _) = _ => destruct b end;
        [|discriminate].
      cbn [forallb] in Hrun. apply andb_prop in Hrun.
      destruct Hrun as [_ Hrun]. apply andb_prop in Hrun.
      destruct Hrun as [_ Hrun].
      destruct (Ref.DecodeUTF8 s3) as [w'|] eqn:E'; [|discriminate].
      injection E as <-. apply IH in E'; [|cbn in Hn; lia|exact Hrun].
      cbn [List.length]. lia. }
    destruct s1 as [|b1 [|b2 [|b3 s4]]]; try discriminate.
    match type of E with (if ?b then _ else _) = _ => destruct b end;
      [|discriminate].
    cbn [forallb] in Hrun. apply andb_prop in Hrun.
    destruct Hrun as [_ Hrun]. apply andb_prop in Hrun.
    destruct Hrun as [_ Hrun]. apply andb_prop in Hrun.
    destruct Hrun as [_ Hrun].
    destruct (Ref.DecodeUTF8 s4) as [w'|] eqn:E'; [|discriminate].
    injection E as <-. apply IH in E'; [|cbn in Hn; lia|exact Hrun].
    cbn [List.length]. lia.
Qed.

End RefSize.

Lemma reference_two_bytes_per_char : two_bytes_per_char Ref.DecodeUTF8.
Proof.
  intros run w Hrun E.
  apply (@RefSize.utf8_two_bytes (List.length run)); auto.
Qed.

(** X21: what [decode_unicode_with_escapes] writes to its scratch buffer of
    six times the length of the text, when the UTF-8 decoder makes at
    most one character of two bytes with the high bit set.  The text
    before the cursor is never longer than the buffer (the assertion
    after the [sprintf] loop holds).  The bytes that are written,
    whether the loop comes to its end or the UTF-8 decoder fails on the
    way, may go one byte beyond it and no further: the NUL that [strcpy]
    and [sprintf] store after their text.  They do for the text of one
    backslash, for which seven bytes are written to the buffer of six. *)
Theorem scratch_buffer_is_overrun_by_one_nul_at_most `{Runtime}
    (s : cstring) :
  two_bytes_per_char PyUnicode_DecodeUTF8 ->
  snd (escapes_loop (List.length s) s [] 0) <= 6 * List.length s + 1
  /\ (forall buf,
        fst (escapes_loop (List.length s) s [] 0) = Ok buf ->
        List.length buf <= 6 * List.length s).
Proof.
  intros Hdecode. split.
  - pose proof (escapes_loop_top Hdecode (List.length s) s [] 0) as Htop.
    cbn [List.length] in Htop. lia.
  - intros buf E. apply (escapes_loop_size Hdecode) in E.
    cbn [List.length] in E. lia.
Qed.

(** The text of one backslash: seven bytes are written. *)
Lemma scratch_buffer_is_overrun_by_one_nul_at_most_witness :
  escapes_loop (RT := lp64) 1 [BACKSLASH] [] 0 = (Ok (str "\u005c"), 7)
  /\ 7 <= 6 * 1 + 1
  /\ (forall buf,
        Ok (str "\u005c") = Ok buf -> List.length buf <= 6 * 1).
Proof.
  split; [reflexivity|].
  exact (@scratch_buffer_is_overrun_by_one_nul_at_most lp64 [BACKSLASH]
           reference_two_bytes_per_char).
Defined.

(** ** The prefix of a token *)

Ltac all_bytes c :=
  destruct c as [b0 b1 b2 b3 b4 b5 b6 b7];
  destruct b0, b1, b2, b3, b4, b5, b6, b7; reflexivity.

Lemma is_alpha_lower (c : ascii) : Py_ISALPHA (to_lower c) = Py_ISALPHA c.
Proof. all_bytes c. Qed.

Lemma is_b_lower (c : ascii) :
  is_letter "b" "B" (to_lower c) = is_letter "b" "B" c.
Proof. all_bytes c. Qed.

Lemma is_u_lower (c : ascii) :
  is_letter "u" "U" (to_lower c) = is_letter "u" "U" c.
Proof. all_bytes c. Qed.

Lemma is_r_lower (c : ascii) :
  is_letter "r" "R" (to_lower c) = is_letter "r" "R" c.
Proof. all_bytes c. Qed.

Lemma is_e_lower (c : ascii) :
  is_letter "e" "E" (to_lower c) = is_letter "e" "E" c.
Proof. all_bytes c. Qed.

Lemma is_f_lower (c : ascii) :
  is_letter "f" "F" (to_lower c) = is_letter "f" "F" c.
Proof. all_bytes c. Qed.

Lemma is_c_lower (c : ascii) :
  is_letter "c" "C" (to_lower c) = is_letter "c" "C" c.
Proof. all_bytes c. Qed.

Lemma prefix_loop_lower (n : nat) :
  forall l s f,
    List.length l <= n ->
    prefix_loop (map to_lower l) s f = prefix_loop l s f.
Proof.
  induction n as [|n IH]; intros l s f Hn.
  - destruct l; [reflexivity|cbn in Hn; lia].
  - destruct l as [|quote l1]; [reflexivity|].
    cbn [map prefix_loop]. cbn [List.length] in Hn.
    rewrite is_b_lower, is_u_lower, is_r_lower, is_f_lower, is_c_lower.
    rewrite !(IH l1) by lia.
    destruct l1 as [|quote' l2]; [reflexivity|].
    cbn [map]. rewrite is_e_lower.
    rewrite (IH l2) by (cbn [List.length] in Hn; lia).
    reflexivity.
Qed.

(** X22: the letters of the prefix are read without regard to their case:
    the flags and the length of the prefix of a token are those of the
    token in lower case. *)
Theorem prefix_is_case_insensitive (buf : cstring) :
  scan_prefix (map to_lower buf) = scan_prefix buf.
Proof.
  unfold scan_prefix.
  replace (peek (map to_lower buf) 0) with (to_lower (peek buf 0))
    by (destruct buf; reflexivity).
  rewrite is_alpha_lower.
  destruct (Py_ISALPHA (peek buf 0)); [|reflexivity].
  apply (@prefix_loop_lower (List.length buf)). lia.
Qed.

(** ** ExprList in memory *)

Section ExprListProofs.

Context {RT : Runtime}.
Variable N : nat.
Hypothesis HN : 0 < N.

Lemma store_next (b : Mem.block) (xs : list expr_ty) (exp : expr_ty) :
  List.length xs < List.length b ->
  firstn (List.length xs) b = map Some xs ->
  exists b',
    Mem.store b (Z.of_nat (List.length xs)) exp = Some b'
    /\ List.length b' = List.length b
    /\ firstn (List.length (xs ++ [exp])) b' = map Some (xs ++ [exp]).
Proof.
  intros Hlt Hxs. unfold Mem.store.
  assert (E : (0 <=? Z.of_nat (List.length xs))%Z
              && (Z.of_nat (List.length xs) <? Z.of_nat (List.length b))%Z
              = true).
  { apply andb_true_iff. split; [apply Z.leb_le|apply Z.ltb_lt]; lia. }
  rewrite E, Nat2Z.id, Hxs. eexists. split; [reflexivity|]. split.
  - rewrite length_app, length_map. cbn [List.length].
    rewrite length_skipn. lia.
  - rewrite length_app. cbn [List.length].
    rewrite map_app. cbn [map].
    replace (List.length xs + 1)
      with (List.length (map Some xs ++ [Some exp]) + 0)
      by (rewrite length_app, length_map; cbn [List.length]; lia).
    change (map Some xs ++ Some exp :: skipn (S (List.length xs)) b)
      with (map Some xs ++ [Some exp] ++ skipn (S (List.length xs)) b).
    rewrite app_assoc, firstn_app_2. cbn [firstn]. apply app_nil_r.
Qed.

Lemma grown_length (old : Mem.block) (n : Z) :
  (Z.of_nat (List.length old) <= n)%Z ->
  Z.of_nat (List.length (Mem.grown old n)) = n.
Proof.
  intros H. unfold Mem.grown. rewrite length_app, repeat_length. lia.
Qed.

Lemma grown_firstn (old : Mem.block) (n : Z) (k : nat) :
  k <= List.length old ->
  firstn k (Mem.grown old n) = firstn k old.
Proof.
  intros H. unfold Mem.grown. rewrite firstn_app.
  replace (k - List.length old) with 0 by lia. cbn [firstn].
  apply app_nil_r.
Qed.

Lemma init_holds : Mem.holds N (Mem.ExprList_Init N) [].
Proof.
  unfold Mem.holds, Mem.stored, Mem.ExprList_check_invariants,
    Mem.ExprList_Init. cbn.
  rewrite repeat_length. repeat split; try lia. discriminate.
Qed.

(** The list has room for one more node after [make_room], and when it
    grows the new [allocated] is twice [size] (the assertion of the
    code). *)
Lemma make_room_stored (l : Mem.ExprList) (xs : list expr_ty) :
  Mem.holds N l xs ->
  exists l',
    Mem.make_room true l = Some (0%Z, l')
    /\ Mem.stored N l' xs
    /\ (Mem.size l' < Mem.allocated l')%Z
    /\ (l' = l \/ Mem.allocated l' = (2 * Mem.size l')%Z).
Proof.
  intros [[Hs [Ha Hp]] [_ [_ Hinv]]]. unfold Mem.make_room.
  destruct (Mem.allocated l <=? Mem.size l)%Z eqn:Efull.
  - apply Z.leb_le in Efull.
    assert (Heq : Mem.size l = Mem.allocated l) by lia.
    destruct (Mem.p l) as [| |b] eqn:Ep; [contradiction| |].
    + destruct Hp as [HaN [Hd Hx]]. unfold Mem.load.
      assert (E1 : (Mem.size l <=? Z.of_nat (List.length (Mem.data l)))%Z
                   = true) by (apply Z.leb_le; lia).
      assert (E2 : (Mem.size l <=? Mem.allocated l * 2)%Z = true)
        by (apply Z.leb_le; lia).
      rewrite E1, E2. eexists. split; [reflexivity|].
      assert (Hlen : List.length
                       (firstn (Z.to_nat (Mem.size l)) (Mem.data l))
                     = List.length xs)
        by (rewrite length_firstn; lia).
      unfold Mem.stored. cbn [Mem.size Mem.allocated Mem.p].
      repeat split; try lia.
      * rewrite grown_length; lia.
      * rewrite grown_firstn by lia.
        rewrite Hs, Nat2Z.id, firstn_firstn, Nat.min_id. exact Hx.
    + destruct Hp as [Hn [Hb Hx]].
      eexists. split; [reflexivity|].
      assert (Hlen : List.length
                       (firstn (Z.to_nat (Mem.allocated l * 2)) b)
                     = List.length b) by (rewrite length_firstn; lia).
      unfold Mem.stored. cbn [Mem.size Mem.allocated Mem.p].
      repeat split; try lia.
      * rewrite grown_length; lia.
      * rewrite grown_firstn by lia.
        rewrite firstn_firstn.
        replace (Nat.min (List.length xs) (Z.to_nat (Mem.allocated l * 2)))
          with (List.length xs) by lia.
        exact Hx.
  - apply Z.leb_gt in Efull. exists l. split; [reflexivity|].
    unfold Mem.stored. repeat split; auto; lia.
Qed.

Lemma append_holds (l : Mem.ExprList) (xs : list expr_ty) (exp : expr_ty) :
  Mem.holds N l xs ->
  exists l',
    Mem.ExprList_Append true l exp = Some (0%Z, l')
    /\ Mem.holds N l' (xs ++ [exp]).
Proof.
  intros H. destruct (make_room_stored H)
    as [l1 [Eroom [[Hs [Ha Hp]] [Hlt _]]]].
  unfold Mem.ExprList_Append. rewrite Eroom. unfold Mem.push.
  destruct (Mem.p l1) as [| |b] eqn:Ep; [contradiction| |].
  - destruct Hp as [HaN [Hd Hx]].
    destruct (@store_next (Mem.data l1) xs exp) as [d [Es [Hlen Hf]]];
      [lia|exact Hx|].
    rewrite Hs, Es. cbn [option_map]. eexists. split; [reflexivity|].
    unfold Mem.holds, Mem.stored, Mem.ExprList_check_invariants.
    cbn [Mem.size Mem.allocated Mem.p Mem.data].
    rewrite length_app. cbn [List.length].
    repeat split; try lia; try discriminate.
    rewrite <- Hf, length_app. reflexivity.
  - destruct Hp as [Hn [Hb Hx]].
    destruct (@store_next b xs exp) as [b' [Es [Hlen Hf]]];
      [lia|exact Hx|].
    rewrite Hs, Es. cbn [option_map]. eexists. split; [reflexivity|].
    unfold Mem.holds, Mem.stored, Mem.ExprList_check_invariants.
    cbn [Mem.size Mem.allocated Mem.p Mem.data].
    rewrite length_app. cbn [List.length].
    repeat split; try lia; try discriminate.
    rewrite <- Hf, length_app. reflexivity.
Qed.

Lemma append_all_holds (exps : list expr_ty) :
  forall l xs,
    Mem.holds N l xs ->
    exists l',
      Mem.append_all l exps = Some l' /\ Mem.holds N l' (xs ++ exps).
Proof.
  induction exps as [|exp exps IH]; intros l xs H.
  - exists l. rewrite app_nil_r. auto.
  - destruct (append_holds exp H) as [l1 [E1 H1]].
    cbn [Mem.append_all]. rewrite E1.
    destruct (IH l1 (xs ++ [exp]) H1) as [l' [E' H']].
    exists l'. rewrite <- app_assoc in H'. auto.
Qed.

Lemma finish_holds (l : Mem.ExprList) (xs : list expr_ty) :
  Mem.holds N l xs ->
  Mem.ExprList_Finish true l
  = Some (Some (map Some xs), Mem.ExprList_Dealloc l).
Proof.
  intros [[Hs [Ha Hp]] _]. unfold Mem.ExprList_Finish, Mem.load.
  destruct (Mem.p l) as [| |b]; [contradiction| |].
  - destruct Hp as [HaN [Hd Hx]].
    assert (E : (Mem.size l <=? Z.of_nat (List.length (Mem.data l)))%Z
                = true) by (apply Z.leb_le; lia).
    rewrite E, Hs, Nat2Z.id, Hx. reflexivity.
  - destruct Hp as [Hn [Hb Hx]].
    assert (E : (Mem.size l <=? Z.of_nat (List.length b))%Z = true)
      by (apply Z.leb_le; lia).
    rewrite E, Hs, Nat2Z.id, Hx. reflexivity.
Qed.

End ExprListProofs.

(** X23: ExprList is a list that is appended to: after [ExprList_Init] and
    any number of [ExprList_Append] whose allocations succeed,
    [ExprList_Finish] returns the nodes that were appended, in their
    order, whether they fit in [data] or were moved to the heap; no slot
    beyond a block is read or written. *)
Theorem exprlist_finish_returns_appended_nodes `{Runtime} (N : nat)
    (exps : list expr_ty) :
  0 < N ->
  exists l,
    Mem.append_all (Mem.ExprList_Init N) exps = Some l
    /\ Mem.ExprList_Finish true l
       = Some (Some (map Some exps), Mem.ExprList_Dealloc l).
Proof.
  intros HN.
  destruct (append_all_holds HN exps (init_holds HN)) as [l [E Hl]].
  exists l. split; [exact E|]. apply (finish_holds HN Hl).
Qed.

(** Three nodes in a list of two cached slots. *)
Lemma exprlist_finish_returns_appended_nodes_witness :
  exists l,
    Mem.append_all (Mem.ExprList_Init (RT := lp64) 2)
      [Constant (PyUnicode [97%N]) None (span_of (token []) (token []));
       Constant (PyUnicode [98%N]) None (span_of (token []) (token []));
       Constant (PyUnicode [99%N]) None (span_of (token []) (token []))]
    = Some l
    /\ Mem.ExprList_Finish true l
       = Some
           (Some
              (map Some
                 [Constant (PyUnicode [97%N]) None
                    (span_of (token []) (token []));
                  Constant (PyUnicode [98%N]) None
                    (span_of (token []) (token []));
                  Constant (PyUnicode [99%N]) None
                    (span_of (token []) (token []))]),
            Mem.ExprList_Dealloc l).
Proof.
  apply (@exprlist_finish_returns_appended_nodes lp64 2). lia.
Defined.

(** X24: [ExprList_Append] keeps the invariants that
    [ExprList_check_invariants] asserts: on a list that holds nodes and
    keeps them, with a successful allocation, it returns 0 and the list
    holds the nodes and the new one and keeps the invariants; the
    memory grows only when the list is full, to twice the number of
    nodes (the assertion after the allocation). *)
Theorem exprlist_append_keeps_invariants `{Runtime} (N : nat)
    (l : Mem.ExprList) (xs : list expr_ty) (exp : expr_ty) :
  0 < N ->
  Mem.holds N l xs ->
  exists l',
    Mem.ExprList_Append true l exp = Some (0%Z, l')
    /\ Mem.holds N l' (xs ++ [exp])
    /\ Mem.ExprList_check_invariants N l'
    /\ (Mem.allocated l' = Mem.allocated l
        \/ (Mem.size l = Mem.allocated l
            /\ Mem.allocated l' = (2 * Mem.size l)%Z)).
Proof.
  intros HN Hl.
  destruct (append_holds HN exp Hl) as [l' [E Hl']].
  exists l'. split; [exact E|]. split; [exact Hl'|].
  split; [apply Hl'|].
  destruct (make_room_stored HN Hl) as [l1 [Eroom [_ [_ Hgrow]]]].
  unfold Mem.ExprList_Append in E. rewrite Eroom in E.
  unfold Mem.push in E.
  assert (Ha : Mem.allocated l' = Mem.allocated l1).
  { destruct (Mem.p l1);
      [discriminate| |];
      match type of E with
      | option_map _ (option_map _ ?s) = _ => destruct s
      end; try discriminate; injection E as <-; reflexivity. }
  destruct Hgrow as [-> | Hgrow]; [left; exact Ha|].
  unfold Mem.make_room in Eroom.
  destruct (Mem.allocated l <=? Mem.size l)%Z eqn:Efull.
  - right. apply Z.leb_le in Efull. destruct Hl as [[Hs [Hle _]] _].
    assert (Hsize : Mem.size l1 = Mem.size l).
    { destruct (Mem.p l); try (injection Eroom as <-; reflexivity).
      destruct (Mem.load (Mem.data l) (Mem.size l)); [|discriminate].
      destruct (Mem.size l <=? Mem.allocated l * 2)%Z; [|discriminate].
      injection Eroom as <-. reflexivity. }
    split; [lia|]. rewrite Ha, Hgrow, Hsize. reflexivity.
  - left. injection Eroom as <-. exact Ha.
Qed.

(** The third node is appended to a list of two cached slots that is
    full. *)
Lemma exprlist_append_keeps_invariants_witness :
  exists l',
    Mem.ExprList_Append true
      {| Mem.allocated := 2; Mem.size := 2; Mem.p := Mem.Data;
         Mem.data :=
           [Some (Constant (RT := lp64) (PyUnicode [97%N]) None
                    (span_of (token []) (token [])));
            Some (Constant (PyUnicode [98%N]) None
                    (span_of (token []) (token [])))] |}
      (Constant (PyUnicode [99%N]) None (span_of (token []) (token [])))
    = Some (0%Z, l')
    /\ Mem.holds 2 l'
         ([Constant (PyUnicode [97%N]) None (span_of (token []) (token []));
           Constant (PyUnicode [98%N]) None (span_of (token []) (token []))]
          ++ [Constant (PyUnicode [99%N]) None
                (span_of (token []) (token []))])
    /\ Mem.ExprList_check_invariants 2 l'
    /\ (Mem.allocated l' = 2%Z
        \/ (2%Z = 2%Z /\ Mem.allocated l' = (2 * 2)%Z)).
Proof.
  apply (@exprlist_append_keeps_invariants lp64 2
           {| Mem.allocated := 2; Mem.size := 2; Mem.p := Mem.Data;
              Mem.data :=
                [Some (Constant (RT := lp64) (PyUnicode [97%N]) None
                         (span_of (token []) (token [])));
                 Some (Constant (PyUnicode [98%N]) None
                         (span_of (token []) (token [])))] |}
           [Constant (PyUnicode [97%N]) None (span_of (token []) (token []));
            Constant (PyUnicode [98%N]) None (span_of (token []) (token []))]
           (Constant (PyUnicode [99%N]) None
              (span_of (token []) (token [])))).
  - lia.
  - unfold Mem.holds, Mem.stored, Mem.ExprList_check_invariants. cbn.
    repeat split; try lia; try discriminate.
Defined.

(** ** The cursor stays inside the body *)

Section UpperBounds.

Context {RT : Runtime}.
Variables (buf : cstring) (end_ : nat).

Lemma skip_name_le (fuel : nat) :
  forall s, s <= end_ -> skip_name fuel buf end_ s <= end_.
Proof.
  induction fuel as [|fuel IH]; intros s Hs; [exact Hs|].
  cbn [skip_name]. destruct (s <? end_) eqn:E; [|exact Hs].
  apply Nat.ltb_lt in E.
  destruct (peek buf s =? RBRACE)%char; [lia|]. apply IH. lia.
Qed.

Lemma literal_loop_le (raw : bool) (recurse_lvl : Z) (t : Token)
    (fuel : nat) :
  forall s status s' str',
    s <= end_ ->
    literal_loop buf end_ raw recurse_lvl t fuel s = Ok (status, s', str') ->
    str' <= end_.
Proof.
  induction fuel as [|fuel IH]; intros s status s' str' Hs E;
    [discriminate|].
  assert (Hbraces : forall ch s0,
            s0 <= end_ ->
            (if (ch =? LBRACE)%char || (ch =? RBRACE)%char then
               if (recurse_lvl =? 0)%Z then
                 if (s0 <? end_) && (peek buf s0 =? ch)%char then
                   Ok (1%Z, s0, S s0)
                 else if (ch =? RBRACE)%char then
                   Err (SyntaxError "f-string: single '}' is not allowed")
                 else Ok (0%Z, s0 - 1, s0 - 1)
               else Ok (0%Z, s0 - 1, s0 - 1)
             else literal_loop buf end_ raw recurse_lvl t fuel s0)
            = Ok (status, s', str') ->
            str' <= end_).
  { intros ch s0 Hs0 E0.
    destruct ((ch =? LBRACE)%char || (ch =? RBRACE)%char);
      [|apply (IH _ _ _ _ Hs0 E0)].
    destruct (recurse_lvl =? 0)%Z; [|injection E0 as _ _ <-; lia].
    destruct ((s0 <? end_) && (peek buf s0 =? ch)%char) eqn:Ed.
    - apply andb_prop in Ed. destruct Ed as [Ed _].
      apply Nat.ltb_lt in Ed. injection E0 as _ _ <-. lia.
    - destruct (ch =? RBRACE)%char; [discriminate|].
      injection E0 as _ _ <-. lia. }
  cbn [literal_loop] in E.
  destruct (s <? end_) eqn:Es; [|injection E as _ _ <-; exact Hs].
  apply Nat.ltb_lt in Es.
  destruct (negb raw && (peek buf s =? BACKSLASH)%char && (S s <? end_))
    eqn:Eb.
  - apply andb_prop in Eb. destruct Eb as [_ Eb]. apply Nat.ltb_lt in Eb.
    destruct (peek buf (S s) =? "N")%char.
    + destruct (S (S s) <? end_) eqn:E2;
        [|injection E as _ _ <-; lia].
      apply Nat.ltb_lt in E2.
      destruct (peek buf (S (S s)) =? LBRACE)%char;
        [|injection E as _ _ <-; lia].
      apply IH in E; [exact E|]. apply skip_name_le. lia.
    + assert (Hb := Hbraces (peek buf (S s)) (S (S s)) ltac:(lia)).
      destruct (peek buf (S s) =? LBRACE)%char.
      * apply bind_ok in E. destruct E as [_ [_ E]]. apply Hb. exact E.
      * apply Hb. exact E.
  - apply (Hbraces (peek buf s) (S s)); [lia|exact E].
Qed.

Lemma find_literal_le (raw : bool) (recurse_lvl : Z) (t : Token)
    (str : nat) (status : Z) (str' : nat) (literal : option unicode) :
  str <= end_ ->
  fstring_find_literal buf end_ raw recurse_lvl t str
  = Ok (status, str', literal) ->
  str' <= end_.
Proof.
  intros Hs E. unfold fstring_find_literal in E.
  apply bind_ok in E. destruct E as [[[st s] str0] [El E]].
  apply literal_loop_le in El; [|exact Hs].
  unfold fstring_find_literal_tail in E.
  destruct (negb (str =? s)).
  - apply bind_ok in E. destruct E as [lit [_ E]].
    injection E as _ <- _. exact El.
  - injection E as _ <- _. exact El.
Qed.

Lemma expr_step_le (st st' : ExprScan) :
  cursor st < end_ ->
  expr_step buf end_ st = Next st' ->
  cursor st' < end_.
Proof.
  intros Hlt. unfold expr_step.
  repeat match goal with
         | |- context [if ?b then _ else _] => destruct b eqn:?
         | |- context [match parenstack st with _ => _ end] =>
             destruct (parenstack st)
         end;
    intros E; inversion E; subst; cbn [cursor];
    repeat match goal with
           | H : (_ && _) = true |- _ => apply andb_prop in H; destruct H
           | H : (_ <? _) = true |- _ => apply Nat.ltb_lt in H
           end; lia.
Qed.

Lemma expr_loop_le (fuel : nat) :
  forall st st',
    cursor st <= end_ ->
    expr_loop fuel buf end_ st = Ok st' ->
    cursor st' <= end_.
Proof.
  induction fuel as [|fuel IH]; intros st st' Hs E; [discriminate|].
  cbn [expr_loop] in E.
  destruct (cursor st <? end_) eqn:Es;
    [|injection E as <-; exact Hs].
  apply Nat.ltb_lt in Es.
  destruct (expr_step buf end_ st) as [st1| |e] eqn:Estep.
  - apply IH in E; [exact E|].
    apply (expr_step_le _ Es) in Estep. cbn [advance cursor]. lia.
  - injection E as <-. exact Hs.
  - discriminate.
Qed.

Hypothesis Hend : Py_ISSPACE (peek buf end_) = false.

Lemma skip_space_le (fuel : nat) :
  forall str, str <= end_ -> skip_space fuel buf str <= end_.
Proof.
  induction fuel as [|fuel IH]; intros str Hs; [exact Hs|].
  cbn [skip_space]. destruct (Py_ISSPACE (peek buf str)) eqn:E;
    [|exact Hs].
  apply IH. destruct (Nat.eq_dec str end_) as [->|Hne]; [congruence|lia].
Qed.

Section FindExprUpper.

Variables (p : Parser) (raw : bool) (first_token t last_token : Token).
Variable parse_spec : nat -> Z -> result (expr_ty * nat).
Variable recurse_lvl : Z.

Lemma find_expr_le (str str' : nat) (text : option unicode) (e : expr_ty) :
  str < end_ ->
  fstring_find_expr p buf end_ first_token t last_token parse_spec str
    recurse_lvl = Ok (str', text, e) ->
  str' <= end_.
Proof.
  intros Hs E. unfold fstring_find_expr in E.
  destruct (2 <=? recurse_lvl)%Z; [discriminate|].
  apply bind_ok in E. destruct E as [st [El E]].
  apply expr_loop_le in El; [|cbn; lia].
  destruct (negb (quote_char st =? NUL)%char); [discriminate|].
  destruct (parenstack st); [|discriminate].
  destruct (end_ <=? cursor st) eqn:Ec; [discriminate|].
  apply Nat.leb_gt in Ec.
  apply bind_ok in E. destruct E as [simple [_ E]].
  apply bind_ok in E. destruct E as [[str1 expr_text] [E1 E]].
  assert (H1 : str1 <= end_).
  { destruct (peek buf (cursor st) =? "=")%char.
    - destruct (feature_version p <? 8)%Z; [discriminate|].
      apply bind_ok in E1. destruct E1 as [txt [_ E1]].
      injection E1 as <- _. apply skip_space_le. lia.
    - injection E1 as <- _. lia. }
  apply bind_ok in E. destruct E as [[str2 conversion] [E2 E]].
  assert (H2 : str2 <= end_).
  { destruct (peek buf str1 =? "!")%char.
    - destruct (end_ <=? S str1) eqn:Ee; [discriminate|].
      apply Nat.leb_gt in Ee.
      destruct (negb _); [discriminate|].
      injection E2 as <- _. lia.
    - injection E2 as <- _. exact H1. }
  destruct (end_ <=? str2) eqn:Ee2; [discriminate|].
  apply Nat.leb_gt in Ee2.
  apply bind_ok in E. destruct E as [[str3 format_spec] [E3 E]].
  destruct ((end_ <=? str3) || negb (peek buf str3 =? RBRACE)%char)
    eqn:Ee3; [discriminate|].
  apply orb_false_elim in Ee3. destruct Ee3 as [Ee3 _].
  apply Nat.leb_gt in Ee3.
  injection E as <- _ _. lia.
Qed.

Lemma find_literal_and_expr_le (str : nat) (result : Z) (str' : nat)
    (literal text : option unicode) (expression : option expr_ty) :
  str <= end_ ->
  fstring_find_literal_and_expr p buf end_ raw first_token t last_token
    parse_spec str recurse_lvl
  = Ok (result, str', literal, text, expression) ->
  str' <= end_.
Proof.
  intros Hs E. unfold fstring_find_literal_and_expr in E.
  apply bind_ok in E. destruct E as [[[r s] l] [El E]].
  apply find_literal_le in El; [|exact Hs].
  destruct (r =? 1)%Z; [injection E as _ <- _ _ _; exact El|].
  destruct ((end_ <=? s) || (peek buf s =? RBRACE)%char) eqn:Ec;
    [injection E as _ <- _ _ _; exact El|].
  apply orb_false_elim in Ec. destruct Ec as [Ec _].
  apply Nat.leb_gt in Ec.
  apply bind_ok in E. destruct E as [[[s' text'] e'] [Ee E]].
  apply find_expr_le in Ee; [|exact Ec].
  injection E as _ <- _ _ _. exact Ee.
Qed.

Lemma concat_loop_le (fuel : nat) :
  forall state str state' str',
    str <= end_ ->
    concat_loop p buf end_ raw recurse_lvl first_token t last_token
      parse_spec fuel state str = Ok (state', str') ->
    str' <= end_.
Proof.
  induction fuel as [|fuel IH]; intros state str state' str' Hs E;
    [discriminate|].
  cbn [concat_loop] in E.
  apply bind_ok in E.
  destruct E as [[[[[result s] literal] text] expression] [Ef E]].
  apply find_literal_and_expr_le in Ef; [|exact Hs].
  destruct (result =? 1)%Z; [apply (IH _ _ _ _ Ef E)|].
  destruct expression as [e|]; [apply (IH _ _ _ _ Ef E)|].
  injection E as _ <-. exact Ef.
Qed.

Lemma ConcatFstring_with_le (state : FstringParser) (str : nat)
    (state' : FstringParser) (str' : nat) :
  str <= end_ ->
  ConcatFstring_with p buf end_ raw recurse_lvl first_token t last_token
    parse_spec state str = Ok (state', str') ->
  str' <= end_.
Proof.
  intros Hs E. unfold ConcatFstring_with in E.
  apply bind_ok in E. destruct E as [[st s] [El E]].
  apply concat_loop_le in El; [|exact Hs].
  destruct ((recurse_lvl =? 0)%Z && (s <? end_ - 1)); [discriminate|].
  destruct (negb (recurse_lvl =? 0)%Z && negb (peek buf s =? RBRACE)%char);
    [discriminate|].
  injection E as _ <-. exact El.
Qed.

End FindExprUpper.

Lemma ConcatFstring_le (p : Parser) (state : FstringParser) (str : nat)
    (raw : bool) (recurse_lvl : Z) (first_token t last_token : Token)
    (state' : FstringParser) (str' : nat) :
  str <= end_ ->
  _Mys_PyPegen_FstringParser_ConcatFstring p state buf str end_ raw
    recurse_lvl first_token t last_token = Ok (state', str') ->
  str' <= end_.
Proof.
  intros Hs E. unfold _Mys_PyPegen_FstringParser_ConcatFstring in E.
  eapply ConcatFstring_with_le; [exact Hs|exact E].
Qed.

End UpperBounds.

(** X25: the assembler stays inside the body and comes to an end: when the
    byte at [end] is not white space (it is the closing quote),
    ConcatFstring leaves the cursor between its start and [end], and
    the loops of the code, which are bounded here, never reach their
    bounds. *)
Theorem assembler_stays_inside_the_body `{Runtime} (p : Parser)
    (state : FstringParser) (buf : cstring) (str end_ : nat) (raw : bool)
    (recurse_lvl : Z) (first_token t last_token : Token) :
  str <= end_ ->
  Py_ISSPACE (peek buf end_) = false ->
  match _Mys_PyPegen_FstringParser_ConcatFstring p state buf str end_ raw
          recurse_lvl first_token t last_token with
  | Ok (_, str') => str <= str' <= end_
  | Err e => e <> OutOfFuel
  end.
Proof.
  intros Hs Hend.
  pose proof (ConcatFstring_bound p buf end_ raw first_token t last_token
                state str recurse_lvl) as Hb.
  destruct (_Mys_PyPegen_FstringParser_ConcatFstring p state buf str end_
              raw recurse_lvl first_token t last_token)
    as [[state' str']|e] eqn:E; [|exact Hb].
  cbn in Hb. split; [exact Hb|].
  eapply ConcatFstring_le; [exact Hend|exact Hs|exact E].
Qed.

(** The f-string of a text, a field and a text. *)
Lemma assembler_stays_inside_the_body_witness :
  match _Mys_PyPegen_FstringParser_ConcatFstring (RT := lp64) (parser 8)
          _Mys_PyPegen_FstringParser_Init (quoted "f" "a{x}b") 2 7 false 0
          (token (quoted "f" "a{x}b")) (token (quoted "f" "a{x}b"))
          (token (quoted "f" "a{x}b")) with
  | Ok (_, str') => 2 <= str' <= 7
  | Err e => e <> OutOfFuel
  end.
Proof.
  apply (@assembler_stays_inside_the_body lp64 (parser 8)
           _Mys_PyPegen_FstringParser_Init (quoted "f" "a{x}b") 2 7 false 0
           (token (quoted "f" "a{x}b")) (token (quoted "f" "a{x}b"))
           (token (quoted "f" "a{x}b"))).
  - lia.
  - reflexivity.
Defined.

(** ** A backslash before a left brace *)

Section EscapedBrace.

Context {RT : Runtime}.
Variables (before pre after : cstring) (end_ : nat) (t : Token).
Hypothesis Hrun : literal_run false pre.
Hypothesis Hend : S (List.length before + List.length pre) < end_.

Let buf := before ++ pre ++ BACKSLASH :: LBRACE :: after.

Lemma literal_loop_escaped_brace (fuel : nat) (recurse_lvl : Z) :
  literal_loop buf end_ false recurse_lvl t (S fuel)
    (List.length (before ++ pre))
  = do _ <- warn_invalid_escape_sequence LBRACE t;
    if (recurse_lvl =? 0)%Z then
      if (S (S (List.length (before ++ pre))) <? end_)
         && (peek after 0 =? LBRACE)%char
      then Ok (1%Z, S (S (List.length (before ++ pre))),
               S (S (S (List.length (before ++ pre)))))
      else Ok (0%Z, S (List.length (before ++ pre)),
               S (List.length (before ++ pre)))
    else Ok (0%Z, S (List.length (before ++ pre)),
             S (List.length (before ++ pre))).
Proof.
  assert (H0 : peek buf (List.length (before ++ pre)) = BACKSLASH).
  { unfold buf. rewrite app_assoc, peek_app0. reflexivity. }
  assert (H1 : peek buf (S (List.length (before ++ pre))) = LBRACE).
  { unfold buf. rewrite app_assoc.
    replace (S (List.length (before ++ pre)))
      with (List.length (before ++ pre) + 1) by lia.
    rewrite peek_app. reflexivity. }
  assert (H2 : peek buf (S (S (List.length (before ++ pre))))
               = peek after 0).
  { unfold buf. rewrite app_assoc.
    replace (S (S (List.length (before ++ pre))))
      with (List.length (before ++ pre) + 2) by lia.
    rewrite peek_app. reflexivity. }
  assert (E0 : (List.length (before ++ pre) <? end_) = true)
    by (apply Nat.ltb_lt; rewrite length_app; lia).
  assert (E1 : (S (List.length (before ++ pre)) <? end_) = true)
    by (apply Nat.ltb_lt; rewrite length_app; lia).
  cbn [literal_loop]. rewrite E0, H0, E1, H1, H2.
  cbn [negb andb orb Ascii.eqb Bool.eqb].
  replace (S (S (List.length (before ++ pre))) - 1)
    with (S (List.length (before ++ pre))) by lia.
  reflexivity.
Qed.

Lemma find_literal_escaped_brace_warns (recurse_lvl : Z) (e : PyErr) :
  warn_invalid_escape_sequence LBRACE t = Err e ->
  fstring_find_literal buf end_ false recurse_lvl t (List.length before)
  = Err e.
Proof.
  intros Hwarn. unfold fstring_find_literal.
  destruct (@literal_loop_after_run _ before pre end_ false t Hrun
              recurse_lvl (BACKSLASH :: LBRACE :: after)) as [j Hj]; [lia|].
  fold buf in Hj.
  replace ((before ++ pre) ++ BACKSLASH :: LBRACE :: after) with buf in Hj
    by (unfold buf; rewrite app_assoc; reflexivity).
  rewrite Hj, literal_loop_escaped_brace, Hwarn. reflexivity.
Qed.

Lemma find_literal_escaped_brace_starts (v : unicode) :
  warn_invalid_escape_sequence LBRACE t = Ok tt ->
  (S (S (List.length before + List.length pre)) < end_ ->
   peek after 0 <> LBRACE) ->
  decode_literal false (pre ++ [BACKSLASH]) = Ok v ->
  fstring_find_literal buf end_ false 0 t (List.length before)
  = Ok (0%Z, S (List.length before + List.length pre), Some v).
Proof.
  intros Hwarn Hnext Hdec. unfold fstring_find_literal.
  destruct (@literal_loop_after_run _ before pre end_ false t Hrun
              0 (BACKSLASH :: LBRACE :: after)) as [j Hj]; [lia|].
  fold buf in Hj.
  replace ((before ++ pre) ++ BACKSLASH :: LBRACE :: after) with buf in Hj
    by (unfold buf; rewrite app_assoc; reflexivity).
  rewrite Hj, literal_loop_escaped_brace, Hwarn. cbn [bind Z.eqb].
  assert (Hno : (S (S (List.length (before ++ pre))) <? end_)
                && (peek after 0 =? LBRACE)%char = false).
  { destruct (S (S (List.length (before ++ pre))) <? end_) eqn:E;
      [|reflexivity].
    apply Nat.ltb_lt in E. rewrite length_app in E.
    apply Ascii.eqb_neq. apply Hnext. exact E. }
  rewrite Hno. cbn [bind]. unfold fstring_find_literal_tail.
  assert (Hne : (List.length before =? S (List.length (before ++ pre)))
                = false)
    by (apply Nat.eqb_neq; rewrite length_app; lia).
  rewrite Hne. cbn [negb].
  replace (S (List.length (before ++ pre)) - List.length before)
    with (List.length (pre ++ [BACKSLASH]))
    by (rewrite !length_app; cbn [List.length]; lia).
  unfold buf.
  change (pre ++ BACKSLASH :: LBRACE :: after)
    with (pre ++ [BACKSLASH] ++ LBRACE :: after).
  rewrite (app_assoc pre [BACKSLASH]), slice_app, Hdec. cbn [bind].
  rewrite length_app. reflexivity.
Qed.

End EscapedBrace.

(** X26: in a string that is not raw, a backslash before a left brace is an
    invalid escape sequence: when the warning filter turns the
    deprecation warning into an error, the literal scanner fails with
    the syntax error "invalid escape sequence \{", at every recursion
    level. *)
Theorem invalid_escape_before_brace_is_an_error `{Runtime}
    (before pre after : cstring) (end_ : nat) (t : Token)
    (recurse_lvl : Z) :
  literal_run false pre ->
  S (List.length before + List.length pre) < end_ ->
  PyErr_WarnExplicitObject "invalid escape sequence \{" (lineno t)
  = WarnIsDeprecationError ->
  fstring_find_literal (before ++ pre ++ BACKSLASH :: LBRACE :: after) end_
    false recurse_lvl t (List.length before)
  = Err (SyntaxError "invalid escape sequence \{").
Proof.
  intros Hrun Hend Hwarn.
  apply find_literal_escaped_brace_warns; [exact Hrun|exact Hend|].
  unfold warn_invalid_escape_sequence.
  change ("invalid escape sequence \" ++ String LBRACE EmptyString)%string
    with "invalid escape sequence \{"%string.
  rewrite Hwarn. reflexivity.
Qed.

(** A backslash and a left brace after a text, with warnings as
    errors. *)
Lemma invalid_escape_before_brace_is_an_error_witness :
  fstring_find_literal (RT := warnings_as_errors) (quoted "f" "a\{x}") 7
    false 0 (token (quoted "f" "a\{x}")) 2
  = Err (SyntaxError "invalid escape sequence \{").
Proof.
  apply (@invalid_escape_before_brace_is_an_error warnings_as_errors
           (str "f" ++ [DQUOTE]) (str "a") (str "x}" ++ [DQUOTE]) 7
           (token (quoted "f" "a\{x}")) 0).
  - apply run_byte; [discriminate|discriminate|right; discriminate|].
    apply run_nil.
  - cbn. lia.
  - reflexivity.
Defined.

(** X27: a backslash does not escape a left brace: when the warning passes,
    at recursion level 0 the literal ends after the backslash, which
    belongs to it, and the brace (that no other left brace follows)
    starts an expression: the status is 0 and the cursor is on the
    brace. *)
Theorem backslash_does_not_escape_a_brace `{Runtime}
    (before pre after : cstring) (end_ : nat) (t : Token) (v : unicode) :
  literal_run false pre ->
  S (List.length before + List.length pre) < end_ ->
  PyErr_WarnExplicitObject "invalid escape sequence \{" (lineno t)
  = WarnOk ->
  (S (S (List.length before + List.length pre)) < end_ ->
   peek after 0 <> LBRACE) ->
  decode_literal false (pre ++ [BACKSLASH]) = Ok v ->
  fstring_find_literal (before ++ pre ++ BACKSLASH :: LBRACE :: after) end_
    false 0 t (List.length before)
  = Ok (0%Z, S (List.length before + List.length pre), Some v).
Proof.
  intros Hrun Hend Hwarn Hnext Hdec.
  apply find_literal_escaped_brace_starts; try assumption.
  unfold warn_invalid_escape_sequence.
  change ("invalid escape sequence \" ++ String LBRACE EmptyString)%string
    with "invalid escape sequence \{"%string.
  rewrite Hwarn. reflexivity.
Qed.

(** A backslash and a field after a text. *)
Lemma backslash_does_not_escape_a_brace_witness :
  fstring_find_literal (RT := lp64) (quoted "f" "a\{x}") 7
    false 0 (token (quoted "f" "a\{x}")) 2
  = Ok (0%Z, 4, Some (codes (str "a\"))).
Proof.
  apply (@backslash_does_not_escape_a_brace lp64
           (str "f" ++ [DQUOTE]) (str "a") (str "x}" ++ [DQUOTE]) 7
           (token (quoted "f" "a\{x}")) (codes (str "a\"))).
  - apply run_byte; [discriminate|discriminate|right; discriminate|].
    apply run_nil.
  - cbn. lia.
  - reflexivity.
  - intros _. discriminate.
  - reflexivity.
Defined.

(** ** Regular expression literals *)

Section RegexLiteral.

Context {RT : Runtime}.

(** The loop that looks for the last quote finds the quote before flags
    that hold no quote. *)
Lemma reflags_loop_last (quote : ascii) (front : cstring) (s k : nat) :
  List.length front = s + k ->
  forall flags tail,
    ~ In quote flags ->
    reflags_loop (front ++ quote :: flags ++ tail) s quote
      (k + 1 + List.length flags)
    = Some (k + 1).
Proof.
  intros Hfront flags. induction flags as [|c flags IH] using rev_ind;
    intros tail Hin.
  - cbn [List.length app]. rewrite Nat.add_0_r, Nat.add_1_r.
    cbn [reflags_loop]. rewrite <- Hfront, peek_app0. cbn [peek nth].
    rewrite Ascii.eqb_refl. reflexivity.
  - rewrite length_app. cbn [List.length].
    replace (k + 1 + (List.length flags + 1))
      with (S (k + 1 + List.length flags)) by lia.
    cbn [reflags_loop].
    assert (Hc : peek (front ++ quote :: (flags ++ [c]) ++ tail)
                   (s + (k + 1 + List.length flags)) = c).
    { replace (front ++ quote :: (flags ++ [c]) ++ tail)
        with ((front ++ quote :: flags) ++ c :: tail)
        by (rewrite <- !app_assoc; reflexivity).
      replace (s + (k + 1 + List.length flags))
        with (List.length (front ++ quote :: flags))
        by (rewrite length_app; cbn [List.length]; lia).
      rewrite peek_app0. reflexivity. }
    rewrite Hc.
    assert (Hne : (c =? quote)%char = false).
    { apply Ascii.eqb_neq. intros ->. apply Hin.
      apply in_or_app. right. left. reflexivity. }
    rewrite Hne. rewrite <- app_assoc. cbn [app].
    apply IH. intros H. apply Hin. apply in_or_app. left. exact H.
Qed.

Lemma strip_regex (p : Parser) (body flags : cstring) :
  ~ In DQUOTE flags ->
  peek body 0 <> DQUOTE ->
  (Z.of_nat (List.length body + 1 + List.length flags) <= INT_MAX)%Z ->
  parsestr_strip p
    (token (str "re" ++ DQUOTE :: body ++ DQUOTE :: flags))
  = Ok {| st_flags := set_re (set_raw no_flags); st_is_char := false;
          st_s := 3; st_len := List.length body;
          st_reflags := PyUnicode_DecodeUTF8 flags |}.
Proof.
  intros Hflags Hbody Hlen.
  set (buf := str "re" ++ DQUOTE :: body ++ DQUOTE :: flags).
  assert (Hbuf : List.length buf - 3
                 = List.length body + 1 + List.length flags).
  { unfold buf. cbn [str list_ascii_of_string app List.length].
    rewrite length_app. cbn [List.length]. lia. }
  assert (Hview : buf = (str "re" ++ DQUOTE :: body)
                        ++ DQUOTE :: flags ++ []).
  { unfold buf. rewrite app_nil_r. cbn [str list_ascii_of_string app].
    reflexivity. }
  assert (Hloop : reflags_loop buf 3 DQUOTE
                    (List.length body + 1 + List.length flags)
                  = Some (List.length body + 1)).
  { rewrite Hview. apply reflags_loop_last; [|exact Hflags].
    cbn [str list_ascii_of_string app List.length]. lia. }
  assert (Hclose : peek buf (3 + List.length body) = DQUOTE).
  { rewrite Hview.
    replace (3 + List.length body)
      with (List.length (str "re" ++ DQUOTE :: body))
      by (cbn [str list_ascii_of_string app List.length]; lia).
    rewrite peek_app0. reflexivity. }
  assert (Hflagsl : slice buf (3 + (List.length body + 1))
                      (List.length body + 1 + List.length flags
                       - (List.length body + 1)) = flags).
  { replace (List.length body + 1 + List.length flags
             - (List.length body + 1)) with (List.length flags) by lia.
    replace buf with ((str "re" ++ DQUOTE :: body ++ [DQUOTE])
                      ++ flags ++ [])
      by (unfold buf; rewrite app_nil_r;
          cbn [str list_ascii_of_string app];
          rewrite <- app_assoc; reflexivity).
    replace (3 + (List.length body + 1))
      with (List.length (str "re" ++ DQUOTE :: body ++ [DQUOTE]))
      by (cbn [str list_ascii_of_string app List.length];
          rewrite length_app; cbn [List.length]; lia).
    apply slice_app. }
  assert (Etriple : (4 <=? List.length body)
                    && (peek buf 3 =? DQUOTE)%char
                    && (peek buf 4 =? DQUOTE)%char = false).
  { destruct body as [|c body']; [reflexivity|].
    replace (peek buf 3) with c by reflexivity.
    apply Ascii.eqb_neq in Hbody. cbn [peek nth] in Hbody.
    rewrite Hbody, andb_false_r. reflexivity. }
  assert (E : (INT_MAX <? Z.of_nat (List.length body + 1
                                    + List.length flags))%Z = false)
    by (apply Z.ltb_ge; exact Hlen).
  unfold parsestr_strip.
  change (bytes (token buf)) with buf.
  replace (scan_prefix buf) with (2, set_re (set_raw no_flags))
    by reflexivity.
  replace (peek buf 2) with DQUOTE by reflexivity.
  cbn [fmode bytesmode rawmode remode cmode set_re set_raw no_flags
       andb orb negb bind Ascii.eqb Bool.eqb].
  rewrite Hbuf, E, Hloop. cbn [bind].
  replace (List.length body + 1) with (S (List.length body)) by lia.
  rewrite Hclose. cbn [negb Ascii.eqb Bool.eqb].
  rewrite Etriple. cbn [bind].
  replace (S (List.length body)) with (List.length body + 1) by lia.
  rewrite Hflagsl. reflexivity.
Qed.

End RegexLiteral.

(** X28: a regular expression literal: of a token [re], a double quote, a
    body, a double quote and flags that hold no double quote,
    [_Mys_PyPegen_parsestr] sets the raw and the regex flag, takes the
    body between the quotes (the closing quote is the last quote of the
    token) and decodes the flags after it. *)
Theorem regex_literal_has_flags `{Runtime} (p : Parser)
    (body flags : cstring) :
  ~ In DQUOTE flags ->
  peek body 0 <> DQUOTE ->
  (Z.of_nat (List.length body + 1 + List.length flags) <= INT_MAX)%Z ->
  parsestr_strip p
    (token (str "re" ++ DQUOTE :: body ++ DQUOTE :: flags))
  = Ok {| st_flags :=
            {| bytesmode := false; rawmode := true; remode := true;
               cmode := false; fmode := false |};
          st_is_char := false;
          st_s := 3; st_len := List.length body;
          st_reflags := PyUnicode_DecodeUTF8 flags |}.
Proof. intros. apply strip_regex; assumption. Qed.

(** The regular expression of digits with two flags. *)
Lemma regex_literal_has_flags_witness :
  parsestr_strip (RT := lp64) (parser 8)
    (token (str "re" ++ DQUOTE :: str "\d+" ++ DQUOTE :: str "gi"))
  = Ok {| st_flags :=
            {| bytesmode := false; rawmode := true; remode := true;
               cmode := false; fmode := false |};
          st_is_char := false;
          st_s := 3; st_len := List.length (str "\d+");
          st_reflags := Ref.DecodeUTF8 (str "gi") |}.
Proof.
  apply (@regex_literal_has_flags lp64 (parser 8) (str "\d+") (str "gi")).
  - intros [E|[E|[]]]; discriminate.
  - discriminate.
  - cbn. lia.
Defined.

(** ** A backslash at the end of the text *)

Section TrailingBackslash.

Context {RT : Runtime}.

Lemma escapes_loop_ascii (s : cstring) :
  forall rest p fuel top,
    Forall (fun c => c <> BACKSLASH /\ high_bit c = false) s ->
    exists top',
      escapes_loop (List.length s + fuel) (s ++ rest) p top
      = escapes_loop fuel rest (p ++ s) top'.
Proof.
  induction s as [|c s IH]; intros rest p fuel top Hs.
  - exists top. rewrite app_nil_r. reflexivity.
  - inversion Hs as [|c' s' [Hc Hh] Hs']; subst.
    cbn [List.length Nat.add app escapes_loop].
    apply Ascii.eqb_neq in Hc. rewrite Hc, Hh.
    destruct (IH rest (p ++ [c]) fuel (Nat.max top (List.length p + 1)) Hs')
      as [top' E].
    exists top'. rewrite E, <- app_assoc. reflexivity.
Qed.

Lemma decode_trailing_backslash (s : cstring) :
  Forall (fun c => c <> BACKSLASH /\ high_bit c = false) s ->
  (Z.of_nat (List.length s + 1) <= SIZE_MAX / 6)%Z ->
  decode_unicode_with_escapes (s ++ [BACKSLASH])
  = if PyBytes_FromStringAndSize
         (as_ssize_t (Z.of_nat (List.length s + 1) * 6))
    then or_raised (PyUnicode_DecodeUnicodeEscape (s ++ str "\u005c"))
    else Err Raised.
Proof.
  intros Hs Hlen. unfold decode_unicode_with_escapes.
  rewrite length_app. cbn [List.length].
  assert (E : (SIZE_MAX / 6 <? Z.of_nat (List.length s + 1))%Z = false)
    by (apply Z.ltb_ge; exact Hlen).
  rewrite E.
  destruct (PyBytes_FromStringAndSize _); [|reflexivity]. cbn [negb].
  destruct (@escapes_loop_ascii s [BACKSLASH] [] 1 0 Hs) as [top' El].
  rewrite El.
  cbn [escapes_loop fst bind Ascii.eqb Bool.eqb app].
  rewrite <- app_assoc. reflexivity.
Qed.

End TrailingBackslash.

(** X29: a backslash at the end of the text is not an escape: after ASCII
    text without a backslash, [decode_unicode_with_escapes], when it has
    got its buffer from [PyBytes_FromStringAndSize] (it fails otherwise),
    writes the backslash to the buffer with the escape [u005c] after it,
    so that the escape decoder gets the text and the escape of a
    backslash. *)
Theorem trailing_backslash_is_escaped `{Runtime} (s : cstring) :
  Forall (fun c => c <> BACKSLASH /\ high_bit c = false) s ->
  (Z.of_nat (List.length s + 1) <= SIZE_MAX / 6)%Z ->
  decode_unicode_with_escapes (s ++ [BACKSLASH])
  = if PyBytes_FromStringAndSize
         (as_ssize_t (Z.of_nat (List.length s + 1) * 6))
    then or_raised (PyUnicode_DecodeUnicodeEscape (s ++ str "\u005c"))
    else Err Raised.
Proof. intros. apply decode_trailing_backslash; assumption. Qed.

(** A letter and a backslash. *)
Lemma trailing_backslash_is_escaped_witness :
  decode_unicode_with_escapes (RT := lp64) (str "a" ++ [BACKSLASH])
  = or_raised (Ref.DecodeUnicodeEscape (str "a" ++ str "\u005c")).
Proof.
  apply (@trailing_backslash_is_escaped lp64 (str "a")).
  - repeat constructor. discriminate.
  - cbn. lia.
Defined.

(** ** The location of an expression in its token *)

Section Location.

Lemma back_to_newline_spec (parent_str : cstring) (j : nat) :
  forall k,
    j <= k ->
    (forall i, j < i <= k -> peek parent_str i <> NEWLINE) ->
    j = 0 \/ peek parent_str j = NEWLINE ->
    back_to_newline parent_str k = k - j.
Proof.
  induction k as [|k IH]; intros Hle Hno Hj.
  - reflexivity.
  - destruct (Nat.eq_dec j (S k)) as [->|Hne].
    + destruct Hj as [Hj|Hj]; [discriminate|].
      cbn [back_to_newline]. rewrite Hj. cbn [Ascii.eqb Bool.eqb].
      lia.
    + cbn [back_to_newline].
      assert (Hk : (peek parent_str (S k) =? NEWLINE)%char = false)
        by (apply Ascii.eqb_neq, Hno; lia).
      rewrite Hk, IH; [lia|lia| |exact Hj].
      intros i Hi. apply Hno. lia.
Qed.

Lemma count_newlines_app (l1 l2 : cstring) :
  count_newlines (l1 ++ l2) = count_newlines l1 + count_newlines l2.
Proof. unfold count_newlines. rewrite filter_app, length_app. reflexivity. Qed.

Lemma count_newlines_none (l : cstring) :
  ~ In NEWLINE l -> count_newlines l = 0.
Proof.
  unfold count_newlines. induction l as [|c l IH]; intros H; [reflexivity|].
  cbn [filter].
  destruct (Ascii.eqb NEWLINE c) eqn:E.
  - apply Ascii.eqb_eq in E. exfalso. apply H. left. auto.
  - apply IH. intros Hin. apply H. right. exact Hin.
Qed.

Lemma peek_in (l : cstring) (i : nat) :
  i < List.length l -> In (peek l i) l.
Proof. intros H. unfold peek. apply nth_In. exact H. Qed.

Variables (parent : Token) (expr_str front line rest : cstring)
          (c : ascii).

Hypothesis Hparent : bytes parent = front ++ line ++ LBRACE :: c :: rest.
Hypothesis Hline : ~ In NEWLINE line.
Hypothesis Hc :
  c <> RBRACE /\ c <> NEWLINE /\ c <> " "%char /\ c <> TAB
  /\ c <> FORMFEED.
Hypothesis Hfound :
  strstr (bytes parent) expr_str
  = Some (List.length front + List.length line).

Lemma location_after :
  newline_after_brace
    (skipn (S (List.length front + List.length line)) (bytes parent))
  = false.
Proof.
  rewrite Hparent, app_assoc.
  replace (S (List.length front + List.length line))
    with (List.length ((front ++ line) ++ [LBRACE]))
    by (rewrite !length_app; cbn [List.length]; lia).
  change (LBRACE :: c :: rest) with ([LBRACE] ++ c :: rest).
  rewrite app_assoc, skipn_app, skipn_all, Nat.sub_diag. cbn [app skipn].
  cbn [newline_after_brace].
  destruct Hc as [H1 [H2 [H3 [H4 H5]]]].
  apply Ascii.eqb_neq in H1, H2, H3, H4, H5.
  rewrite H1, H2, H3, H4, H5. reflexivity.
Qed.

Lemma location_no_newline (i : nat) :
  List.length front <= i <= List.length front + List.length line ->
  peek (bytes parent) i <> NEWLINE.
Proof.
  intros Hi. rewrite Hparent.
  replace i with (List.length front + (i - List.length front)) by lia.
  rewrite peek_app.
  destruct (Nat.eq_dec (i - List.length front) (List.length line))
    as [->|Hne].
  - rewrite peek_app0. discriminate.
  - intros E. apply Hline. rewrite <- E.
    replace (peek (line ++ LBRACE :: c :: rest) (i - List.length front))
      with (peek line (i - List.length front)).
    + apply peek_in. lia.
    + unfold peek. rewrite app_nth1 by lia. reflexivity.
Qed.

Lemma location_first_line :
  front = [] ->
  fstring_find_expr_location parent expr_str
  = (0%Z, Z.of_nat (List.length line)).
Proof.
  intros Hfront. unfold fstring_find_expr_location.
  rewrite Hfound, location_after.
  rewrite (@back_to_newline_spec _ 0); [|lia| |left; reflexivity].
  - rewrite Hparent, Hfront. cbn [app List.length Nat.add].
    rewrite firstn_app, firstn_all, Nat.sub_diag. cbn [firstn].
    rewrite app_nil_r, count_newlines_none by exact Hline.
    rewrite Nat.sub_0_r. reflexivity.
  - intros i Hi. apply location_no_newline. rewrite Hfront in *.
    cbn [List.length] in *. lia.
Qed.

Lemma location_later_line (above : cstring) :
  front = above ++ [NEWLINE] ->
  fstring_find_expr_location parent expr_str
  = (Z.of_nat (count_newlines above + 1),
     Z.of_nat (List.length line + 1)).
Proof.
  intros Hfront. unfold fstring_find_expr_location.
  rewrite Hfound, location_after.
  assert (Hlen : List.length front = S (List.length above))
    by (rewrite Hfront, length_app; cbn [List.length]; lia).
  rewrite (@back_to_newline_spec _ (List.length above)); [|lia| |right].
  - rewrite Hparent, app_assoc, firstn_app.
    rewrite <- length_app, firstn_all, Nat.sub_diag. cbn [firstn].
    rewrite app_nil_r, count_newlines_app, Hfront, count_newlines_app.
    rewrite (@count_newlines_none line Hline). unfold count_newlines.
    cbn [filter].
    cbn [Ascii.eqb Bool.eqb List.length].
    rewrite !length_app. cbn [List.length].
    f_equal; f_equal; lia.
  - intros i Hi. apply location_no_newline. lia.
  - rewrite Hparent, Hfront, <- !app_assoc, peek_app0. reflexivity.
Qed.

End Location.

(** X30: the location of an expression in its token, for an expression whose
    text in braces first occurs at its brace, with a byte after the
    brace that is neither white space nor a right brace: the lines are
    the newlines before the brace; the columns are the bytes before
    the brace when the brace is on the first line of the token, and the
    bytes from the last newline to the brace, the newline included,
    when it is on a later line. *)
Theorem expression_location_is_counted_from_the_line (parent : Token)
    (expr_str line rest : cstring) (c : ascii) (above : option cstring) :
  bytes parent
  = match above with Some a => a ++ [NEWLINE] | None => [] end
    ++ line ++ LBRACE :: c :: rest ->
  ~ In NEWLINE line ->
  c <> RBRACE /\ c <> NEWLINE /\ c <> " "%char /\ c <> TAB
  /\ c <> FORMFEED ->
  strstr (bytes parent) expr_str
  = Some (List.length
            match above with Some a => a ++ [NEWLINE] | None => [] end
          + List.length line) ->
  fstring_find_expr_location parent expr_str
  = match above with
    | None => (0%Z, Z.of_nat (List.length line))
    | Some a =>
        (Z.of_nat (count_newlines a + 1), Z.of_nat (List.length line + 1))
    end.
Proof.
  intros Hparent Hline Hc Hfound. destruct above as [a|].
  - eapply location_later_line; eauto.
  - eapply location_first_line; eauto.
Qed.

(** A field on the second line of a token. *)
Lemma expression_location_is_counted_from_the_line_witness :
  fstring_find_expr_location
    (token (str "f" ++ DQUOTE :: str "a" ++ NEWLINE :: str " b{x}"
            ++ [DQUOTE]))
    (str "{x}")
  = (Z.of_nat (count_newlines (str "f" ++ DQUOTE :: str "a") + 1),
     Z.of_nat (List.length (str " b") + 1)).
Proof.
  apply (@expression_location_is_counted_from_the_line
           (token (str "f" ++ DQUOTE :: str "a" ++ NEWLINE :: str " b{x}"
                   ++ [DQUOTE]))
           (str "{x}") (str " b") (str "}" ++ [DQUOTE]) "x"%char
           (Some (str "f" ++ DQUOTE :: str "a"))).
  - reflexivity.
  - intros [E|[E|[]]]; discriminate.
  - repeat split; discriminate.
  - reflexivity.
Defined.
